(** * Shruti-1 synthesis engine

    A shallow embedding of [hardware/shruti/synthesis_engine.cc]: the
    modulation matrix evaluated by [Voice::Control], the portamento engine of
    [Voice::Trigger], the pitch-table resolution, the tempo-synchronised LFO
    reset of [SynthesisEngine::Control], the oscillator mix of
    [Voice::Audio] and the parameter dispatch of
    [SynthesisEngine::SetParameter] and [SynthesisEngine::ControlChange].

    Fixed-width C integers are integers of [Z] with the wrap-around written
    out.  Arrays are lists; an access whose index comes from patch data is
    checked, and an out-of-bounds access (undefined in C++) makes the
    operation return [None].  The headers of the repository (patch.h,
    synthesis_engine.h, op.h, the resources) are not among the sources: their
    constants and tables are the fields of the classes [Headers] and
    [Resources], and the arithmetic helpers of op.h are modelled in
    [Module Op]. *)

From Stdlib Require Import ZArith Lia List Bool.
From stdpp Require Import base option list.
Import ListNotations.
Local Open Scope Z_scope.

(** ** Fixed-width integers *)

Definition u8 (z : Z) : Z := z mod 256.
Definition i8 (z : Z) : Z := (z + 128) mod 256 - 128.
Definition u16 (z : Z) : Z := z mod 65536.
Definition i16 (z : Z) : Z := (z + 32768) mod 65536 - 32768.
Definition i32 (z : Z) : Z := (z + 2147483648) mod 4294967296 - 2147483648.

(** [a[i]] for an index fixed by the program text. *)
Definition peek (a : list Z) (i : Z) : Z := nth (Z.to_nat i) a 0.
(** [a[i] = x] for an index fixed by the program text. *)
Definition poke (a : list Z) (i x : Z) : list Z := <[Z.to_nat i := x]> a.
(** [a[i]] for an index computed from data: undefined out of bounds. *)
Definition load (a : list Z) (i : Z) : option Z :=
  if i <? 0 then None else a !! Z.to_nat i.
(** [a[i] = x] for an index computed from data: undefined out of bounds. *)
Definition store (a : list Z) (i x : Z) : option (list Z) :=
  if (0 <=? i) && (i <? Z.of_nat (length a)) then Some (poke a i x) else None.

(** ** The arithmetic helpers of op.h *)

Module Op.

(** Modelled from the spec: [Clip] of hardware/utils/op.h is missing; the
    spec says accumulators are "clamped to [0, 16383]", a saturation of an
    int16_t value between the two bounds. *)
Definition Clip (value min max : Z) : Z :=
  let value := i16 value in
  if value <? min then min else if max <? value then max else value.

(** Modelled from the spec: [ShiftRight6] of op.h is missing; the spec
    down-scales 14-bit levels to 8 bits, a right shift by six of an
    unsigned 16-bit value. *)
Definition ShiftRight6 (value : Z) : Z := Z.shiftr (u16 value) 6.

(** Modelled from the spec: [SignedUnsignedMul] of op.h is missing; the spec
    computes "amount x source_value (signed x unsigned)". *)
Definition SignedUnsignedMul (a b : Z) : Z := i8 a * u8 b.

(** Modelled from the spec: [SignedMulScale8] of op.h is missing; the spec
    says "signed-by-unsigned multiply, result right-shifted 8 bits". *)
Definition SignedMulScale8 (a b : Z) : Z := i8 (Z.shiftr (i8 a * u8 b) 8).

(** Modelled from the spec: [MulScale8] of op.h is missing; the product of
    two unsigned bytes right-shifted 8 bits (the "multiplicative chain" of
    the amplitude destination). *)
Definition MulScale8 (a b : Z) : Z := Z.shiftr (u8 a * u8 b) 8.

(** Modelled from the spec: [UnsignedUnsignedMul] of op.h is missing; the
    16-bit product of two unsigned bytes. *)
Definition UnsignedUnsignedMul (a b : Z) : Z := u8 a * u8 b.

(** Modelled from the spec: [Mix] of op.h is missing; the spec calls it a
    "weighted blend" of two samples by an 8-bit balance:
    [a * (255 - balance) + b * balance >> 8]. *)
Definition Mix (a b balance : Z) : Z :=
  Z.shiftr (u8 a * (255 - u8 balance) + u8 b * u8 balance) 8.

(** Modelled from the spec: [SignedSignedMulScale8] of op.h is missing;
    "signed x signed scaled multiply" of two signed bytes, right-shifted 8
    bits. *)
Definition SignedSignedMulScale8 (a b : Z) : Z := i8 (Z.shiftr (i8 a * i8 b) 8).

End Op.

(** ** Constants and tables of the missing headers *)

(** The constants of patch.h, synthesis_engine.h, envelope.h and midi.h that
    synthesis_engine.cc names.  A field [offsetof_f] is the byte offset of the
    member [f] within [Patch]; [keep_me_at_the_top] is at offset 0. *)
Class Headers := {
  sizeof_Patch : Z;
  kNumVoices : nat;
  kModulationMatrixSize : Z;
  kSavedModulationMatrixSize : Z;
  kNumGlobalModulationSources : Z;
  (* enum ModulationSource *)
  MOD_SRC_LFO_1 : Z; MOD_SRC_LFO_2 : Z; MOD_SRC_SEQ : Z; MOD_SRC_STEP : Z;
  MOD_SRC_WHEEL : Z; MOD_SRC_PITCH_BEND : Z; MOD_SRC_RANDOM : Z;
  MOD_SRC_ENV_1 : Z; MOD_SRC_ENV_2 : Z; MOD_SRC_VELOCITY : Z;
  MOD_SRC_NOTE : Z; MOD_SRC_GATE : Z;
  (* enum ModulationDestination *)
  MOD_DST_FILTER_CUTOFF : Z; MOD_DST_VCA : Z; MOD_DST_PWM_1 : Z;
  MOD_DST_PWM_2 : Z; MOD_DST_VCO_1 : Z; MOD_DST_VCO_2 : Z;
  MOD_DST_VCO_1_2_FINE : Z; MOD_DST_MIX_BALANCE : Z; MOD_DST_MIX_NOISE : Z;
  MOD_DST_MIX_SUB_OSC : Z; MOD_DST_FILTER_RESONANCE : Z;
  (* enum Parameter *)
  PRM_OSC_SHAPE_2 : Z; PRM_MIX_SUB_OSC_SHAPE : Z; PRM_ENV_ATTACK_1 : Z;
  PRM_LFO_RATE_2 : Z; PRM_ARP_TEMPO : Z; PRM_ARP_OCTAVE : Z;
  PRM_ARP_PATTERN : Z; PRM_ARP_SWING : Z; PRM_ARP_PATTERN_SIZE : Z;
  (* struct Patch *)
  offsetof_osc_shape : Z; offsetof_osc_parameter : Z; offsetof_osc_range : Z;
  offsetof_osc_option : Z; offsetof_mix_balance : Z; offsetof_mix_sub_osc : Z;
  offsetof_mix_noise : Z; offsetof_mix_sub_osc_shape : Z;
  offsetof_filter_cutoff : Z; offsetof_filter_resonance : Z;
  offsetof_filter_env : Z; offsetof_filter_lfo : Z;
  offsetof_env_attack : Z; offsetof_env_decay : Z; offsetof_env_sustain : Z;
  offsetof_env_release : Z; offsetof_lfo_wave : Z; offsetof_lfo_rate : Z;
  offsetof_modulation_matrix : Z; offsetof_sequence : Z;
  offsetof_kbd_octave : Z; offsetof_kbd_raga : Z;
  offsetof_kbd_portamento : Z; offsetof_kbd_midi_channel : Z;
  (* oscillator shapes and operators, envelope stages *)
  WAVEFORM_FM : Z; WAVEFORM_VOWEL : Z; RING_MOD : Z; XOR : Z; SYNC : Z;
  ATTACK : Z; RELEASE : Z;
  (* pitch table window *)
  kOctave : Z; kLowestNote : Z; kHighestNote : Z; kPitchTableStart : Z;
  (* namespace hardware_midi *)
  kModulationWheelMsb : Z; kDataEntryMsb : Z; kPortamentoTimeMsb : Z;
  kRelease : Z; kAttack : Z; kHarmonicIntensity : Z; kBrightness : Z;
  kNrpnMsb : Z
}.

(** The tables the engine reads through [ResourcesManager::Lookup]. *)
Class Resources := {
  LUT_RES_SCALE_JUST : Z;
  (** the table behind a [ResourceId], read at an index *)
  lookup_resource : Z -> Z -> Z;
  lut_res_env_portamento_increments : Z -> Z;
  lut_res_oscillator_increments : Z -> Z;
  lut_res_lfo_increments : Z -> Z
}.

(** The three loop bounds below are fixed by the sources themselves:
    [Envelope Voice::envelope_[2]], the two entries of [lfo_wave] and
    [lfo_rate] in [empty_patch], and the oscillator loop that tells
    [i == 0] from [i == 1]. *)
Definition kNumEnvelopes : nat := 2.
Definition kNumLfos : nat := 2.
Definition kNumOscillators : nat := 2.

(** Calls made to collaborators whose code is outside the engine (envelopes,
    oscillators, noise generator, note dispatcher), in program order. *)
Inductive Call : Type :=
| EnvelopeInit (i : Z)
| EnvelopeTrigger (i stage : Z)
| EnvelopeRender (i : Z)
| EnvelopeUpdate (voice i attack decay sustain release : Z)
| Osc1Reset | Osc2Reset | SubOscReset | Osc2ResetPhase
| Osc1Render | Osc2Render | SubOscRender
| Osc1SetupAlgorithm (shape : Z)
| Osc2SetupAlgorithm (shape : Z)
| SubOscSetupAlgorithm (shape : Z)
| Osc1UpdateSecondaryParameter (x : Z)
| Osc1Update (parameter note increment : Z)
| Osc2Update (parameter note increment : Z)
| SubOscUpdate (parameter note increment : Z)
| RandomUpdate
| ControllerNoteOn (note velocity : Z)
| ControllerNoteOff (note : Z)
| ControllerSetTempo (x : Z)
| ControllerSetOctaves (x : Z)
| ControllerSetPattern (x : Z)
| ControllerSetSwing (x : Z)
| Controller_set_pattern_size (x : Z)
| ControllerControl
| ControllerAudio
| ControllerReset
| ControllerAllSoundOff
| ControllerAllNotesOff
| ControllerExternalSync
| ControllerStart
| ControllerStop
| LfoRender (i : Z).

(** ** The patch, as the bytes [SetParameter] indexes *)

Abbreviation Patch := (list Z).

Section PatchFields.
Context `{Headers}.

Definition osc_shape (p : Patch) (i : Z) : Z := peek p (offsetof_osc_shape + i).
Definition osc_parameter (p : Patch) (i : Z) : Z := peek p (offsetof_osc_parameter + i).
(* int8_t members are read through [i8] *)
Definition osc_range (p : Patch) (i : Z) : Z := i8 (peek p (offsetof_osc_range + i)).
Definition osc_option (p : Patch) (i : Z) : Z := peek p (offsetof_osc_option + i).
Definition mix_balance (p : Patch) : Z := peek p offsetof_mix_balance.
Definition mix_sub_osc (p : Patch) : Z := peek p offsetof_mix_sub_osc.
Definition mix_noise (p : Patch) : Z := peek p offsetof_mix_noise.
Definition mix_sub_osc_shape (p : Patch) : Z := peek p offsetof_mix_sub_osc_shape.
Definition filter_cutoff (p : Patch) : Z := peek p offsetof_filter_cutoff.
Definition filter_resonance (p : Patch) : Z := peek p offsetof_filter_resonance.
Definition filter_env (p : Patch) : Z := i8 (peek p offsetof_filter_env).
Definition filter_lfo (p : Patch) : Z := i8 (peek p offsetof_filter_lfo).
Definition env_attack (p : Patch) (i : Z) : Z := peek p (offsetof_env_attack + i).
Definition env_decay (p : Patch) (i : Z) : Z := peek p (offsetof_env_decay + i).
Definition env_sustain (p : Patch) (i : Z) : Z := peek p (offsetof_env_sustain + i).
Definition env_release (p : Patch) (i : Z) : Z := peek p (offsetof_env_release + i).
Definition lfo_wave (p : Patch) (i : Z) : Z := peek p (offsetof_lfo_wave + i).
Definition lfo_rate (p : Patch) (i : Z) : Z := peek p (offsetof_lfo_rate + i).
Definition kbd_octave (p : Patch) : Z := i8 (peek p offsetof_kbd_octave).
Definition kbd_raga (p : Patch) : Z := peek p offsetof_kbd_raga.
Definition kbd_portamento (p : Patch) : Z := peek p offsetof_kbd_portamento.
Definition kbd_midi_channel (p : Patch) : Z := peek p offsetof_kbd_midi_channel.

(** [modulation_matrix.modulation[i]]: three bytes per row, in the order of
    the rows of [empty_patch] (source, destination, amount). *)
Definition modulation_source (p : Patch) (i : Z) : Z :=
  peek p (offsetof_modulation_matrix + 3 * i).
Definition modulation_destination (p : Patch) (i : Z) : Z :=
  peek p (offsetof_modulation_matrix + 3 * i + 1).
Definition modulation_amount (p : Patch) (i : Z) : Z :=
  i8 (peek p (offsetof_modulation_matrix + 3 * i + 2)).

End PatchFields.

(** A [while] loop: [None] when the fuel runs out before the condition
    fails. *)
Fixpoint while {S : Type} (fuel : nat) (cond : S -> bool) (body : S -> S)
    (s : S) : option S :=
  match fuel with
  | O => None
  | Datatypes.S fuel' =>
      if cond s then while fuel' cond body (body s) else Some s
  end.

(** A loop over int16_t that terminates does so within 2^16 iterations. *)
Definition loop_fuel : nat := Z.to_nat 65536.

(** ** Voice *)

Module Voice.

(** The static members of [Voice], and the static local [dst] of
    [Voice::Control]. *)
Record t : Type := mk {
  dead_ : Z;
  pitch_increment_ : Z;
  pitch_target_ : Z;
  pitch_value_ : Z;
  modulation_sources_ : list Z;
  modulation_destinations_ : list Z;
  signal_ : Z;
  osc1_phase_msb_ : Z;
  dst : list Z
}.

Definition set_dead (x : Z) (v : t) : t :=
  mk x (pitch_increment_ v) (pitch_target_ v) (pitch_value_ v)
     (modulation_sources_ v) (modulation_destinations_ v) (signal_ v)
     (osc1_phase_msb_ v) (dst v).
Definition set_pitch (increment target value : Z) (v : t) : t :=
  mk (dead_ v) increment target value
     (modulation_sources_ v) (modulation_destinations_ v) (signal_ v)
     (osc1_phase_msb_ v) (dst v).
Definition set_modulation_sources (x : list Z) (v : t) : t :=
  mk (dead_ v) (pitch_increment_ v) (pitch_target_ v) (pitch_value_ v)
     x (modulation_destinations_ v) (signal_ v) (osc1_phase_msb_ v) (dst v).
Definition set_destinations (d md : list Z) (v : t) : t :=
  mk (dead_ v) (pitch_increment_ v) (pitch_target_ v) (pitch_value_ v)
     (modulation_sources_ v) md (signal_ v) (osc1_phase_msb_ v) d.
Definition set_signal (x : Z) (v : t) : t :=
  mk (dead_ v) (pitch_increment_ v) (pitch_target_ v) (pitch_value_ v)
     (modulation_sources_ v) (modulation_destinations_ v) x
     (osc1_phase_msb_ v) (dst v).
Definition set_osc1_phase_msb (x : Z) (v : t) : t :=
  mk (dead_ v) (pitch_increment_ v) (pitch_target_ v) (pitch_value_ v)
     (modulation_sources_ v) (modulation_destinations_ v) (signal_ v)
     x (dst v).

(** What the envelopes answer during one [Voice::Control]:
    [envelope_[i].dead()], [envelope_[i].value()] and
    [envelope_[0].stage()], all read after [Render]. *)
Record ControlInputs : Type := {
  envelope_dead : Z -> bool;
  envelope_value : Z -> Z;
  envelope_stage : Z -> Z
}.

(** What the oscillators and the noise generator answer during one
    [Voice::Audio]. *)
Record AudioInputs : Type := {
  osc1_render : Z;
  osc2_render : Z;
  sub_osc_render : Z;
  osc1_phase : Z;
  random_state_msb : Z
}.

Section WithHeaders.
Context `{Headers} `{Resources}.

(** [Voice::Init] *)
Definition Init (v : t) : t * list Call :=
  (set_signal 128 (set_pitch (pitch_increment_ v) (pitch_target_ v) 0 v),
   map (fun i => EnvelopeInit (Z.of_nat i)) (seq 0 kNumEnvelopes)).

(** [Voice::TriggerEnvelope] *)
Definition TriggerEnvelope (stage : Z) : list Call :=
  map (fun i => EnvelopeTrigger (Z.of_nat i) stage) (seq 0 kNumEnvelopes).

(** The target pitch of [Voice::Trigger]: the note in 1/128th of a semitone,
    plus the offset of the selected scale. *)
Definition trigger_target (patch : Patch) (note : Z) : Z :=
  let pitch_target := i16 (Z.shiftl (u8 note) 7) in
  if kbd_raga patch =? 0 then pitch_target
  else i16 (pitch_target +
            i8 (lookup_resource (LUT_RES_SCALE_JUST + kbd_raga patch - 1)
                                (u8 note mod 12))).

(** [(delta * increment) >> 15], stored in the int16_t [pitch_increment_]. *)
Definition slide_increment (delta increment : Z) : Z :=
  i16 (Z.shiftr (i32 (delta * increment)) 15).

(** The portamento table entry read by [Voice::Trigger]. *)
Definition portamento_lookup (patch : Patch) : Z :=
  u16 (lut_res_env_portamento_increments (u8 (kbd_portamento patch))).

(** [Voice::Trigger] *)
Definition Trigger (patch : Patch) (note velocity legato : Z) (v : t)
    : t * list Call :=
  let '(v, calls) :=
    if u8 legato =? 0 then
      (set_modulation_sources
         (poke (modulation_sources_ v)
               (MOD_SRC_VELOCITY - kNumGlobalModulationSources)
               (u8 (Z.shiftl (u8 velocity) 1))) v,
       TriggerEnvelope ATTACK ++ [Osc1Reset; Osc2Reset; SubOscReset])
    else (v, []) in
  let pitch_target := trigger_target patch note in
  let pitch_value :=
    if pitch_value_ v =? 0 then pitch_target else pitch_value_ v in
  let delta := i16 (pitch_target - pitch_value) in
  let increment := portamento_lookup patch in
  let pitch_increment := slide_increment delta increment in
  let pitch_increment :=
    if pitch_increment =? 0 then (if delta <? 0 then -1 else 1)
    else pitch_increment in
  (set_pitch pitch_increment pitch_target pitch_value v, calls).

(** The pitch step at the head of [Voice::Control]. *)
Definition pitch_step (v : t) : t :=
  let pitch_value := i16 (pitch_value_ v + pitch_increment_ v) in
  if xorb (0 <? pitch_increment_ v) (pitch_value <? pitch_target_ v)
  then set_pitch 0 (pitch_target_ v) (pitch_target_ v) v
  else set_pitch (pitch_increment_ v) (pitch_target_ v) pitch_value v.

(** A voice that has reached the pitch [target] and stopped sliding. *)
Definition arrived (target : Z) (v : t) : Prop :=
  pitch_value_ v = target /\ pitch_target_ v = target /\ pitch_increment_ v = 0.

(** The value of a matrix row's source: the sources below
    [kNumGlobalModulationSources] are read from the engine, the others from
    the voice. *)
Definition source_value (engine_sources voice_sources : list Z) (source : Z)
    : option Z :=
  if source <? kNumGlobalModulationSources then load engine_sources source
  else load voice_sources (source - kNumGlobalModulationSources).

(** The amount row [i] is applied with: the row at
    [kSavedModulationMatrixSize - 1] is scaled by the modulation wheel. *)
Definition effective_amount (patch : Patch) (engine_sources : list Z) (i : Z)
    : Z :=
  let amount := modulation_amount patch i in
  if i =? kSavedModulationMatrixSize - 1
  then Op.SignedMulScale8 amount (peek engine_sources MOD_SRC_WHEEL)
  else amount.

(** The sources with relative modulation. *)
Definition relative_source (source : Z) : bool :=
  (source <=? MOD_SRC_LFO_2) || (source =? MOD_SRC_PITCH_BEND)
  || (source =? MOD_SRC_NOTE).

(** The body of the matrix loop of [Voice::Control] once the amount, the
    source and the destination of the row are known, on the pair of [dst]
    and [modulation_destinations_]. *)
Definition apply_row (engine_sources voice_sources : list Z)
    (source destination amount : Z) (acc : list Z * list Z)
    : option (list Z * list Z) :=
  let '(dst, destinations) := acc in
  value ← source_value engine_sources voice_sources source;
  if negb (destination =? MOD_DST_VCA) then
    modulation ← load dst destination;
    let modulation := i16 (modulation + Op.SignedUnsignedMul amount value) in
    let modulation :=
      if relative_source source then i16 (modulation - Z.shiftl amount 7)
      else modulation in
    Some (poke dst destination (Op.Clip modulation 0 16383), destinations)
  else
    let '(amount, value) :=
      if amount <? 0 then (i8 (- amount), u8 (255 - value))
      else (amount, value) in
    Some (dst,
          poke destinations MOD_DST_VCA
            (i8 (Op.MulScale8 (peek destinations MOD_DST_VCA)
                              (Op.Mix 255 value (Z.shiftl amount 2))))).

(** The body of the matrix loop of [Voice::Control] for row [i]: a row whose
    stored amount is zero is skipped. *)
Definition apply_modulation (patch : Patch) (engine_sources voice_sources : list Z)
    (i : Z) (acc : list Z * list Z) : option (list Z * list Z) :=
  if modulation_amount patch i =? 0 then Some acc else
  apply_row engine_sources voice_sources
    (modulation_source patch i) (modulation_destination patch i)
    (effective_amount patch engine_sources i) acc.

(** The matrix loop over the rows [rows], in order. *)
Fixpoint modulation_loop (patch : Patch) (engine_sources voice_sources : list Z)
    (rows : list Z) (acc : list Z * list Z) : option (list Z * list Z) :=
  match rows with
  | [] => Some acc
  | i :: rows =>
      acc ← apply_modulation patch engine_sources voice_sources i acc;
      modulation_loop patch engine_sources voice_sources rows acc
  end.

(** [for (i = 0; i < kModulationMatrixSize; ++i)] *)
Definition matrix_rows : list Z := seqZ 0 kModulationMatrixSize.

(** "Load and scale to 0-16383 the initial value of each modulated
    parameter." *)
Definition load_initial_values (patch : Patch) (dst : list Z) : list Z :=
  let dst := poke dst MOD_DST_FILTER_CUTOFF (i16 (Z.shiftl (filter_cutoff patch) 7)) in
  let dst := poke dst MOD_DST_PWM_1 (i16 (Z.shiftl (osc_parameter patch 0) 7)) in
  let dst := poke dst MOD_DST_PWM_2 (i16 (Z.shiftl (osc_parameter patch 1) 7)) in
  let dst := poke dst MOD_DST_VCO_1 8192 in
  let dst := poke dst MOD_DST_VCO_2 8192 in
  let dst := poke dst MOD_DST_VCO_1_2_FINE 8192 in
  let dst := poke dst MOD_DST_MIX_BALANCE (i16 (Z.shiftl (mix_balance patch) 8)) in
  let dst := poke dst MOD_DST_MIX_NOISE (i16 (Z.shiftl (mix_noise patch) 8)) in
  let dst := poke dst MOD_DST_MIX_SUB_OSC (i16 (Z.shiftl (mix_sub_osc patch) 8)) in
  poke dst MOD_DST_FILTER_RESONANCE (i16 (Z.shiftl (filter_resonance patch) 8)).

(** "Hardcoded filter modulations." *)
Definition filter_modulations (patch : Patch) (engine_sources voice_sources : list Z)
    (dst : list Z) : list Z :=
  let dst :=
    poke dst MOD_DST_FILTER_CUTOFF
      (Op.Clip (peek dst MOD_DST_FILTER_CUTOFF +
                Op.SignedUnsignedMul (filter_env patch)
                  (peek voice_sources (MOD_SRC_ENV_1 - kNumGlobalModulationSources)))
               0 16383) in
  poke dst MOD_DST_FILTER_CUTOFF
    (Op.Clip (peek dst MOD_DST_FILTER_CUTOFF +
              Op.SignedUnsignedMul (filter_lfo patch)
                (peek engine_sources MOD_SRC_LFO_2) -
              Z.shiftl (filter_lfo patch) 7)
             0 16383).

(** "Store in memory all the updated parameters": [modulation_destinations_]
    is an array of int8_t. *)
Definition store_destinations (dst destinations : list Z) : list Z :=
  let d := poke destinations MOD_DST_FILTER_CUTOFF
             (i8 (Op.ShiftRight6 (peek dst MOD_DST_FILTER_CUTOFF))) in
  let d := poke d MOD_DST_FILTER_RESONANCE
             (i8 (Op.ShiftRight6 (peek dst MOD_DST_FILTER_RESONANCE))) in
  let d := poke d MOD_DST_PWM_1 (i8 (Z.shiftr (peek dst MOD_DST_PWM_1) 7)) in
  let d := poke d MOD_DST_PWM_2 (i8 (Z.shiftr (peek dst MOD_DST_PWM_2) 7)) in
  let d := poke d MOD_DST_MIX_BALANCE
             (i8 (Op.ShiftRight6 (peek dst MOD_DST_MIX_BALANCE))) in
  let d := poke d MOD_DST_MIX_NOISE (i8 (Z.shiftr (peek dst MOD_DST_MIX_NOISE) 8)) in
  poke d MOD_DST_MIX_SUB_OSC (i8 (Z.shiftr (peek dst MOD_DST_MIX_SUB_OSC) 7)).

(** The modulation stage of [Voice::Control]: from the amplitude set to
    255 to the stores into [modulation_destinations_]. *)
Definition resolve_destinations (patch : Patch)
    (engine_sources voice_sources dst destinations : list Z)
    : option (list Z * list Z) :=
  let destinations := poke destinations MOD_DST_VCA (i8 255) in
  let dst := load_initial_values patch dst in
  acc ← modulation_loop patch engine_sources voice_sources matrix_rows
        (dst, destinations);
  let dst := filter_modulations patch engine_sources voice_sources (fst acc) in
  Some (dst, store_destinations dst (snd acc)).

(** "Rescale the value of each modulation sources." *)
Definition update_sources (inp : ControlInputs) (pitch_value : Z)
    (sources : list Z) : list Z :=
  let s := poke sources (MOD_SRC_ENV_1 - kNumGlobalModulationSources)
             (u8 (Op.ShiftRight6 (envelope_value inp 0))) in
  let s := poke s (MOD_SRC_ENV_2 - kNumGlobalModulationSources)
             (u8 (Op.ShiftRight6 (envelope_value inp 1))) in
  let s := poke s (MOD_SRC_NOTE - kNumGlobalModulationSources)
             (u8 (Op.ShiftRight6 pitch_value)) in
  poke s (MOD_SRC_GATE - kNumGlobalModulationSources)
       (if RELEASE <=? envelope_stage inp 0 then 0 else 255).

(** The pitch of oscillator [i], assembled from the voice pitch, the range
    and octave controllers, the detune and the routed modulations. *)
Definition assemble_pitch (patch : Patch) (dst : list Z) (pitch_value i : Z) : Z :=
  let pitch := pitch_value in
  let pitch :=
    if (i =? 0) && (osc_shape patch 0 =? WAVEFORM_FM) then pitch
    else i16 (pitch + i16 (Z.shiftl (osc_range patch i) 7)) in
  let pitch := i16 (pitch + kbd_octave patch * kOctave) in
  let pitch := if i =? 1 then i16 (pitch + osc_option patch 1) else pitch in
  let pitch := i16 (pitch + Z.shiftr (peek dst (MOD_DST_VCO_1 + i) - 8192) 2) in
  i16 (pitch + Z.shiftr (peek dst MOD_DST_VCO_1_2_FINE - 8192) 4).

(** "Wrap pitch to a reasonable range." *)
Definition wrap_pitch (fuel : nat) (pitch : Z) : option Z :=
  pitch ← while fuel (fun p => p <? kLowestNote) (fun p => i16 (p + kOctave)) pitch;
  while fuel (fun p => kHighestNote <=? p) (fun p => i16 (p - kOctave)) pitch.

(** The transposition into the pitch table: [ref_pitch] and [num_shifts]. *)
Definition table_reference (fuel : nat) (pitch : Z) : option (Z * Z) :=
  while fuel (fun s => fst s <? 0)
        (fun s => (i16 (fst s + kOctave), u8 (snd s + 1)))
        (i16 (pitch - kPitchTableStart), 0).

(** "Extract the pitch increment from the pitch table" and "divide the pitch
    increment by the number of octaves we had to transpose". *)
Definition table_increment (fuel : nat) (pitch : Z) : option Z :=
  s ← table_reference fuel pitch;
  let increment :=
    u16 (lut_res_oscillator_increments (u16 (Z.shiftr (fst s) 1))) in
  Some (Z.shiftr increment (snd s)).

(** The phase increment of an assembled pitch: wrap, then table lookup. *)
Definition resolve_increment (fuel : nat) (pitch : Z) : option Z :=
  pitch ← wrap_pitch fuel pitch;
  table_increment fuel pitch.

(** One turn of the oscillator loop of [Voice::Control]. *)
Definition update_oscillator (fuel : nat) (patch : Patch)
    (dst destinations : list Z) (pitch_value i : Z) : option (list Call) :=
  let secondary :=
    if (i =? 0) && (osc_shape patch 0 =? WAVEFORM_FM)
    then [Osc1UpdateSecondaryParameter (osc_range patch i + 12)] else [] in
  pitch ← wrap_pitch fuel (assemble_pitch patch dst pitch_value i);
  increment ← table_increment fuel pitch;
  let pitch := Z.shiftr pitch 7 in
  Some (secondary ++
        if i =? 0 then
          [Osc1Update (peek destinations MOD_DST_PWM_1) pitch increment;
           SubOscUpdate 0 (pitch - 12) (Z.shiftr increment 1)]
        else [Osc2Update (peek destinations MOD_DST_PWM_2) pitch increment]).

(** [dead_ = dead_ && envelope_[i].dead()] over the envelopes. *)
Definition all_envelopes_dead (inp : ControlInputs) : Z :=
  fold_left (fun dead i =>
               if negb (dead =? 0) && envelope_dead inp (Z.of_nat i) then 1 else 0)
            (seq 0 kNumEnvelopes) 1.

(** [Voice::Control], reading the patch and the global modulation sources of
    the engine. *)
Definition Control (patch : Patch) (engine_sources : list Z)
    (inp : ControlInputs) (v : t) : option (t * list Call) :=
  let v := set_dead (all_envelopes_dead inp) v in
  let v := pitch_step v in
  let sources := update_sources inp (pitch_value_ v) (modulation_sources_ v) in
  acc ← resolve_destinations patch engine_sources sources (dst v)
        (modulation_destinations_ v);
  let dst := fst acc in
  let destinations := snd acc in
  osc1 ← update_oscillator loop_fuel patch dst destinations (pitch_value_ v) 0;
  osc2 ← update_oscillator loop_fuel patch dst destinations (pitch_value_ v) 1;
  Some (set_destinations dst destinations (set_modulation_sources sources v),
        map (fun i => EnvelopeRender (Z.of_nat i)) (seq 0 kNumEnvelopes)
        ++ osc1 ++ osc2).

(** [Voice::Audio] *)
Definition Audio (patch : Patch) (inp : AudioInputs) (v : t) : t * list Call :=
  if negb (dead_ v =? 0) then (set_signal 128 v, []) else
  let osc_2 := u8 (osc2_render inp) in
  let mix := u8 (osc1_render inp) in
  let balance := peek (modulation_destinations_ v) MOD_DST_MIX_BALANCE in
  let '(mix, v, calls) :=
    if osc_option patch 0 =? RING_MOD then
      (u8 (Op.SignedSignedMulScale8 (mix + 128) (osc_2 + 128) + 128), v, [])
    else if osc_option patch 0 =? XOR then
      (u8 (u8 (Z.lxor mix osc_2) + balance), v, [])
    else
      let mix := Op.Mix mix osc_2 balance in
      if osc_option patch 0 =? SYNC then
        let phase_msb := u8 (Z.shiftr (osc1_phase inp) 8) in
        (mix, set_osc1_phase_msb phase_msb v,
         if phase_msb <? osc1_phase_msb_ v then [Osc2ResetPhase] else [])
      else (mix, v, []) in
  let '(mix, calls) :=
    if negb (osc_shape patch 0 =? WAVEFORM_VOWEL) then
      let mix := Op.Mix mix (sub_osc_render inp)
                        (peek (modulation_destinations_ v) MOD_DST_MIX_SUB_OSC) in
      (Op.Mix mix (random_state_msb inp)
              (peek (modulation_destinations_ v) MOD_DST_MIX_NOISE),
       calls ++ [SubOscRender])
    else (mix, calls) in
  (set_signal mix v, [Osc2Render; Osc1Render] ++ calls).

End WithHeaders.
End Voice.

(** ** LFO *)

Module Lfo.

(** Modelled from the spec: class [Lfo] (lfo.h) is missing; the spec
    describes it as "a phase accumulator, a selected waveform, and a current
    increment". *)
Record t : Type := mk {
  phase_ : Z;
  phase_increment_ : Z;
  algorithm_ : Z
}.

(** Modelled from the spec: [Lfo::Reset] is missing; a reset forces the
    phase "back to zero". *)
Definition Reset (l : t) : t := mk 0 (phase_increment_ l) (algorithm_ l).

(** Modelled from the spec: [Lfo::Increment] is missing; the 16-bit phase
    accumulator advances by the current increment. *)
Definition Increment (l : t) : t :=
  mk (u16 (phase_ l + phase_increment_ l)) (phase_increment_ l) (algorithm_ l).

(** Modelled from the spec: [Lfo::Update] is missing; it selects the
    waveform and the increment and leaves the phase alone. *)
Definition Update (algorithm increment : Z) (l : t) : t :=
  mk (phase_ l) increment algorithm.

End Lfo.

(** ** Synthesis engine *)

Module SynthesisEngine.

(** The static members of [SynthesisEngine].  All the members of [Voice]
    are static, so the voices of [voice_] share one state. *)
Record t : Type := mk {
  patch_ : list Z;
  modulation_sources_ : list Z;
  oscillator_decimation_ : Z;
  lfo_ : list Lfo.t;
  nrpn_parameter_number_ : Z;
  num_lfo_reset_steps_ : Z;
  lfo_reset_counter_ : Z;
  lfo_to_reset_ : Z;
  voice_ : Voice.t
}.

Definition set_patch (x : list Z) (e : t) : t :=
  mk x (modulation_sources_ e) (oscillator_decimation_ e) (lfo_ e)
     (nrpn_parameter_number_ e) (num_lfo_reset_steps_ e)
     (lfo_reset_counter_ e) (lfo_to_reset_ e) (voice_ e).
Definition set_modulation_sources (x : list Z) (e : t) : t :=
  mk (patch_ e) x (oscillator_decimation_ e) (lfo_ e)
     (nrpn_parameter_number_ e) (num_lfo_reset_steps_ e)
     (lfo_reset_counter_ e) (lfo_to_reset_ e) (voice_ e).
Definition set_oscillator_decimation (x : Z) (e : t) : t :=
  mk (patch_ e) (modulation_sources_ e) x (lfo_ e)
     (nrpn_parameter_number_ e) (num_lfo_reset_steps_ e)
     (lfo_reset_counter_ e) (lfo_to_reset_ e) (voice_ e).
Definition set_lfo (x : list Lfo.t) (e : t) : t :=
  mk (patch_ e) (modulation_sources_ e) (oscillator_decimation_ e) x
     (nrpn_parameter_number_ e) (num_lfo_reset_steps_ e)
     (lfo_reset_counter_ e) (lfo_to_reset_ e) (voice_ e).
Definition set_nrpn_parameter_number (x : Z) (e : t) : t :=
  mk (patch_ e) (modulation_sources_ e) (oscillator_decimation_ e) (lfo_ e)
     x (num_lfo_reset_steps_ e) (lfo_reset_counter_ e) (lfo_to_reset_ e)
     (voice_ e).
Definition set_lfo_reset (steps to_reset : Z) (e : t) : t :=
  mk (patch_ e) (modulation_sources_ e) (oscillator_decimation_ e) (lfo_ e)
     (nrpn_parameter_number_ e) steps (lfo_reset_counter_ e) to_reset
     (voice_ e).
Definition set_lfo_reset_counter (x : Z) (e : t) : t :=
  mk (patch_ e) (modulation_sources_ e) (oscillator_decimation_ e) (lfo_ e)
     (nrpn_parameter_number_ e) (num_lfo_reset_steps_ e) x (lfo_to_reset_ e)
     (voice_ e).
Definition set_voice (x : Voice.t) (e : t) : t :=
  mk (patch_ e) (modulation_sources_ e) (oscillator_decimation_ e) (lfo_ e)
     (nrpn_parameter_number_ e) (num_lfo_reset_steps_ e)
     (lfo_reset_counter_ e) (lfo_to_reset_ e) x.

(** What the collaborators answer during one [SynthesisEngine::Control]:
    [lfo_[i].Render()], [Random::state_msb()], the result of
    [controller_.Control()] (nonzero when the sequencer advanced one step),
    [controller_.estimated_beat_duration()],
    [patch_.sequence_step(controller_.step())],
    [controller_.has_arpeggiator_note()], and the envelopes of each voice. *)
Record ControlInputs : Type := {
  lfo_render : Z -> Z;
  random_state_msb : Z;
  controller_control : bool;
  estimated_beat_duration : Z;
  sequence_step : Z;
  has_arpeggiator_note : bool;
  voice_inputs : nat -> Voice.ControlInputs
}.

Section WithHeaders.
Context `{Headers} `{Resources}.

(** [SynthesisEngine::UpdateOscillatorAlgorithms] *)
Definition UpdateOscillatorAlgorithms (e : t) : list Call :=
  [Osc1SetupAlgorithm (osc_shape (patch_ e) 0);
   Osc2SetupAlgorithm (osc_shape (patch_ e) 1);
   SubOscSetupAlgorithm (mix_sub_osc_shape (patch_ e))].

(** The increment of a tempo-synchronised LFO: 16-bit unsigned arithmetic
    for the divisor, a 32-bit quotient stored in a uint16_t.  A zero divisor,
    undefined in C++, is read as Z's [x / 0 = 0]. *)
Definition synced_increment (beat rate : Z) : Z :=
  u16 (65536 / (u16 (u16 beat * (1 + rate)) / 4)).

(** One turn of the loop of [UpdateModulationIncrements], for LFO [i]. *)
Definition update_lfo (beat : Z) (acc : t * list Call) (i : nat) : t * list Call :=
  let '(e, calls) := acc in
  let p := patch_ e in
  let rate := lfo_rate p (Z.of_nat i) in
  let '(increment, e) :=
    if rate <? 16 then
      (synced_increment beat rate,
       set_lfo_reset
         (u8 (Op.UnsignedUnsignedMul
                (if num_lfo_reset_steps_ e =? 0 then 1 else num_lfo_reset_steps_ e)
                (1 + rate)))
         (u8 (Z.lor (lfo_to_reset_ e) (Z.shiftl 1 (Z.of_nat i)))) e)
    else (u16 (lut_res_lfo_increments (u8 (rate - 16))), e) in
  (set_lfo (alter (Lfo.Update (lfo_wave p (Z.of_nat i)) increment) i (lfo_ e)) e,
   calls ++
   map (fun j => EnvelopeUpdate (Z.of_nat j) (Z.of_nat i)
                   (env_attack p (Z.of_nat i)) (env_decay p (Z.of_nat i))
                   (env_sustain p (Z.of_nat i)) (env_release p (Z.of_nat i)))
       (seq 0 kNumVoices)).

(** [SynthesisEngine::UpdateModulationIncrements]; [beat] is what
    [controller_.estimated_beat_duration()] answers. *)
Definition UpdateModulationIncrements (beat : Z) (e : t) : t * list Call :=
  fold_left (update_lfo beat) (seq 0 kNumLfos) (set_lfo_reset 0 0 e, []).

(** What [controller_.estimated_beat_duration()] answers during one
    [SetParameter]: before and after [controller_.SetTempo]. *)
Record SetParameterInputs : Type := {
  beat_duration : Z;
  beat_duration_after_SetTempo : Z
}.

(** The [switch] at the end of [SetParameter]: "a copy of those parameters
    is stored by the note dispatcher/arpeggiator, so any parameter change
    must be forwarded to it". *)
Definition forward_to_controller (inp : SetParameterInputs)
    (parameter_index parameter_value : Z) (e : t) : t * list Call :=
  if parameter_index =? PRM_ARP_TEMPO then
    let '(e, calls) :=
      UpdateModulationIncrements (beat_duration_after_SetTempo inp) e in
    (e, ControllerSetTempo parameter_value :: calls)
  else if parameter_index =? PRM_ARP_OCTAVE then
    (e, [ControllerSetOctaves parameter_value])
  else if parameter_index =? PRM_ARP_PATTERN then
    (e, [ControllerSetPattern parameter_value])
  else if parameter_index =? PRM_ARP_SWING then
    (e, [ControllerSetSwing parameter_value])
  else if parameter_index =? PRM_ARP_PATTERN_SIZE then
    (e, [Controller_set_pattern_size parameter_value])
  else (e, []).

(** [SynthesisEngine::SetParameter]: the write through
    [base[parameter_index + 1]] is undefined outside the patch. *)
Definition SetParameter (inp : SetParameterInputs)
    (parameter_index parameter_value : Z) (e : t) : option (t * list Call) :=
  let parameter_index := u8 parameter_index in
  let parameter_value := u8 parameter_value in
  patch ← store (patch_ e) (parameter_index + 1) parameter_value;
  let e := set_patch patch e in
  let '(e, calls1) :=
    if (PRM_ENV_ATTACK_1 <=? parameter_index) && (parameter_index <=? PRM_LFO_RATE_2)
    then UpdateModulationIncrements (beat_duration inp) e else (e, []) in
  let calls2 :=
    if (parameter_index <=? PRM_OSC_SHAPE_2) || (parameter_index =? PRM_MIX_SUB_OSC_SHAPE)
    then UpdateOscillatorAlgorithms e else [] in
  let '(e, calls3) := forward_to_controller inp parameter_index parameter_value e in
  Some (e, calls1 ++ calls2 ++ calls3).

(** [SynthesisEngine::ControlChange] *)
Definition ControlChange (inp : SetParameterInputs) (channel controller value : Z)
    (e : t) : option (t * list Call) :=
  let controller := u8 controller in
  let value := u8 value in
  if controller =? kModulationWheelMsb then
    Some (set_modulation_sources
            (poke (modulation_sources_ e) MOD_SRC_WHEEL (u8 (Z.shiftl value 1))) e, [])
  else if controller =? kDataEntryMsb then
    if nrpn_parameter_number_ e <? sizeof_Patch - 1
    then SetParameter inp (nrpn_parameter_number_ e) value e
    else Some (e, [])
  else if controller =? kPortamentoTimeMsb then
    Some (set_patch (poke (patch_ e) offsetof_kbd_portamento value) e, [])
  else if controller =? kRelease then
    Some (set_patch (poke (patch_ e) (offsetof_env_release + 1) value) e, [])
  else if controller =? kAttack then
    Some (set_patch (poke (patch_ e) (offsetof_env_attack + 1) value) e, [])
  else if controller =? kHarmonicIntensity then
    Some (set_patch (poke (patch_ e) offsetof_filter_resonance value) e, [])
  else if controller =? kBrightness then
    Some (set_patch (poke (patch_ e) offsetof_filter_cutoff value) e, [])
  else if controller =? kNrpnMsb then
    Some (set_nrpn_parameter_number value e, [])
  else Some (e, []).

(** [SynthesisEngine::NoteOn], without the part under HAS_EASTER_EGG;
    [controller_active] is what [controller_.active()] answers. *)
Definition NoteOn (controller_active : bool) (channel note velocity : Z) (e : t)
    : t * list Call :=
  ((if negb controller_active
    then set_lfo_reset_counter (u8 (num_lfo_reset_steps_ e - 1)) e else e),
   [ControllerNoteOn (u8 note) (u8 velocity)]).

(** [SynthesisEngine::NoteOff] *)
Definition NoteOff (channel note velocity : Z) (e : t) : t * list Call :=
  (e, [ControllerNoteOff (u8 note)]).

(** [SynthesisEngine::CheckChannel] *)
Definition CheckChannel (channel : Z) (e : t) : bool :=
  (kbd_midi_channel (patch_ e) =? 0)
  || (kbd_midi_channel (patch_ e) =? u8 channel + 1).

(** [SynthesisEngine::PitchBend] *)
Definition PitchBend (channel pitch_bend : Z) (e : t) : t :=
  set_modulation_sources
    (poke (modulation_sources_ e) MOD_SRC_PITCH_BEND
          (u8 (Op.ShiftRight6 pitch_bend))) e.

(** [SynthesisEngine::ResetAllControllers] *)
Definition ResetAllControllers (channel : Z) (e : t) : t :=
  set_modulation_sources
    (poke (poke (modulation_sources_ e) MOD_SRC_PITCH_BEND 128) MOD_SRC_WHEEL 0) e.

(** [SynthesisEngine::OmniModeOff] *)
Definition OmniModeOff (channel : Z) (e : t) : t :=
  set_patch (poke (patch_ e) offsetof_kbd_midi_channel (u8 (u8 channel + 1))) e.

(** [SynthesisEngine::OmniModeOn] *)
Definition OmniModeOn (channel : Z) (e : t) : t :=
  set_patch (poke (patch_ e) offsetof_kbd_midi_channel 0) e.

(** [SynthesisEngine::Reset] *)
Definition Reset (e : t) : t * list Call :=
  let n := Z.to_nat kNumGlobalModulationSources in
  let sources := replicate n 0 ++ drop n (modulation_sources_ e) in
  let e := set_modulation_sources (poke sources MOD_SRC_PITCH_BEND 128) e in
  (fold_left (fun e i => set_lfo (alter Lfo.Reset i (lfo_ e)) e) (seq 0 kNumLfos) e,
   [ControllerReset; ControllerAllSoundOff]).

(** The head of [SynthesisEngine::Control]: the LFOs advance and are
    rendered into the global sources. *)
Definition render_lfos (inp : ControlInputs) (e : t) : t :=
  fold_left
    (fun e i =>
       let e := set_lfo (alter Lfo.Increment i (lfo_ e)) e in
       set_modulation_sources
         (poke (modulation_sources_ e) (MOD_SRC_LFO_1 + Z.of_nat i)
               (u8 (lfo_render inp (Z.of_nat i)))) e)
    (seq 0 kNumLfos) e.

(** [if (lfo_to_reset_ & _BV(i)) lfo_[i].Reset()] over the LFOs. *)
Definition reset_lfos (e : t) : t :=
  fold_left
    (fun e i =>
       if negb (Z.land (lfo_to_reset_ e) (Z.shiftl 1 (Z.of_nat i)) =? 0)
       then set_lfo (alter Lfo.Reset i (lfo_ e)) e else e)
    (seq 0 kNumLfos) e.

(** What [SynthesisEngine::Control] does when the sequencer advanced. *)
Definition step_advanced (beat : Z) (e : t) : t * list Call :=
  let e := set_lfo_reset_counter (u8 (lfo_reset_counter_ e + 1)) e in
  if lfo_reset_counter_ e =? num_lfo_reset_steps_ e then
    let '(e, calls) := UpdateModulationIncrements beat e in
    (set_lfo_reset_counter 0 (reset_lfos e), calls)
  else (e, []).

(** [voice_[i].Control()] for every voice, on the shared voice state. *)
Fixpoint control_voices (patch : Patch) (sources : list Z)
    (inputs : nat -> Voice.ControlInputs) (voices : list nat) (v : Voice.t)
    : option (Voice.t * list Call) :=
  match voices with
  | [] => Some (v, [])
  | j :: voices =>
      r ← Voice.Control patch sources (inputs j) v;
      r' ← control_voices patch sources inputs voices (fst r);
      Some (fst r', snd r ++ snd r')
  end.

(** The engine part of [SynthesisEngine::Control], before the voices. *)
Definition control_engine (inp : ControlInputs) (e : t) : t * list Call :=
  let e := render_lfos inp e in
  let e := set_modulation_sources
             (poke (modulation_sources_ e) MOD_SRC_RANDOM (u8 (random_state_msb inp))) e in
  let '(e, calls) :=
    if controller_control inp then step_advanced (estimated_beat_duration inp) e
    else (e, []) in
  let sources := poke (modulation_sources_ e) MOD_SRC_SEQ (u8 (sequence_step inp)) in
  let sources := poke sources MOD_SRC_STEP (if has_arpeggiator_note inp then 255 else 0) in
  (set_modulation_sources sources e,
   map (fun i => LfoRender (Z.of_nat i)) (seq 0 kNumLfos) ++ ControllerControl :: calls).

(** [SynthesisEngine::Control] *)
Definition Control (inp : ControlInputs) (e : t) : option (t * list Call) :=
  let '(e, calls) := control_engine inp e in
  r ← control_voices (patch_ e) (modulation_sources_ e) (voice_inputs inp)
        (seq 0 kNumVoices) (voice_ e);
  Some (set_voice (fst r) e, calls ++ snd r).

(** [SynthesisEngine::Audio]; [inputs j] is what the oscillators answer to
    voice [j]. *)
Definition Audio (inputs : nat -> Voice.AudioInputs) (e : t) : t * list Call :=
  let e := set_oscillator_decimation
             (Z.land (u8 (oscillator_decimation_ e + 1)) 3) e in
  let tick := if oscillator_decimation_ e =? 0 then [RandomUpdate] else [] in
  let '(v, calls) :=
    fold_left (fun acc j =>
                 let r := Voice.Audio (patch_ e) (inputs j) (fst acc) in
                 (fst r, snd acc ++ snd r))
              (seq 0 kNumVoices) (voice_ e, []) in
  (set_voice v e, tick ++ ControllerAudio :: calls).

(** What [SynthesisEngine::Control] keeps between two resets of the LFOs:
    the patch [p], the cadence [steps], the LFOs to reset [mask], and the two
    LFOs. *)
Definition between_resets (p : list Z) (steps mask : Z) (e : t) : Prop :=
  patch_ e = p /\ num_lfo_reset_steps_ e = steps /\ lfo_to_reset_ e = mask /\
  length (lfo_ e) = 2%nat.

(** [ControlChange] over a sequence of messages (channel, controller,
    value), with the calls made along the way. *)
Fixpoint run_control_changes (inp : SetParameterInputs)
    (messages : list (Z * Z * Z)) (e : t) : option (t * list Call) :=
  match messages with
  | [] => Some (e, [])
  | (channel, controller, value) :: messages =>
      r ← ControlChange inp channel controller value e;
      r' ← run_control_changes inp messages (fst r);
      Some (fst r', snd r ++ snd r')
  end.

(** The engine part of [SynthesisEngine::Control] over successive ticks. *)
Definition run_control_engine (ticks : list ControlInputs) (e : t) : t :=
  fold_left (fun e inp => fst (control_engine inp e)) ticks e.

(** The number of ticks at which the sequencer advanced one step. *)
Definition step_notifications (ticks : list ControlInputs) : Z :=
  Z.of_nat (length (List.filter controller_control ticks)).

End WithHeaders.
End SynthesisEngine.

(** ** Patch storage

    A shallow embedding of [hardware/shruti/patch.cc]: the serialisation of
    a patch into a buffer, the undo buffer, the EEPROM slots and the SysEx
    transfer.  The patch is the same list of bytes as above. *)

(** The constants of patch.h that patch.cc names and synthesis_engine.cc
    does not. *)
Class StorageHeaders := {
  offsetof_osc_algorithm : Z;
  offsetof_name : Z;
  kPatchNameSize : Z;
  kSerializedPatchSize : Z
}.

Module Storage.

(** Modelled from the spec: [ShiftLeft4] of hardware/utils/op.h is missing;
    the spec speaks of "bit-packed nibble storage for matrix entries", and
    patch.cc sends bytes "in high-low nibblized form": a shift left by four
    inside a uint8_t. *)
Definition ShiftLeft4 (a : Z) : Z := u8 (Z.shiftl (u8 a) 4).

(** Modelled from the spec: [ShiftRight4] of op.h is missing; the high
    nibble of a uint8_t. *)
Definition ShiftRight4 (a : Z) : Z := Z.shiftr (u8 a) 4.

(** [static const prog_char sysex_header[]] *)
Definition sysex_header : list Z := [240; 0; 32; 119; 0; 1; 1; 0].

(** The values of [sysex_reception_state_] named by patch.cc and
    shruti.cc. *)
Inductive SysExReceptionState : Type :=
| RECEIVING_HEADER
| RECEIVING_DATA
| RECEIVING_FOOTER
| RECEPTION_OK
| RECEPTION_ERROR.

(** A patch together with the static members of [Patch]. *)
Record t : Type := mk {
  patch : list Z;
  load_save_buffer_ : list Z;
  undo_buffer_ : list Z;
  sysex_bytes_received_ : Z;
  sysex_reception_checksum_ : Z;
  sysex_reception_state_ : SysExReceptionState
}.

Definition set_patch (x : list Z) (s : t) : t :=
  mk x (load_save_buffer_ s) (undo_buffer_ s) (sysex_bytes_received_ s)
     (sysex_reception_checksum_ s) (sysex_reception_state_ s).
Definition set_load_save_buffer (x : list Z) (s : t) : t :=
  mk (patch s) x (undo_buffer_ s) (sysex_bytes_received_ s)
     (sysex_reception_checksum_ s) (sysex_reception_state_ s).
Definition set_undo_buffer (x : list Z) (s : t) : t :=
  mk (patch s) (load_save_buffer_ s) x (sysex_bytes_received_ s)
     (sysex_reception_checksum_ s) (sysex_reception_state_ s).
Definition set_reception (received checksum : Z) (state : SysExReceptionState)
    (s : t) : t :=
  mk (patch s) (load_save_buffer_ s) (undo_buffer_ s) received checksum state.


Section WithHeaders.
Context `{Headers} `{StorageHeaders}.

(** [Patch::Pack]: the 28 bytes from [osc_algorithm] on, the persisted rows
    of the matrix on two bytes each, the sequence and the name. *)
Definition Pack (p : Patch) (patch_buffer : list Z) : list Z :=
  let b :=
    fold_left (fun b i => poke b i (peek p (offsetof_osc_algorithm + i)))
              (seqZ 0 28) patch_buffer in
  let b :=
    fold_left
      (fun b i =>
         let b := poke b (2 * i + 28)
                    (u8 (Z.lor (modulation_source p i)
                               (ShiftLeft4 (modulation_destination p i)))) in
         poke b (2 * i + 29) (u8 (modulation_amount p i)))
      (seqZ 0 kSavedModulationMatrixSize) b in
  let b :=
    fold_left
      (fun b i => poke b (2 * kSavedModulationMatrixSize + 28 + i)
                    (peek p (offsetof_sequence + i)))
      (seqZ 0 8) b in
  fold_left
    (fun b i => poke b (2 * kSavedModulationMatrixSize + 28 + 8 + i)
                  (peek p (offsetof_name + i)))
    (seqZ 0 kPatchNameSize) b.

(** [Patch::CheckBuffer], on the buffer it reads. *)
Definition CheckBuffer (load_save_buffer : list Z) : Z :=
  if existsb (fun i => 128 <? peek load_save_buffer i) (seqZ 6 20) then 0 else
  let name_offset := u8 (2 * kSavedModulationMatrixSize + 28 + 8) in
  if existsb (fun i => 128 <? peek load_save_buffer i)
       (seqZ name_offset kPatchNameSize)
  then 0 else 1.

(** [Patch::Unpack]; the name is read on 8 bytes. *)
Definition Unpack (patch_buffer : list Z) (p : Patch) : Patch :=
  let p :=
    fold_left (fun p i => poke p (offsetof_osc_algorithm + i) (peek patch_buffer i))
              (seqZ 0 28) p in
  let p :=
    fold_left
      (fun p i =>
         let p := poke p (offsetof_modulation_matrix + 3 * i)
                    (Z.land (peek patch_buffer (2 * i + 28)) 15) in
         let p := poke p (offsetof_modulation_matrix + 3 * i + 1)
                    (ShiftRight4 (peek patch_buffer (2 * i + 28))) in
         poke p (offsetof_modulation_matrix + 3 * i + 2)
              (peek patch_buffer (2 * i + 29)))
      (seqZ 0 kSavedModulationMatrixSize) p in
  let p :=
    fold_left
      (fun p i => poke p (offsetof_sequence + i)
                    (peek patch_buffer (i + 2 * kSavedModulationMatrixSize + 28)))
      (seqZ 0 8) p in
  fold_left
    (fun p i => poke p (offsetof_name + i)
                  (peek patch_buffer (i + 2 * kSavedModulationMatrixSize + 28 + 8)))
    (seqZ 0 8) p.


(** [Patch::EepromLoad]; ['?'] is the byte 63. *)
Definition EepromLoad (slot : Z) (eeprom : Z -> Z) (s : t) : t :=
  let offset := i16 (u8 slot * kSerializedPatchSize) in
  let b :=
    fold_left (fun b i => poke b i (u8 (eeprom (i16 (i + offset)))))
              (seqZ 0 kSerializedPatchSize) (load_save_buffer_ s) in
  let s := set_load_save_buffer b s in
  if negb (CheckBuffer b =? 0) then set_patch (Unpack b (patch s)) s
  else set_patch (poke (patch s) offsetof_name 63) s.

(** The "sum of all patch data bytes" of [SysExSend], in a uint8_t. *)
Definition checksum (b : list Z) : Z :=
  fold_left (fun c i => u8 (c + peek b i)) (seqZ 0 kSerializedPatchSize) 0.

(** [Patch::SysExSend], with the bytes written to the MIDI output. *)
Definition SysExSend (s : t) : t * list Z :=
  let b := Pack (patch s) (load_save_buffer_ s) in
  (set_load_save_buffer b s,
   sysex_header
   ++ flat_map (fun i => [ShiftRight4 (peek b i); Z.land (peek b i) 15])
               (seqZ 0 kSerializedPatchSize)
   ++ [ShiftRight4 (checksum b); Z.land (checksum b) 15]
   ++ [247]).

(** The [RECEIVING_DATA] case of [SysExReceive]: a nibble goes into the
    byte [sysex_bytes_received_ >> 1] of the buffer, an index that comes
    from the stream. *)
Definition receive_data (sysex_byte : Z) (s : t) : option t :=
  let i := Z.shiftr (sysex_bytes_received_ s) 1 in
  s ← (if negb (Z.land (sysex_bytes_received_ s) 1 =? 0) then
         x ← load (load_save_buffer_ s) i;
         let x := u8 (Z.lor x (Z.land sysex_byte 15)) in
         b ← store (load_save_buffer_ s) i x;
         let s := set_load_save_buffer b s in
         Some (if i <? kSerializedPatchSize
               then set_reception (sysex_bytes_received_ s)
                      (u8 (sysex_reception_checksum_ s + x))
                      (sysex_reception_state_ s) s
               else s)
       else
         b ← store (load_save_buffer_ s) i (ShiftLeft4 sysex_byte);
         Some (set_load_save_buffer b s));
  let received := u8 (sysex_bytes_received_ s + 1) in
  Some (set_reception received (sysex_reception_checksum_ s)
          (if (kSerializedPatchSize + 1) * 2 <=? received
           then RECEIVING_FOOTER else RECEIVING_DATA) s).

(** [Patch::SysExReceive] *)
Definition SysExReceive (sysex_byte : Z) (s : t) : option t :=
  let sysex_byte := u8 sysex_byte in
  let s := if sysex_byte =? 240 then set_reception 0 0 RECEIVING_HEADER s else s in
  match sysex_reception_state_ s with
  | RECEIVING_HEADER =>
      h ← load sysex_header (sysex_bytes_received_ s);
      if h =? sysex_byte then
        let received := u8 (sysex_bytes_received_ s + 1) in
        if Z.of_nat (length sysex_header) <=? received
        then Some (set_reception 0 (sysex_reception_checksum_ s) RECEIVING_DATA s)
        else Some (set_reception received (sysex_reception_checksum_ s)
                     RECEIVING_HEADER s)
      else Some (set_reception (sysex_bytes_received_ s)
                   (sysex_reception_checksum_ s) RECEIVING_FOOTER s)
  | RECEIVING_DATA => receive_data sysex_byte s
  | RECEIVING_FOOTER =>
      if (sysex_byte =? 247)
         && (sysex_reception_checksum_ s
             =? peek (load_save_buffer_ s) kSerializedPatchSize)
         && negb (CheckBuffer (load_save_buffer_ s) =? 0)
      then Some (set_reception (sysex_bytes_received_ s)
                   (sysex_reception_checksum_ s) RECEPTION_OK
                   (set_patch (Unpack (load_save_buffer_ s) (patch s)) s))
      else Some (set_reception (sysex_bytes_received_ s)
                   (sysex_reception_checksum_ s) RECEPTION_ERROR s)
  | RECEPTION_OK | RECEPTION_ERROR => Some s
  end.

(** [Patch::Backup] *)
Definition Backup (s : t) : t :=
  set_undo_buffer (Pack (patch s) (undo_buffer_ s)) s.

(** [Patch::Restore] *)
Definition Restore (s : t) : t :=
  set_patch (Unpack (undo_buffer_ s) (patch s)) s.

(** [SynthesisEngine::SysExStart], [SysExByte] and [SysExEnd] hand the
    bytes of a SysEx message to the patch: a stream of bytes through
    [SysExReceive]. *)
Fixpoint receive (bytes : list Z) (s : t) : option t :=
  match bytes with
  | [] => Some s
  | byte :: bytes => s ← SysExReceive byte s; receive bytes s
  end.

(** Bytes "in high-low nibblized form". *)
Definition nibbles (bytes : list Z) : list Z :=
  flat_map (fun x => [ShiftRight4 x; Z.land x 15]) bytes.

(** The sum of bytes in a uint8_t. *)
Definition sum_bytes (bytes : list Z) : Z :=
  fold_left (fun c x => u8 (c + x)) bytes 0.

(** What [SysExReceive] keeps from one byte to the next: the buffer has
    its declared size [kSerializedPatchSize + 1], and the counter of
    received bytes is inside the header or inside the buffer. *)
Definition receiving (s : t) : Prop :=
  Z.of_nat (length (load_save_buffer_ s)) = kSerializedPatchSize + 1 /\
  (sysex_reception_state_ s = RECEIVING_HEADER ->
   0 <= sysex_bytes_received_ s < Z.of_nat (length sysex_header)) /\
  (sysex_reception_state_ s = RECEIVING_DATA ->
   0 <= sysex_bytes_received_ s < (kSerializedPatchSize + 1) * 2).

(** The offsets of the patch that [Pack] reads and [Unpack] writes, with
    the name on [kPatchNameSize] bytes. *)
Definition saved (j : Z) : bool :=
  ((offsetof_osc_algorithm <=? j) && (j <? offsetof_osc_algorithm + 28))
  || ((offsetof_modulation_matrix <=? j)
      && (j <? offsetof_modulation_matrix + 3 * kSavedModulationMatrixSize))
  || ((offsetof_sequence <=? j) && (j <? offsetof_sequence + 8))
  || ((offsetof_name <=? j) && (j <? offsetof_name + kPatchNameSize)).

(** The layout the offsets describe: the members in the order of
    [empty_patch], inside a patch of [size] bytes, and a serialised patch
    that fits its buffers and the uint8_t counters of the loops. *)
Definition layout (size : Z) : Prop :=
  0 <= offsetof_osc_algorithm /\
  offsetof_osc_algorithm + 28 <= offsetof_modulation_matrix /\
  0 <= kSavedModulationMatrixSize <= kModulationMatrixSize /\
  offsetof_modulation_matrix + 3 * kModulationMatrixSize <= offsetof_sequence /\
  offsetof_sequence + 8 <= offsetof_name /\
  kPatchNameSize = 8 /\
  offsetof_name + kPatchNameSize <= size /\
  2 * kSavedModulationMatrixSize + 28 + 8 + kPatchNameSize <= kSerializedPatchSize /\
  kSerializedPatchSize <= 126.

End WithHeaders.
End Storage.

(** ** Patch editor

    A shallow embedding of [hardware/shruti/editor.cc]: the navigation
    between the pages of the editor and the edition of a parameter with the
    knobs and the increment switches, and the load/save page.  The engine,
    the patch storage and the display are collaborators: the calls made to
    them are logged, and what [engine.GetParameter] answers is an input.
    The name of the patch is edited in place, so the patch is threaded
    through the functions that touch it. *)

(** The constants of editor.h and of the resources that the modelled part
    of editor.cc names. *)
Class EditorHeaders := {
  UNIT_RAW_UINT8 : Z;
  UNIT_INT8 : Z;
  PRM_MOD_ROW : Z;
  PRM_FILTER_CUTOFF : Z;
  PRM_FILTER_ENV : Z;
  kLcdNoCursor : Z;
  kNumPages : Z;
  kEepromSize : Z;
  STR_RES_TOUCH_A_KNOB_TO : Z
}.

Module Editor.

(** [enum ParameterGroup]: the six groups of [last_visited_page_] and of
    the page table. *)
Inductive ParameterGroup : Type :=
| GROUP_OSC
| GROUP_FILTER
| GROUP_MOD
| GROUP_PLAY
| GROUP_LOAD_SAVE
| GROUP_PERFORMANCE.

(** The values of [action_]. *)
Inductive Action : Type :=
| ACTION_LOAD
| ACTION_EXIT
| ACTION_SAVE.

(** The values of [current_display_type_]. *)
Inductive PageType : Type :=
| PAGE_TYPE_DETAILS
| PAGE_TYPE_SUMMARY.

(** The user interfaces of [ui_handler_]. *)
Inductive UiType : Type :=
| PARAMETER_EDITOR
| STEP_SEQUENCER
| LOAD_SAVE.

#[global] Instance ParameterGroup_eq_dec : EqDecision ParameterGroup.
Proof. solve_decision. Defined.
#[global] Instance Action_eq_dec : EqDecision Action.
Proof. solve_decision. Defined.

(** A page of the editor, without its name (a string resource). *)
Record PageDefinition : Type := {
  group : ParameterGroup;
  ui_type : UiType;
  first_parameter_index : Z
}.

(** [Editor::page_definition_].  [Editor::Init] checks that the id of the
    entry [i] is [i]: a page is its index in this table. *)
Definition page_definition_ : list PageDefinition :=
  [ {| group := GROUP_OSC; ui_type := PARAMETER_EDITOR; first_parameter_index := 0 |};
    {| group := GROUP_OSC; ui_type := PARAMETER_EDITOR; first_parameter_index := 4 |};
    {| group := GROUP_OSC; ui_type := PARAMETER_EDITOR; first_parameter_index := 8 |};
    {| group := GROUP_FILTER; ui_type := PARAMETER_EDITOR; first_parameter_index := 12 |};
    {| group := GROUP_MOD; ui_type := PARAMETER_EDITOR; first_parameter_index := 16 |};
    {| group := GROUP_MOD; ui_type := PARAMETER_EDITOR; first_parameter_index := 20 |};
    {| group := GROUP_MOD; ui_type := PARAMETER_EDITOR; first_parameter_index := 24 |};
    {| group := GROUP_MOD; ui_type := PARAMETER_EDITOR; first_parameter_index := 28 |};
    {| group := GROUP_PLAY; ui_type := PARAMETER_EDITOR; first_parameter_index := 32 |};
    {| group := GROUP_PLAY; ui_type := STEP_SEQUENCER; first_parameter_index := 0 |};
    {| group := GROUP_PLAY; ui_type := PARAMETER_EDITOR; first_parameter_index := 36 |};
    {| group := GROUP_LOAD_SAVE; ui_type := LOAD_SAVE; first_parameter_index := 0 |};
    {| group := GROUP_PERFORMANCE; ui_type := PARAMETER_EDITOR;
       first_parameter_index := 0 |} ].

Definition PAGE_OSC_OSC_1 : Z := 0.
Definition PAGE_FILTER_FILTER : Z := 3.
Definition PAGE_MOD_ENV_1 : Z := 4.
Definition PAGE_MOD_MATRIX : Z := 7.
Definition PAGE_PLAY_ARP : Z := 8.
Definition PAGE_PLAY_KBD : Z := 10.
Definition PAGE_LOAD_SAVE : Z := 11.
Definition PAGE_PERFORMANCE : Z := 12.

(** [struct ParameterDefinition], as the six bytes of an entry of
    [raw_parameter_definition]. *)
Record ParameterDefinition : Type := {
  id : Z;
  min_value : Z;
  max_value : Z;
  unit : Z;
  short_name : Z;
  long_name : Z
}.

(** [struct ParameterAssignment] *)
Record ParameterAssignment : Type := {
  assigned_id : Z;
  assigned_subpage : Z
}.

(** The static members of [Editor] that the modelled functions use. *)
Record t : Type := mk {
  current_display_type_ : PageType;
  current_page_ : Z;
  last_visited_page_ : ParameterGroup -> Z;
  current_controller_ : Z;
  last_visited_subpage_ : Z;
  cursor_ : Z;
  subpage_ : Z;
  action_ : Action;
  current_patch_number_ : Z;
  previous_patch_number_ : Z;
  test_note_playing_ : Z;
  assign_in_progress_ : Z;
  assigned_parameters_ : list ParameterAssignment;
  parameter_to_assign_ : ParameterAssignment
}.

(** The calls to the engine, to the patch and to the display
    ([DisplaySplashScreen] only prints). *)
Inductive Call : Type :=
| EngineNoteOn (channel note velocity : Z)
| EngineSetParameter (index value : Z)
| EngineTouchPatch
| PatchEepromSave (slot : Z)
| PatchEepromLoad (slot : Z)
| PatchSysExSend
| PatchBackup
| PatchRestore
| DisplaySetCursorPosition (position : Z)
| DisplaySplashScreen (first_line : Z).

Section WithHeaders.
Context `{Headers} `{StorageHeaders} `{EditorHeaders}.

(** The static members at power-on.  [current_display_type_] and [action_]
    are zero then; which enumerators that is, editor.h says. *)
Definition initial (display_type : PageType) (action : Action) : t :=
  mk display_type PAGE_FILTER_FILTER
     (fun g => match g with
               | GROUP_OSC => PAGE_OSC_OSC_1
               | GROUP_FILTER => PAGE_FILTER_FILTER
               | GROUP_MOD => PAGE_MOD_ENV_1
               | GROUP_PLAY => PAGE_PLAY_ARP
               | GROUP_LOAD_SAVE => PAGE_LOAD_SAVE
               | GROUP_PERFORMANCE => PAGE_PERFORMANCE
               end)
     0 0 0 0 action 0 0 0 0
     [ {| assigned_id := 1; assigned_subpage := 0 |};
       {| assigned_id := PRM_FILTER_CUTOFF; assigned_subpage := 0 |};
       {| assigned_id := PRM_FILTER_ENV; assigned_subpage := 0 |};
       {| assigned_id := 25; assigned_subpage := 0 |} ]
     {| assigned_id := 0; assigned_subpage := 0 |}.

(** [page_definition_[page].group]: a read outside the table is
    undefined. *)
Definition page_group (page : Z) : option ParameterGroup :=
  if page <? 0 then None else group <$> page_definition_ !! Z.to_nat page.

(** [Editor::EnterLoadSaveMode] *)
Definition EnterLoadSaveMode (ed : t) : t * list Call :=
  let calls :=
    if (current_page_ ed =? PAGE_LOAD_SAVE)
       && bool_decide (action_ ed = ACTION_SAVE)
    then [PatchEepromSave (current_patch_number_ ed); PatchSysExSend]
    else [] in
  (mk (current_display_type_ ed) PAGE_LOAD_SAVE (last_visited_page_ ed)
      (current_controller_ ed) (last_visited_subpage_ ed) (cursor_ ed)
      (subpage_ ed) ACTION_EXIT (current_patch_number_ ed)
      (current_patch_number_ ed) (test_note_playing_ ed)
      (assign_in_progress_ ed) (assigned_parameters_ ed)
      (parameter_to_assign_ ed),
   calls ++ [PatchBackup]).

(** The loop of [ToggleGroup] over [pages]: the first page of the group;
    [page] is left alone when there is none. *)
Fixpoint first_page_of (group : ParameterGroup) (pages : list Z) (page : Z)
    : option Z :=
  match pages with
  | [] => Some page
  | i :: pages =>
      g ← page_group i;
      if bool_decide (g = group) then Some i
      else first_page_of group pages page
  end.

(** [Editor::ToggleGroup] *)
Definition ToggleGroup (group : ParameterGroup) (ed : t) : option (t * list Call) :=
  let ed :=
    mk PAGE_TYPE_DETAILS (current_page_ ed) (last_visited_page_ ed)
       (current_controller_ ed) (last_visited_subpage_ ed) 0 0 (action_ ed)
       (current_patch_number_ ed) (previous_patch_number_ ed)
       (test_note_playing_ ed) (assign_in_progress_ ed)
       (assigned_parameters_ ed) (parameter_to_assign_ ed) in
  let calls := [DisplaySetCursorPosition kLcdNoCursor] in
  if bool_decide (group = GROUP_LOAD_SAVE) then
    let ed :=
      mk (current_display_type_ ed) PAGE_LOAD_SAVE (last_visited_page_ ed)
         (current_controller_ ed) (last_visited_subpage_ ed) (cursor_ ed)
         (subpage_ ed) (action_ ed) (current_patch_number_ ed)
         (previous_patch_number_ ed) (test_note_playing_ ed)
         (assign_in_progress_ ed) (assigned_parameters_ ed)
         (parameter_to_assign_ ed) in
    let '(ed, calls') := EnterLoadSaveMode ed in
    Some (ed, calls ++ calls')
  else
    current_group ← page_group (current_page_ ed);
    page ←
      (if negb (bool_decide (group = current_group))
       then Some (last_visited_page_ ed group)
       else
         let next := current_page_ ed + 1 in
         next_group ← page_group next;
         if negb (bool_decide (next_group = group))
         then first_page_of group (seqZ 0 kNumPages) next
         else Some next);
    let subpage :=
      if page =? PAGE_MOD_MATRIX then last_visited_subpage_ ed else subpage_ ed in
    Some (mk (current_display_type_ ed) page
             (fun g => if bool_decide (g = group) then page
                       else last_visited_page_ ed g)
             (current_controller_ ed) (last_visited_subpage_ ed) (cursor_ ed)
             subpage (action_ ed) (current_patch_number_ ed)
             (previous_patch_number_ ed) (test_note_playing_ ed)
             (assign_in_progress_ ed) (assigned_parameters_ ed)
             (parameter_to_assign_ ed),
          calls).

(** [Editor::DoShiftFunction] *)
Definition DoShiftFunction (group : ParameterGroup) (ed : t)
    : option (t * list Call) :=
  match group with
  | GROUP_PLAY =>
      Some (mk (current_display_type_ ed) (current_page_ ed)
               (last_visited_page_ ed) (current_controller_ ed)
               (last_visited_subpage_ ed) (cursor_ ed) (subpage_ ed)
               (action_ ed) (current_patch_number_ ed)
               (previous_patch_number_ ed)
               (if test_note_playing_ ed =? 0 then 1 else 0)
               (assign_in_progress_ ed) (assigned_parameters_ ed)
               (parameter_to_assign_ ed),
            [EngineNoteOn 0 48 (if test_note_playing_ ed =? 0 then 100 else 0)])
  | GROUP_OSC => ToggleGroup GROUP_PERFORMANCE ed
  | GROUP_FILTER =>
      if current_page_ ed <=? PAGE_PLAY_KBD then
        page ← (if current_page_ ed <? 0 then None
                else page_definition_ !! Z.to_nat (current_page_ ed));
        Some (mk (current_display_type_ ed) (current_page_ ed)
                 (last_visited_page_ ed) (current_controller_ ed)
                 (last_visited_subpage_ ed) (cursor_ ed) (subpage_ ed)
                 (action_ ed) (current_patch_number_ ed)
                 (previous_patch_number_ ed) (test_note_playing_ ed) 1
                 (assigned_parameters_ ed)
                 {| assigned_id :=
                      u8 (first_parameter_index page + current_controller_ ed);
                    assigned_subpage := subpage_ ed |},
              [DisplaySplashScreen STR_RES_TOUCH_A_KNOB_TO])
      else Some (ed, [])
  | _ => Some (ed, [])
  end.

(** The value [HandleEditInput] computes from the position of a knob, in
    the 16-bit unsigned arithmetic of the position. *)
Definition knob_value (parameter : ParameterDefinition) (value : Z) : Z :=
  if unit parameter =? UNIT_RAW_UINT8 then u8 (Z.shiftr (u16 value) 3)
  else
    let range := u8 (max_value parameter - min_value parameter + 1) in
    let new_value := u8 (Z.shiftr (u16 (Z.shiftr (u16 value) 3 * range)) 7) in
    u8 (new_value + min_value parameter).

(** [Editor::SetParameterWithHacks] *)
Definition SetParameterWithHacks (id value : Z) (ed : t) : t * list Call :=
  let value :=
    if (id =? PRM_ARP_TEMPO) && (value <? 40) then 0 else value in
  if (current_page_ ed =? PAGE_MOD_MATRIX) && (id =? PRM_MOD_ROW) then
    (mk (current_display_type_ ed) (current_page_ ed) (last_visited_page_ ed)
        (current_controller_ ed) value (cursor_ ed) value (action_ ed)
        (current_patch_number_ ed) (previous_patch_number_ ed)
        (test_note_playing_ ed) (assign_in_progress_ ed)
        (assigned_parameters_ ed) (parameter_to_assign_ ed),
     [])
  else (ed, [EngineSetParameter (u8 (id + subpage_ ed * 3)) value]).

(** [Editor::GetParameterWithHacks]; [get_parameter] is what
    [engine.GetParameter] answers. *)
Definition GetParameterWithHacks (get_parameter : Z -> Z) (id : Z) (ed : t) : Z :=
  let value :=
    if (current_page_ ed =? PAGE_MOD_MATRIX) && (id =? PRM_MOD_ROW)
    then subpage_ ed
    else u8 (get_parameter (u8 (id + subpage_ ed * 3))) in
  if (id =? PRM_ARP_TEMPO) && (value =? 0) then 39 else value.

(** [Editor::KnobIndexToParameterId]; the knob indexes
    [assigned_parameters_]. *)
Definition KnobIndexToParameterId (controller_index : Z) (ed : t)
    : option (t * Z) :=
  let controller_index := u8 controller_index in
  if current_page_ ed =? PAGE_PERFORMANCE then
    a ← assigned_parameters_ ed !! Z.to_nat controller_index;
    Some (mk (current_display_type_ ed) (current_page_ ed)
             (last_visited_page_ ed) (current_controller_ ed)
             (last_visited_subpage_ ed) (cursor_ ed) (assigned_subpage a)
             (action_ ed) (current_patch_number_ ed)
             (previous_patch_number_ ed) (test_note_playing_ ed)
             (assign_in_progress_ ed) (assigned_parameters_ ed)
             (parameter_to_assign_ ed),
          assigned_id a)
  else
    page ← (if current_page_ ed <? 0 then None
            else page_definition_ !! Z.to_nat (current_page_ ed));
    Some (ed, u8 (first_parameter_index page + controller_index)).

(** [Editor::HandleEditInput]; [definitions] is the table
    [raw_parameter_definition] read by [parameter_definition]. *)
Definition HandleEditInput (definitions : Z -> ParameterDefinition)
    (controller_index value : Z) (ed : t) : option (t * list Call) :=
  let controller_index := u8 controller_index in
  if negb (assign_in_progress_ ed =? 0) then
    if Z.of_nat (length (assigned_parameters_ ed)) <=? controller_index
    then None
    else
      ToggleGroup GROUP_PERFORMANCE
        (mk (current_display_type_ ed) (current_page_ ed)
            (last_visited_page_ ed) (current_controller_ ed)
            (last_visited_subpage_ ed) (cursor_ ed) (subpage_ ed)
            (action_ ed) (current_patch_number_ ed)
            (previous_patch_number_ ed) (test_note_playing_ ed) 0
            (<[Z.to_nat controller_index := parameter_to_assign_ ed]>
               (assigned_parameters_ ed))
            (parameter_to_assign_ ed))
  else
    r ← KnobIndexToParameterId controller_index ed;
    let '(ed, index) := r in
    let parameter := definitions index in
    let '(ed, calls) :=
      SetParameterWithHacks (id parameter) (knob_value parameter value) ed in
    Some (mk (current_display_type_ ed) (current_page_ ed)
             (last_visited_page_ ed) controller_index
             (last_visited_subpage_ ed) (cursor_ ed) (subpage_ ed)
             (action_ ed) (current_patch_number_ ed)
             (previous_patch_number_ ed) (test_note_playing_ ed)
             (assign_in_progress_ ed) (assigned_parameters_ ed)
             (parameter_to_assign_ ed),
          calls).

(** The value [HandleEditIncrement] writes, if any: the parameter read
    through [GetParameterWithHacks] moved by [direction], when it stays
    between the bounds of its definition. *)
Definition incremented_value (parameter : ParameterDefinition)
    (current direction : Z) : option Z :=
  if unit parameter =? UNIT_INT8 then
    let value := i16 (i8 current + i8 direction) in
    if (i8 (min_value parameter) <=? value) && (value <=? i8 (max_value parameter))
    then Some (u8 value) else None
  else
    let value := i16 (current + i8 direction) in
    if (min_value parameter <=? value) && (value <=? max_value parameter)
    then Some (u8 value) else None.

(** [Editor::HandleEditIncrement] *)
Definition HandleEditIncrement (definitions : Z -> ParameterDefinition)
    (get_parameter : Z -> Z) (direction : Z) (ed : t) : option (t * list Call) :=
  r ← KnobIndexToParameterId (current_controller_ ed) ed;
  let '(ed, index) := r in
  let parameter := definitions index in
  let current := GetParameterWithHacks get_parameter (id parameter) ed in
  match incremented_value parameter current direction with
  | Some value => Some (SetParameterWithHacks (id parameter) value ed)
  | None => Some (ed, [])
  end.

(** [name[cursor_]] of the patch: the cursor indexes the [kPatchNameSize]
    letters of the name. *)
Definition name_letter (p : Patch) (cursor : Z) : option Z :=
  if kPatchNameSize <=? cursor then None else load p (offsetof_name + cursor).

Definition set_name_letter (p : Patch) (cursor value : Z) : option Patch :=
  if kPatchNameSize <=? cursor then None
  else store p (offsetof_name + cursor) value.

(** [Editor::HandleLoadSaveInput], on the editor and on the patch of the
    engine. *)
Definition HandleLoadSaveInput (controller_index value : Z) (ed : t) (p : Patch)
    : option (t * Patch * list Call) :=
  let controller_index := u8 controller_index in
  let value := u16 value in
  if controller_index =? 0 then
    let num_patches := u8 (kEepromSize / kSerializedPatchSize) in
    let new_patch := u8 (u16 (value * num_patches) / 1024) in
    let calls :=
      if negb (new_patch =? current_patch_number_ ed)
         && bool_decide (action_ ed = ACTION_LOAD)
      then [PatchEepromLoad new_patch; EngineTouchPatch] else [] in
    Some (mk (current_display_type_ ed) (current_page_ ed)
             (last_visited_page_ ed) (current_controller_ ed)
             (last_visited_subpage_ ed) (cursor_ ed) (subpage_ ed)
             (action_ ed) new_patch (previous_patch_number_ ed)
             (test_note_playing_ ed) (assign_in_progress_ ed)
             (assigned_parameters_ ed) (parameter_to_assign_ ed),
          p, calls)
  else if controller_index =? 1 then
    if bool_decide (action_ ed = ACTION_SAVE) then
      Some (mk (current_display_type_ ed) (current_page_ ed)
               (last_visited_page_ ed) (current_controller_ ed)
               (last_visited_subpage_ ed)
               (u8 (u16 (value * kPatchNameSize) / 1024)) (subpage_ ed)
               (action_ ed) (current_patch_number_ ed)
               (previous_patch_number_ ed) (test_note_playing_ ed)
               (assign_in_progress_ ed) (assigned_parameters_ ed)
               (parameter_to_assign_ ed),
            p, [])
    else Some (ed, p, [])
  else if controller_index =? 2 then
    if bool_decide (action_ ed = ACTION_SAVE) then
      let value := u16 (value + u16 (Z.shiftl value 1)) in
      p ← set_name_letter p (cursor_ ed) (u8 (32 + Z.shiftr value 5));
      Some (ed, p, [])
    else Some (ed, p, [])
  else if controller_index =? 3 then
    if value <? 64 then
      Some (mk (current_display_type_ ed) (current_page_ ed)
               (last_visited_page_ ed) (current_controller_ ed)
               (last_visited_subpage_ ed) (cursor_ ed) (subpage_ ed)
               ACTION_LOAD (current_patch_number_ ed)
               (previous_patch_number_ ed) (test_note_playing_ ed)
               (assign_in_progress_ ed) (assigned_parameters_ ed)
               (parameter_to_assign_ ed),
            p, [])
    else
      let leaving := bool_decide (action_ ed = ACTION_LOAD) in
      Some (mk (current_display_type_ ed) (current_page_ ed)
               (last_visited_page_ ed) (current_controller_ ed)
               (last_visited_subpage_ ed) (cursor_ ed) (subpage_ ed)
               (if 960 <=? value then ACTION_SAVE else ACTION_EXIT)
               (if leaving then previous_patch_number_ ed
                else current_patch_number_ ed)
               (previous_patch_number_ ed) (test_note_playing_ ed)
               (assign_in_progress_ ed) (assigned_parameters_ ed)
               (parameter_to_assign_ ed),
            p, if leaving then [PatchRestore; EngineTouchPatch] else [])
  else Some (ed, p, []).

(** [Editor::HandleLoadSaveIncrement], on the patch of the engine: the
    letter under the cursor. *)
Definition HandleLoadSaveIncrement (direction : Z) (ed : t) (p : Patch)
    : option Patch :=
  if bool_decide (action_ ed = ACTION_SAVE) then
    letter ← name_letter p (cursor_ ed);
    let value := u8 (letter + i8 direction) in
    if (32 <=? value) && (value <=? 128)
    then set_name_letter p (cursor_ ed) value
    else Some p
  else Some p.

(** Every group remembers one of its own pages, and the group of the
    current page remembers the current page. *)
Definition visited_in_group (ed : t) : Prop :=
  (forall g, page_group (last_visited_page_ ed g) = Some g) /\
  (forall g, page_group (current_page_ ed) = Some g ->
             last_visited_page_ ed g = current_page_ ed).

(** The calls that write the patch to the EEPROM. *)
Definition is_save (c : Call) : bool :=
  match c with PatchEepromSave _ => true | _ => false end.

End WithHeaders.
End Editor.

(** ** Runs of the engine *)

Module Runs.
Section WithHeaders.
Context `{Headers} `{Resources}.
Import SynthesisEngine.

(** [SynthesisEngine::Audio] over successive samples, with the calls made
    along the way. *)
Fixpoint run_audio (inputs : list (nat -> Voice.AudioInputs)) (e : t)
    : t * list Call :=
  match inputs with
  | [] => (e, [])
  | i :: inputs =>
      let r := Audio i e in
      let r' := run_audio inputs (fst r) in
      (fst r', snd r ++ snd r')
  end.

(** The calls to [Random::Update]. *)
Definition is_random_update (c : Call) : bool :=
  match c with RandomUpdate => true | _ => false end.

(** The calls that render an oscillator. *)
Definition is_render (c : Call) : bool :=
  match c with
  | Osc1Render | Osc2Render | SubOscRender => true
  | _ => false
  end.

End WithHeaders.
End Runs.

(** ** Definitions that follow the words of the specification *)

Module Spec.
Section WithHeaders.
Context `{Headers} `{Resources}.

(** The rows the specification says the matrix evaluation processes: the
    persisted rows with their stored amounts, then one synthesized row with
    the source and destination of the last persisted row and its amount
    scaled by the modulation wheel; rows of amount zero are skipped. *)
Definition claimed_rows (patch : Patch) (engine_sources : list Z)
    : list (Z * Z * Z) :=
  let last := kSavedModulationMatrixSize - 1 in
  map (fun i => (modulation_source patch i, modulation_destination patch i,
                 modulation_amount patch i))
      (filter (fun i => modulation_amount patch i <> 0)
              (seqZ 0 kSavedModulationMatrixSize))
  ++ (if modulation_amount patch last =? 0 then []
      else [(modulation_source patch last, modulation_destination patch last,
             Op.SignedMulScale8 (modulation_amount patch last)
                                (peek engine_sources MOD_SRC_WHEEL))]).

(** The rows the code processes: every row of the matrix whose stored amount
    is not zero, with its own source and destination and its effective
    amount. *)
Definition processed_rows (patch : Patch) (engine_sources : list Z)
    : list (Z * Z * Z) :=
  map (fun i => (modulation_source patch i, modulation_destination patch i,
                 Voice.effective_amount patch engine_sources i))
      (filter (fun i => modulation_amount patch i <> 0) Voice.matrix_rows).

(** The evaluation of a list of rows, in order. *)
Fixpoint run_rows (engine_sources voice_sources : list Z)
    (rows : list (Z * Z * Z)) (acc : list Z * list Z)
    : option (list Z * list Z) :=
  match rows with
  | [] => Some acc
  | (source, destination, amount) :: rows =>
      acc ← Voice.apply_row engine_sources voice_sources source destination
              amount acc;
      run_rows engine_sources voice_sources rows acc
  end.

(** The enumerators of [ModulationDestination] that [Voice::Control] names. *)
Definition destination_ids : list Z :=
  [MOD_DST_FILTER_CUTOFF; MOD_DST_VCA; MOD_DST_PWM_1; MOD_DST_PWM_2;
   MOD_DST_VCO_1; MOD_DST_VCO_2; MOD_DST_VCO_1_2_FINE; MOD_DST_MIX_BALANCE;
   MOD_DST_MIX_NOISE; MOD_DST_MIX_SUB_OSC; MOD_DST_FILTER_RESONANCE].

(** The enumerators are distinct indices of an array of [size] elements. *)
Definition valid_destinations (size : nat) : bool :=
  bool_decide (NoDup destination_ids)
  && forallb (fun d => (0 <=? d) && (d <? Z.of_nat size)) destination_ids.

(** The filter cutoff accumulator after the two hardcoded filter
    modulations, from its value [cutoff] before them. *)
Definition hardcoded_cutoff (patch : Patch) (engine_sources voice_sources : list Z)
    (cutoff : Z) : Z :=
  Op.Clip
    (Op.Clip (cutoff +
              Op.SignedUnsignedMul (filter_env patch)
                (peek voice_sources (MOD_SRC_ENV_1 - kNumGlobalModulationSources)))
             0 16383 +
     Op.SignedUnsignedMul (filter_lfo patch) (peek engine_sources MOD_SRC_LFO_2) -
     Z.shiftl (filter_lfo patch) 7)
    0 16383.

(** The number of octaves to add to a pitch below the pitch table for it to
    enter the table. *)
Definition octaves_below_table (pitch : Z) : Z :=
  (kPitchTableStart - pitch + kOctave - 1) / kOctave.

(** The table entry of a pitch that lies in the table. *)
Definition table_lookup (pitch : Z) : Z :=
  u16 (lut_res_oscillator_increments
         (u16 (Z.shiftr (pitch - kPitchTableStart) 1))).

(** The phase increment the specification gives to a pitch below the table:
    the entry of the pitch transposed into the table, right-shifted by the
    number of octaves added. *)
Definition claimed_increment (pitch : Z) : Z :=
  let octaves := octaves_below_table pitch in
  Z.shiftr (table_lookup (pitch + octaves * kOctave)) octaves.

(** The product of [1 + rate] over the tempo-synchronised LFOs. *)
Definition reset_cadence (patch : Patch) : Z :=
  fold_left (fun product i =>
               if lfo_rate patch (Z.of_nat i) <? 16
               then product * (1 + lfo_rate patch (Z.of_nat i)) else product)
            (seq 0 kNumLfos) 1.

(** The bit mask of the tempo-synchronised LFOs. *)
Definition synced_lfos (patch : Patch) : Z :=
  fold_left (fun mask i =>
               if lfo_rate patch (Z.of_nat i) <? 16
               then Z.lor mask (Z.shiftl 1 (Z.of_nat i)) else mask)
            (seq 0 kNumLfos) 0.

(** The parameters named by the [case] labels of [SetParameter]; the
    labels of a [switch] are distinct. *)
Definition arpeggiator_parameters : list Z :=
  [PRM_ARP_TEMPO; PRM_ARP_OCTAVE; PRM_ARP_PATTERN; PRM_ARP_SWING;
   PRM_ARP_PATTERN_SIZE].

(** The controllers named by the [case] labels of [ControlChange]. *)
Definition midi_controllers : list Z :=
  [kModulationWheelMsb; kDataEntryMsb; kPortamentoTimeMsb; kRelease; kAttack;
   kHarmonicIntensity; kBrightness; kNrpnMsb].

(** The values are distinct bytes. *)
Definition distinct_bytes (l : list Z) : bool :=
  bool_decide (NoDup l) && forallb (fun x => (0 <=? x) && (x <=? 255)) l.

(** The calls [SetParameter] forwards to the note dispatcher. *)
Definition is_controller_call (c : Call) : bool :=
  match c with
  | ControllerSetTempo _ | ControllerSetOctaves _ | ControllerSetPattern _
  | ControllerSetSwing _ | Controller_set_pattern_size _ => true
  | _ => false
  end.

End WithHeaders.
End Spec.

(** ** A concrete configuration

    Values for the constants of the missing headers, used to run the model
    on concrete inputs.  The patch layout follows the bytes of [empty_patch]
    in synthesis_engine.cc: 96 bytes, the matrix of 14 rows at offset 29. *)

Module Example.

Definition headers : Headers := {|
  sizeof_Patch := 96;
  kNumVoices := 1;
  kModulationMatrixSize := 14;
  kSavedModulationMatrixSize := 10;
  kNumGlobalModulationSources := 11;
  MOD_SRC_LFO_1 := 0; MOD_SRC_LFO_2 := 1; MOD_SRC_SEQ := 2; MOD_SRC_STEP := 3;
  MOD_SRC_WHEEL := 4; MOD_SRC_PITCH_BEND := 5; MOD_SRC_RANDOM := 10;
  MOD_SRC_ENV_1 := 11; MOD_SRC_ENV_2 := 12; MOD_SRC_VELOCITY := 13;
  MOD_SRC_NOTE := 14; MOD_SRC_GATE := 15;
  MOD_DST_FILTER_CUTOFF := 0; MOD_DST_VCA := 1; MOD_DST_PWM_1 := 2;
  MOD_DST_PWM_2 := 3; MOD_DST_VCO_1 := 4; MOD_DST_VCO_2 := 5;
  MOD_DST_VCO_1_2_FINE := 6; MOD_DST_MIX_BALANCE := 7; MOD_DST_MIX_NOISE := 8;
  MOD_DST_MIX_SUB_OSC := 9; MOD_DST_FILTER_RESONANCE := 10;
  PRM_OSC_SHAPE_2 := 1; PRM_MIX_SUB_OSC_SHAPE := 11; PRM_ENV_ATTACK_1 := 16;
  PRM_LFO_RATE_2 := 27; PRM_ARP_TEMPO := 70; PRM_ARP_OCTAVE := 71;
  PRM_ARP_PATTERN := 72; PRM_ARP_SWING := 73; PRM_ARP_PATTERN_SIZE := 94;
  offsetof_osc_shape := 1; offsetof_osc_parameter := 3; offsetof_osc_range := 5;
  offsetof_osc_option := 7; offsetof_mix_balance := 9; offsetof_mix_sub_osc := 10;
  offsetof_mix_noise := 11; offsetof_mix_sub_osc_shape := 12;
  offsetof_filter_cutoff := 13; offsetof_filter_resonance := 14;
  offsetof_filter_env := 15; offsetof_filter_lfo := 16;
  offsetof_env_attack := 17; offsetof_env_decay := 19; offsetof_env_sustain := 21;
  offsetof_env_release := 23; offsetof_lfo_wave := 25; offsetof_lfo_rate := 27;
  offsetof_modulation_matrix := 29; offsetof_sequence := 75;
  offsetof_kbd_octave := 83; offsetof_kbd_raga := 84;
  offsetof_kbd_portamento := 85; offsetof_kbd_midi_channel := 86;
  WAVEFORM_FM := 8; WAVEFORM_VOWEL := 10; RING_MOD := 2; XOR := 3; SYNC := 1;
  ATTACK := 0; RELEASE := 3;
  kOctave := 1536; kLowestNote := 0; kHighestNote := 13824;
  kPitchTableStart := 12288;
  kModulationWheelMsb := 1; kDataEntryMsb := 6; kPortamentoTimeMsb := 5;
  kRelease := 72; kAttack := 73; kHarmonicIntensity := 71; kBrightness := 74;
  kNrpnMsb := 99
|}.

(** The same constants with another number of persisted rows. *)
Definition headers_saving (saved : Z) : Headers :=
  let h := headers in
  @Build_Headers 96 1 14 saved 11 0 1 2 3 4 5 10 11 12 13 14 15
    0 1 2 3 4 5 6 7 8 9 10 1 11 16 27 70 71 72 73 94
    1 3 5 7 9 10 11 12 13 14 15 16 17 19 21 23 25 27 29 75 83 84 85 86
    8 10 2 3 1 0 3 1536 0 13824 12288 1 6 5 72 73 71 74 99.

Definition resources : Resources := {|
  LUT_RES_SCALE_JUST := 0;
  lookup_resource := fun _ _ => 0;
  lut_res_env_portamento_increments := fun i => 65535 - 500 * i;
  lut_res_oscillator_increments := fun i => 32768 + 40 * i;
  lut_res_lfo_increments := fun i => 1 + 8 * i
|}.

(** The bytes of [empty_patch], with 1 and 2 for the saw and square
    waveforms and the triangle LFO waveform as 0; the sources of the four
    unsaved rows are 6 to 9. *)
Definition empty_patch : list Z :=
  [99;
   1; 2; 0; 32;
   0; 0; 0; 0;
   24; 0; 0; 2;
   110; 0; 10; 0;
   20; 0;
   60; 40;
   20; 80;
   60; 40;
   0; 0; 96; 3;
   0; 4; 0;
   0; 5; 0;
   0; 2; 0;
   0; 3; 0;
   1; 7; 0;
   14; 0; 58;
   12; 1; 63;
   13; 1; 16;
   5; 6; 32;
   0; 6; 16;
   6; 2; 0;
   7; 0; 0;
   8; 0; 0;
   9; 0; 0;
   120; 0; 0; 0;
   0; 0; 255; 255; 204; 204; 68; 68;
   0; 0; 0; 1;
   110; 101; 119; 32; 32; 32; 32; 32; 16].

(** [empty_patch] with every matrix amount set to zero. *)
Definition silent_matrix_patch : list Z :=
  fold_left (fun p i => poke p (29 + 3 * i + 2) 0) (seqZ 0 14) empty_patch.

(** A voice after [Voice::Init], with arrays of the sizes of the
    configuration. *)
Definition voice : Voice.t :=
  Voice.mk 0 0 0 0 (replicate 5 0) (replicate 11 0) 128 0 (replicate 11 0).

(** An engine at power-on: the pitch bend centred, two LFOs, the NRPN
    number at its initial value 0xff. *)
Definition engine : SynthesisEngine.t :=
  SynthesisEngine.mk empty_patch (poke (replicate 11 0) 5 128) 0
    [Lfo.mk 0 0 0; Lfo.mk 0 0 0] 255 0 0 0 voice.

(** Envelopes at full level in their attack stage. *)
Definition envelopes : Voice.ControlInputs :=
  {| Voice.envelope_dead := fun _ => false;
     Voice.envelope_value := fun _ => 16383;
     Voice.envelope_stage := fun _ => 0 |}.

(** Global sources: LFO 1 at 200, the pitch bend centred, the wheel at
    [wheel], the second control voltage at 100. *)
Definition sources_with_wheel (wheel : Z) : list Z :=
  [200; 0; 0; 0; wheel; 128; 0; 0; 0; 100; 0].

(** [empty_patch] with the amount of the last row of the matrix set to 20. *)
Definition patch_with_last_row : list Z := poke empty_patch (29 + 3 * 13 + 2) 20.

(** [empty_patch] with row [i] routing the second envelope to the amplitude
    with the amount byte [amount]. *)
Definition patch_with_vca_row (i amount : Z) : list Z :=
  poke (poke (poke empty_patch (29 + 3 * i) 12) (29 + 3 * i + 1) 1)
       (29 + 3 * i + 2) amount.

(** Voice sources with the second envelope at [env2]. *)
Definition voice_sources (env2 : Z) : list Z := [0; env2; 0; 0; 0].

(** The accumulators at the head of the matrix loop for [patch]. *)
Definition accumulators (patch : list Z) : list Z * list Z :=
  (@Voice.load_initial_values headers patch (replicate 11 0),
   poke (replicate 11 0) 1 (i8 255)).

(** A voice sliding from the pitch [pitch]. *)
Definition voice_at (pitch : Z) : Voice.t :=
  Voice.mk 0 0 pitch pitch (replicate 5 0) (replicate 11 0) 128 0 (replicate 11 0).

(** Voice sources with the first envelope at [env1]. *)
Definition voice_sources_env1 (env1 : Z) : list Z := [env1; 0; 0; 0; 0].

(** [empty_patch] with the two LFO rates set to [rate1] and [rate2]. *)
Definition patch_with_lfo_rates (rate1 rate2 : Z) : list Z :=
  poke (poke empty_patch 27 rate1) 28 rate2.

(** The engine at power-on with the LFO rates [rate1] and [rate2]. *)
Definition engine_with_lfo_rates (rate1 rate2 : Z) : SynthesisEngine.t :=
  SynthesisEngine.set_patch (patch_with_lfo_rates rate1 rate2) engine.

(** A tick of [SynthesisEngine::Control] at which the sequencer advanced
    ([advanced = true]) or not. *)
Definition tick (advanced : bool) : SynthesisEngine.ControlInputs :=
  {| SynthesisEngine.lfo_render := fun _ => 128;
     SynthesisEngine.random_state_msb := 0;
     SynthesisEngine.controller_control := advanced;
     SynthesisEngine.estimated_beat_duration := 6000;
     SynthesisEngine.sequence_step := 0;
     SynthesisEngine.has_arpeggiator_note := false;
     SynthesisEngine.voice_inputs := fun _ => envelopes |}.

(** [empty_patch] with the operator of oscillator 1 set to [operator] and
    its shape to [shape]. *)
Definition patch_with_operator (operator shape : Z) : list Z :=
  poke (poke empty_patch 7 operator) 1 shape.

(** A live voice whose resolved sub-oscillator level is [sub_level]. *)
Definition live_voice (sub_level : Z) : Voice.t :=
  Voice.mk 0 0 0 0 (replicate 5 0) (poke (replicate 11 0) 9 sub_level) 128 0
    (replicate 11 0).

(** The oscillator samples 0b10110010 and 0b01101100, a silent
    sub-oscillator and no noise. *)
Definition samples : Voice.AudioInputs :=
  {| Voice.osc1_render := 178; Voice.osc2_render := 108;
     Voice.sub_osc_render := 0; Voice.osc1_phase := 0;
     Voice.random_state_msb := 0 |}.

(** The beat duration the note dispatcher reports. *)
Definition beats : SynthesisEngine.SetParameterInputs :=
  {| SynthesisEngine.beat_duration := 6000;
     SynthesisEngine.beat_duration_after_SetTempo := 5000 |}.

(** Envelopes that have run to their end. *)
Definition dead_envelopes : Voice.ControlInputs :=
  {| Voice.envelope_dead := fun _ => true;
     Voice.envelope_value := fun _ => 0;
     Voice.envelope_stage := fun _ => 4 |}.

(** Controller messages: an NRPN selection outside the patch, a data entry,
    the modulation wheel, an unassigned controller. *)
Definition controller_messages : list (Z * Z * Z) :=
  [(0, 99, 200); (0, 6, 5); (0, 1, 64); (0, 7, 100)].

(** Values for the constants of patch.h that patch.cc names, on the same
    layout: the name at offset 87, a serialised patch of 64 bytes. *)
Definition storage_headers : StorageHeaders := {|
  offsetof_osc_algorithm := 1;
  offsetof_name := 87;
  kPatchNameSize := 8;
  kSerializedPatchSize := 64
|}.

(** [empty_patch] with cleared buffers, after a finished reception. *)
Definition storage : Storage.t :=
  Storage.mk empty_patch (replicate 65 0) (replicate 64 0) 0 0
    Storage.RECEPTION_OK.

(** Another patch and other buffers, in the middle of a reception. *)
Definition other_storage : Storage.t :=
  Storage.mk silent_matrix_patch (replicate 65 7) (replicate 64 0) 3 9
    Storage.RECEIVING_DATA.

(** [empty_patch] with another cutoff and another destination in the first
    row of the matrix. *)
Definition edited_patch : list Z := poke (poke empty_patch 13 5) 30 9.

(** [empty_patch] with the source 20 in the first row of the matrix. *)
Definition wide_source_patch : list Z := poke empty_patch 29 20.

(** An erased EEPROM. *)
Definition blank_eeprom : Z -> Z := fun _ => 255.

(** Values for the constants of editor.h that editor.cc names, the
    parameters being numbered by their offset in the patch. *)
Definition editor_headers : EditorHeaders := {|
  UNIT_RAW_UINT8 := 0;
  UNIT_INT8 := 2;
  PRM_MOD_ROW := 31;
  PRM_FILTER_CUTOFF := 12;
  PRM_FILTER_ENV := 14;
  kLcdNoCursor := 255;
  kNumPages := 13;
  kEepromSize := 1024;
  STR_RES_TOUCH_A_KNOB_TO := 0
|}.

(** The editor at power-on, zero standing for the first enumerators. *)
Definition editor : Editor.t :=
  @Editor.initial editor_headers Editor.PAGE_TYPE_DETAILS Editor.ACTION_LOAD.

(** The editor after the modulation group was visited up to the modulation
    matrix. *)
Definition matrix_editor : Editor.t :=
  Editor.mk Editor.PAGE_TYPE_DETAILS Editor.PAGE_MOD_MATRIX
    (fun g => if bool_decide (g = Editor.GROUP_MOD) then Editor.PAGE_MOD_MATRIX
              else Editor.last_visited_page_ editor g)
    0 0 0 0 Editor.ACTION_LOAD 0 0 0 0
    (Editor.assigned_parameters_ editor) (Editor.parameter_to_assign_ editor).

(** The editor on the load/save page, ready to save, the cursor on the
    third letter of the name. *)
Definition saving_editor : Editor.t :=
  Editor.mk Editor.PAGE_TYPE_DETAILS Editor.PAGE_LOAD_SAVE
    (Editor.last_visited_page_ editor)
    0 0 2 0 Editor.ACTION_SAVE 5 5 0 0
    (Editor.assigned_parameters_ editor) (Editor.parameter_to_assign_ editor).

(** The editor on the performance page, the last of the table. *)
Definition performance_editor : Editor.t :=
  Editor.mk Editor.PAGE_TYPE_DETAILS Editor.PAGE_PERFORMANCE
    (Editor.last_visited_page_ editor)
    0 0 0 0 Editor.ACTION_LOAD 0 0 0 0
    (Editor.assigned_parameters_ editor) (Editor.parameter_to_assign_ editor).

(** The range of an oscillator, from -12 to 12 semitones, as it is in
    [raw_parameter_definition]. *)
Definition range_parameter : Editor.ParameterDefinition := {|
  Editor.id := 4;
  Editor.min_value := 244;
  Editor.max_value := 12;
  Editor.unit := 2;
  Editor.short_name := 0;
  Editor.long_name := 0
|}.

(** [empty_patch] with a name that starts with three letters. *)
Definition named_patch : Patch :=
  poke (poke (poke empty_patch 87 65) 88 66) 89 67.

End Example.

(** * Properties

    ** Fixed-width integers and arrays *)

Lemma u8_range z : 0 <= u8 z <= 255.
Proof. unfold u8. pose proof (Z.mod_pos_bound z 256). lia. Qed.


Lemma i8_range z : -128 <= i8 z <= 127.
Proof. unfold i8. pose proof (Z.mod_pos_bound (z + 128) 256). lia. Qed.

Lemma u8_id z : 0 <= z <= 255 -> u8 z = z.
Proof. intros. unfold u8. apply Z.mod_small. lia. Qed.

Lemma i8_id z : -128 <= z <= 127 -> i8 z = z.
Proof. intros. unfold i8. rewrite Z.mod_small by lia. lia. Qed.

Lemma i16_id z : -32768 <= z <= 32767 -> i16 z = z.
Proof. intros. unfold i16. rewrite Z.mod_small by lia. lia. Qed.

Lemma i8_idem z : i8 (i8 z) = i8 z.
Proof. apply i8_id, i8_range. Qed.

Lemma u8_idem z : u8 (u8 z) = u8 z.
Proof. apply u8_id, u8_range. Qed.


Lemma length_poke (a : list Z) i x : length (poke a i x) = length a.
Proof. unfold poke. apply length_insert. Qed.

Lemma peek_poke_eq (a : list Z) i x :
  0 <= i < Z.of_nat (length a) -> peek (poke a i x) i = x.
Proof.
  intros Hi. unfold peek, poke.
  apply nth_lookup_Some with (d := 0), list_lookup_insert_eq. lia.
Qed.

Lemma peek_poke_ne (a : list Z) i j x :
  0 <= i -> 0 <= j -> i <> j -> peek (poke a i x) j = peek a j.
Proof.
  intros Hi Hj Hne. unfold peek, poke.
  rewrite !nth_lookup, list_lookup_insert_ne by lia. reflexivity.
Qed.

Lemma load_Some (a : list Z) i x :
  load a i = Some x -> 0 <= i < Z.of_nat (length a) /\ peek a i = x.
Proof.
  unfold load, peek. destruct (Z.ltb_spec i 0); [discriminate|].
  intros E. split.
  - apply lookup_lt_Some in E. lia.
  - now apply nth_lookup_Some.
Qed.

Lemma load_in_range (a : list Z) i :
  0 <= i < Z.of_nat (length a) -> load a i = Some (peek a i).
Proof.
  intros Hi. unfold load, peek. destruct (Z.ltb_spec i 0); [lia|].
  destruct (lookup_lt_is_Some_2 a (Z.to_nat i) ltac:(lia)) as [x E].
  rewrite E. f_equal. symmetry. now apply nth_lookup_Some.
Qed.

(** Pairwise distinct values, from a duplicate-free list of them. *)
Ltac distinct_from H :=
  repeat (apply NoDup_cons in H;
          let N := fresh "N" in
          destruct H as [N H]; rewrite ?not_elem_of_cons in N);
  repeat match goal with
         | N : _ /\ _ |- _ => destruct N
         end.

(** Side conditions of array reads, from hypotheses on the indices; [lia]
    is no help among many disequalities. *)
Ltac index_facts :=
  rewrite ?length_poke;
  first [ assumption
        | apply not_eq_sym; assumption
        | split; assumption
        | match goal with R : 0 <= ?x < _ |- 0 <= ?x => exact (proj1 R) end ].

(** Reading an array through the stores made into it. *)
Ltac peek_poke :=
  repeat first
    [ rewrite peek_poke_eq by index_facts
    | rewrite peek_poke_ne by index_facts ].

(** ** Portamento *)

Section Portamento.
Context `{Headers} `{Resources}.
Import Voice.








(** The pitch fields written by [Voice::Trigger]. *)
Lemma Trigger_pitch patch note velocity legato v :
  let v1 := fst (Trigger patch note velocity legato v) in
  let target := trigger_target patch note in
  let value := if pitch_value_ v =? 0 then target else pitch_value_ v in
  let delta := i16 (target - value) in
  let computed := slide_increment delta (portamento_lookup patch) in
  pitch_target_ v1 = target /\ pitch_value_ v1 = value /\
  pitch_increment_ v1 =
    if computed =? 0 then (if delta <? 0 then -1 else 1) else computed.
Proof. unfold Trigger. destruct (u8 legato =? 0); cbv zeta; cbn [fst pitch_target_ pitch_value_ pitch_increment_ set_pitch]; auto. Qed.

(** C5: on a voice whose current pitch is the power-on value 0,
    [Voice::Trigger] sets the current pitch to the computed target pitch at
    once, for every note, velocity, legato flag and portamento time. *)
Theorem portamento_first_note_snap patch note velocity legato v :
  pitch_value_ v = 0 ->
  let v1 := fst (Trigger patch note velocity legato v) in
  pitch_value_ v1 = trigger_target patch note /\
  pitch_target_ v1 = trigger_target patch note /\
  pitch_value_ v1 = pitch_target_ v1.
Proof.
  intros Hz v1.
  destruct (Trigger_pitch patch note velocity legato v) as (Ht & Hv & _).
  fold v1 in Ht, Hv. rewrite Hz in Hv. simpl in Hv. rewrite Hv, Ht. auto.
Qed.


End Portamento.

(** ** The modulation matrix *)

Section Matrix.
Context `{Headers} `{Resources}.
Import Voice.

Lemma valid_destinations_spec size :
  Spec.valid_destinations size = true ->
  NoDup Spec.destination_ids /\
  Forall (fun d => 0 <= d < Z.of_nat size) Spec.destination_ids.
Proof.
  unfold Spec.valid_destinations. intros E.
  apply andb_true_iff in E as [E1 E2]. split.
  - now apply bool_decide_eq_true in E1.
  - apply Forall_forall. intros d Hd.
    rewrite forallb_forall in E2. specialize (E2 d).
    rewrite <- list_elem_of_In in E2. specialize (E2 Hd). lia.
Qed.

(** Unfolds the validity of the destination enumerators into inequalities
    that [lia] can use. *)
Ltac destinations_facts Hok :=
  let Hd := fresh "Hd" in let Hr := fresh "Hr" in
  destruct (valid_destinations_spec _ Hok) as [Hd Hr];
  unfold Spec.destination_ids in Hd, Hr;
  distinct_from Hd;
  repeat match goal with
         | Hr : Forall _ (_ :: _) |- _ =>
             let R := fresh "R" in
             apply Forall_cons in Hr as [R Hr]
         end.

Lemma apply_modulation_zero patch es vs i acc :
  modulation_amount patch i = 0 -> apply_modulation patch es vs i acc = Some acc.
Proof. intros E. unfold apply_modulation. now rewrite E. Qed.

Lemma modulation_loop_zero patch es vs rows : forall acc,
  (forall i, In i rows -> modulation_amount patch i = 0) ->
  modulation_loop patch es vs rows acc = Some acc.
Proof.
  induction rows as [|i rows IH]; intros acc Hz; [reflexivity|].
  cbn [modulation_loop]. rewrite apply_modulation_zero by (apply Hz; now left).
  cbn. apply IH. intros j Hj. apply Hz. now right.
Qed.

Lemma modulation_loop_app patch es vs rows1 rows2 acc :
  modulation_loop patch es vs (rows1 ++ rows2) acc =
  modulation_loop patch es vs rows1 acc ≫= modulation_loop patch es vs rows2.
Proof.
  revert acc. induction rows1 as [|i rows1 IH]; intros acc; [reflexivity|].
  cbn [app modulation_loop].
  destruct (apply_modulation patch es vs i acc) as [acc'|]; cbn; [apply IH|reflexivity].
Qed.

(** A row of amount zero anywhere in the matrix is as good as absent. *)
Lemma modulation_loop_skip patch es vs rows1 i rows2 acc :
  modulation_amount patch i = 0 ->
  modulation_loop patch es vs (rows1 ++ i :: rows2) acc =
  modulation_loop patch es vs (rows1 ++ rows2) acc.
Proof.
  intros E. rewrite !modulation_loop_app.
  destruct (modulation_loop patch es vs rows1 acc) as [acc'|]; cbn; [|reflexivity].
  now rewrite apply_modulation_zero.
Qed.


(** C1 (amended): a row of amount zero leaves the accumulators as they are;
    and when every row of the matrix has amount zero, the modulation stage of
    [Voice::Control] resolves the amplitude to 255 and every additive
    destination to its base value scaled into the working range and scaled
    back, the filter cutoff after its two hardcoded modulations. *)
Theorem zero_amount_rows_have_no_effect patch es vs dst destinations :
  (forall i acc, modulation_amount patch i = 0 ->
                 apply_modulation patch es vs i acc = Some acc) /\
  ((forall i, In i matrix_rows -> modulation_amount patch i = 0) ->
   Spec.valid_destinations (length dst) = true ->
   Spec.valid_destinations (length destinations) = true ->
   exists dst' destinations',
     resolve_destinations patch es vs dst destinations = Some (dst', destinations') /\
     u8 (peek destinations' MOD_DST_VCA) = 255 /\
     peek destinations' MOD_DST_FILTER_RESONANCE =
       i8 (Op.ShiftRight6 (i16 (Z.shiftl (filter_resonance patch) 8))) /\
     peek destinations' MOD_DST_PWM_1 =
       i8 (Z.shiftr (i16 (Z.shiftl (osc_parameter patch 0) 7)) 7) /\
     peek destinations' MOD_DST_PWM_2 =
       i8 (Z.shiftr (i16 (Z.shiftl (osc_parameter patch 1) 7)) 7) /\
     peek destinations' MOD_DST_MIX_BALANCE =
       i8 (Op.ShiftRight6 (i16 (Z.shiftl (mix_balance patch) 8))) /\
     peek destinations' MOD_DST_MIX_NOISE =
       i8 (Z.shiftr (i16 (Z.shiftl (mix_noise patch) 8)) 8) /\
     peek destinations' MOD_DST_MIX_SUB_OSC =
       i8 (Z.shiftr (i16 (Z.shiftl (mix_sub_osc patch) 8)) 7) /\
     peek destinations' MOD_DST_FILTER_CUTOFF =
       i8 (Op.ShiftRight6
             (Spec.hardcoded_cutoff patch es vs
                (i16 (Z.shiftl (filter_cutoff patch) 7))))).
Proof.
  split; [intros i acc; apply apply_modulation_zero|].
  intros Hz Hok1 Hok2.
  destinations_facts Hok1. destinations_facts Hok2.
  unfold resolve_destinations. rewrite modulation_loop_zero by exact Hz.
  cbn [mbind option_bind fst snd]. eexists _, _. split; [reflexivity|].
  unfold store_destinations, filter_modulations, load_initial_values,
    Spec.hardcoded_cutoff.
  repeat apply conj; peek_poke; reflexivity.
Qed.

(** The matrix loop over any rows is the evaluation, in order, of the rows
    whose stored amount is not zero. *)
Lemma modulation_loop_run_rows patch es vs rows : forall acc,
  modulation_loop patch es vs rows acc =
  Spec.run_rows es vs
    (map (fun i => (modulation_source patch i, modulation_destination patch i,
                    effective_amount patch es i))
         (filter (fun i => modulation_amount patch i <> 0) rows)) acc.
Proof.
  induction rows as [|i rows IH]; intros acc; [reflexivity|].
  cbn [modulation_loop]. rewrite filter_cons. unfold apply_modulation at 1.
  destruct (Z.eqb_spec (modulation_amount patch i) 0) as [E|E].
  - rewrite decide_False by tauto. cbn. apply IH.
  - rewrite decide_True by exact E. cbn [map Spec.run_rows].
    destruct (apply_row es vs _ _ _ acc); cbn; [apply IH|reflexivity].
Qed.

(** C2 (amended): the matrix evaluation processes the
    [kModulationMatrixSize] rows of the patch in order, skipping those whose
    stored amount is zero, each with its own source and destination; the row
    at index [kSavedModulationMatrixSize - 1] is applied with its amount
    multiplied (signed by unsigned) by the modulation wheel and shifted right
    by 8, in place of its stored amount, and every other row is applied with
    its stored amount. *)
Theorem matrix_processes_every_row patch es vs acc :
  modulation_loop patch es vs matrix_rows acc =
    Spec.run_rows es vs (Spec.processed_rows patch es) acc /\
  matrix_rows = seqZ 0 kModulationMatrixSize /\
  effective_amount patch es (kSavedModulationMatrixSize - 1) =
    i8 (Z.shiftr (modulation_amount patch (kSavedModulationMatrixSize - 1) *
                  u8 (peek es MOD_SRC_WHEEL)) 8) /\
  (forall i, i <> kSavedModulationMatrixSize - 1 ->
             effective_amount patch es i = modulation_amount patch i).
Proof.
  split; [apply modulation_loop_run_rows|]. split; [reflexivity|]. split.
  - unfold effective_amount. rewrite Z.eqb_refl. unfold Op.SignedMulScale8.
    unfold modulation_amount. now rewrite i8_idem.
  - intros i Hi. unfold effective_amount.
    destruct (Z.eqb_spec i (kSavedModulationMatrixSize - 1)); [contradiction|reflexivity].
Qed.

(** On the amplitude destination, a row applied with the amount [a > 0] to
    the source value [v] and a row applied with [- a] to [255 - v] give the
    same accumulators. *)
Lemma apply_row_vca_symmetry es1 vs1 es2 vs2 source a v acc :
  0 < a <= 127 -> 0 <= v <= 255 ->
  source_value es1 vs1 source = Some v ->
  source_value es2 vs2 source = Some (255 - v) ->
  apply_row es1 vs1 source MOD_DST_VCA a acc =
  apply_row es2 vs2 source MOD_DST_VCA (- a) acc.
Proof.
  intros Ha Hv E1 E2. unfold apply_row. destruct acc as [dst destinations].
  rewrite E1, E2. cbn [mbind option_bind]. rewrite Z.eqb_refl. cbn [negb].
  destruct (Z.ltb_spec a 0); [lia|]. destruct (Z.ltb_spec (- a) 0); [|lia].
  rewrite Z.opp_involutive, (i8_id a) by lia.
  replace (255 - (255 - v)) with v by lia. now rewrite (u8_id v) by lia.
Qed.

(** C3 (amended): for a matrix row other than the wheel-scaled row
    [kSavedModulationMatrixSize - 1] that targets the amplitude, evaluating
    it with amount [a > 0] and source value [v] gives the same resolved
    amplitude as evaluating it with amount [- a] and source value
    [255 - v]. *)
Theorem amplitude_sign_symmetry patch1 patch2 es1 vs1 es2 vs2 i a v acc :
  i <> kSavedModulationMatrixSize - 1 ->
  0 < a <= 127 -> 0 <= v <= 255 ->
  modulation_destination patch1 i = MOD_DST_VCA ->
  modulation_destination patch2 i = MOD_DST_VCA ->
  modulation_source patch2 i = modulation_source patch1 i ->
  modulation_amount patch1 i = a ->
  modulation_amount patch2 i = - a ->
  source_value es1 vs1 (modulation_source patch1 i) = Some v ->
  source_value es2 vs2 (modulation_source patch1 i) = Some (255 - v) ->
  apply_modulation patch1 es1 vs1 i acc = apply_modulation patch2 es2 vs2 i acc /\
  exists dst destinations,
    apply_modulation patch1 es1 vs1 i acc = Some (dst, destinations) /\
    dst = fst acc /\
    destinations =
      poke (snd acc) MOD_DST_VCA
        (i8 (Op.MulScale8 (peek (snd acc) MOD_DST_VCA)
                          (Op.Mix 255 v (Z.shiftl a 2)))).
Proof.
  intros Hi Ha Hv D1 D2 S A1 A2 V1 V2.
  assert (E1 : apply_modulation patch1 es1 vs1 i acc =
               apply_row es1 vs1 (modulation_source patch1 i) MOD_DST_VCA a acc).
  { unfold apply_modulation, effective_amount. rewrite A1, D1.
    destruct (Z.eqb_spec a 0); [lia|].
    destruct (Z.eqb_spec i (kSavedModulationMatrixSize - 1)); [contradiction|].
    reflexivity. }
  assert (E2 : apply_modulation patch2 es2 vs2 i acc =
               apply_row es2 vs2 (modulation_source patch1 i) MOD_DST_VCA (- a) acc).
  { unfold apply_modulation, effective_amount. rewrite A2, D2, S.
    destruct (Z.eqb_spec (- a) 0); [lia|].
    destruct (Z.eqb_spec i (kSavedModulationMatrixSize - 1)); [contradiction|].
    reflexivity. }
  split.
  - rewrite E1, E2. now apply apply_row_vca_symmetry with (v := v).
  - rewrite E1. unfold apply_row. destruct acc as [dst destinations].
    rewrite V1. cbn [mbind option_bind]. rewrite Z.eqb_refl. cbn [negb].
    destruct (Z.ltb_spec a 0); [lia|]. eexists _, _. split; [reflexivity|].
    split; reflexivity.
Qed.

End Matrix.

(** ** The pitch table *)

Section PitchTable.
Context `{Headers} `{Resources}.
Import Voice.

Lemma while_done {S : Type} fuel (cond : S -> bool) body s :
  (0 < fuel)%nat -> cond s = false -> while fuel cond body s = Some s.
Proof. intros Hf E. destruct fuel; [lia|]. cbn. now rewrite E. Qed.

Lemma while_step {S : Type} fuel (cond : S -> bool) body s :
  cond s = true ->
  while (Datatypes.S fuel) cond body s = while fuel cond body (body s).
Proof. intros E. cbn. now rewrite E. Qed.

(** More fuel does not change the result of a loop that ended. *)
Lemma while_fuel_mono {S : Type} (cond : S -> bool) body fuel : forall s r fuel',
  while fuel cond body s = Some r -> (fuel <= fuel')%nat ->
  while fuel' cond body s = Some r.
Proof.
  induction fuel as [|fuel IH]; intros s r fuel' E Hf; [discriminate|].
  destruct fuel' as [|fuel']; [lia|]. cbn in *.
  destruct (cond s); [|exact E]. apply IH; [exact E|lia].
Qed.

(** The transposition loop adds [k] octaves and counts [k] shifts. *)
Lemma table_reference_loop (k : nat) : forall ref shifts fuel,
  0 < kOctave <= 32767 ->
  -32768 <= ref <= 32767 ->
  0 <= ref + Z.of_nat k * kOctave ->
  ref + Z.of_nat k * kOctave < kOctave \/ k = 0%nat ->
  0 <= shifts -> shifts + Z.of_nat k <= 255 ->
  (k < fuel)%nat ->
  while fuel (fun s : Z * Z => fst s <? 0)
        (fun s => (i16 (fst s + kOctave), u8 (snd s + 1))) (ref, shifts) =
  Some (ref + Z.of_nat k * kOctave, shifts + Z.of_nat k).
Proof.
  induction k as [|k IH]; intros ref shifts fuel Ho Hr Hk Hlast Hs Hs' Hf.
  - rewrite while_done; [f_equal; f_equal; lia|lia|].
    cbn [fst]. apply Z.ltb_ge. lia.
  - destruct fuel as [|fuel]; [lia|].
    assert (Hneg : ref < 0) by (destruct Hlast; [nia|lia]).
    rewrite while_step by (cbn [fst]; apply Z.ltb_lt; exact Hneg).
    cbn [fst snd]. rewrite i16_id, u8_id by lia.
    rewrite IH; [f_equal; f_equal; lia|lia|lia|lia| |lia|lia|lia].
    destruct k; [right; reflexivity|left]. destruct Hlast; [lia|discriminate].
Qed.

Lemma octaves_below_table_spec pitch :
  0 < kOctave -> pitch < kPitchTableStart ->
  let k := Spec.octaves_below_table pitch in
  0 < k /\ kPitchTableStart <= pitch + k * kOctave < kPitchTableStart + kOctave.
Proof.
  intros Ho Hp k. unfold k, Spec.octaves_below_table.
  assert (Hne : kOctave <> 0) by lia.
  pose proof (Z.div_mod (kPitchTableStart - pitch + kOctave - 1) kOctave Hne).
  pose proof (Z.mod_pos_bound (kPitchTableStart - pitch + kOctave - 1) kOctave Ho).
  nia.
Qed.

(** A pitch inside the reasonable range is left alone by the wrap. *)
Lemma wrap_pitch_in_range fuel pitch :
  (0 < fuel)%nat -> kLowestNote <= pitch < kHighestNote ->
  wrap_pitch fuel pitch = Some pitch.
Proof.
  intros Hf Hp. unfold wrap_pitch.
  rewrite while_done by (try apply Z.ltb_ge; lia). cbn [mbind option_bind].
  apply while_done; [lia|]. apply Z.leb_gt. lia.
Qed.

Lemma loop_fuel_large : (256 < loop_fuel)%nat.
Proof. unfold loop_fuel. lia. Qed.

(** C6 (amended): for an assembled pitch inside the reasonable range
    [kLowestNote, kHighestNote) and below the start of the pitch table, the
    resolution adds octaves until the pitch is in the table, looks the entry
    up and shifts it right by the number of octaves added; the transposed
    pitch lies in the first octave of the table and resolves, without any
    shift, to the entry that was looked up. *)
Theorem pitch_below_table_is_shifted pitch :
  0 < kOctave <= 32767 ->
  kLowestNote <= pitch < kHighestNote ->
  -32768 <= pitch - kPitchTableStart ->
  pitch < kPitchTableStart ->
  Spec.octaves_below_table pitch <= 255 ->
  let octaves := Spec.octaves_below_table pitch in
  let transposed := pitch + octaves * kOctave in
  resolve_increment loop_fuel pitch =
    Some (Z.shiftr (Spec.table_lookup transposed) octaves) /\
  kPitchTableStart <= transposed < kPitchTableStart + kOctave /\
  table_increment loop_fuel transposed = Some (Spec.table_lookup transposed).
Proof.
  intros Ho Hp Hlow Hbelow Hk octaves transposed.
  destruct (octaves_below_table_spec pitch ltac:(lia) Hbelow) as [Hpos Hw].
  fold octaves in Hpos, Hw, Hk. fold transposed in Hw.
  pose proof loop_fuel_large as Hfuel.
  split; [|split; [exact Hw|]].
  - unfold resolve_increment. rewrite wrap_pitch_in_range by (lia || exact Hp).
    cbn [mbind option_bind]. unfold table_increment, table_reference.
    rewrite (i16_id (pitch - kPitchTableStart)) by lia.
    rewrite (table_reference_loop (Z.to_nat octaves)); try lia.
    cbn [mbind option_bind fst snd]. rewrite Z2Nat.id by lia.
    unfold Spec.table_lookup, transposed. rewrite Z.add_0_l.
    replace (pitch - kPitchTableStart + octaves * kOctave)
      with (pitch + octaves * kOctave - kPitchTableStart) by lia.
    reflexivity.
  - unfold table_increment, table_reference.
    rewrite (i16_id (transposed - kPitchTableStart)) by lia.
    rewrite while_done; [| lia | cbn [fst]; apply Z.ltb_ge; lia].
    cbn [mbind option_bind fst snd]. rewrite Z.shiftr_0_r. reflexivity.
Qed.

End PitchTable.

(** ** Tempo-synchronised LFOs *)

Section LfoSync.
Context `{Headers} `{Resources}.
Import SynthesisEngine.

Ltac engine_fields :=
  cbn [patch_ modulation_sources_ oscillator_decimation_ lfo_
       nrpn_parameter_number_ num_lfo_reset_steps_ lfo_reset_counter_
       lfo_to_reset_ voice_ set_patch set_modulation_sources
       set_oscillator_decimation set_lfo set_nrpn_parameter_number
       set_lfo_reset set_lfo_reset_counter set_voice fst snd] in *.

Lemma update_lfo_fields beat e calls i :
  let e' := fst (update_lfo beat (e, calls) i) in
  patch_ e' = patch_ e /\ modulation_sources_ e' = modulation_sources_ e /\
  nrpn_parameter_number_ e' = nrpn_parameter_number_ e /\
  lfo_reset_counter_ e' = lfo_reset_counter_ e /\ voice_ e' = voice_ e /\
  oscillator_decimation_ e' = oscillator_decimation_ e /\
  length (lfo_ e') = length (lfo_ e).
Proof.
  unfold update_lfo. destruct (lfo_rate (patch_ e) (Z.of_nat i) <? 16);
    engine_fields; rewrite length_alter; repeat apply conj; reflexivity.
Qed.

(** [UpdateModulationIncrements] only writes the LFOs, the reset cadence and
    the set of LFOs to reset. *)
Lemma UpdateModulationIncrements_fields beat e :
  let e' := fst (UpdateModulationIncrements beat e) in
  patch_ e' = patch_ e /\ modulation_sources_ e' = modulation_sources_ e /\
  nrpn_parameter_number_ e' = nrpn_parameter_number_ e /\
  lfo_reset_counter_ e' = lfo_reset_counter_ e /\ voice_ e' = voice_ e /\
  oscillator_decimation_ e' = oscillator_decimation_ e /\
  length (lfo_ e') = length (lfo_ e).
Proof.
  unfold UpdateModulationIncrements, kNumLfos. cbn [seq fold_left].
  destruct (update_lfo beat (set_lfo_reset 0 0 e, []) 0) as [e1 c1] eqn:E1.
  pose proof (update_lfo_fields beat (set_lfo_reset 0 0 e) [] 0) as F1.
  rewrite E1 in F1. cbv zeta in F1. engine_fields.
  pose proof (update_lfo_fields beat e1 c1 1) as F2. cbv zeta in F2.
  destruct F1 as (? & ? & ? & ? & ? & ? & ?), F2 as (? & ? & ? & ? & ? & ? & ?).
  repeat apply conj; congruence.
Qed.

Lemma reset_cadence_cases patch :
  let r0 := lfo_rate patch 0 in
  let r1 := lfo_rate patch 1 in
  Spec.reset_cadence patch =
    (if r0 <? 16 then 1 + r0 else 1) * (if r1 <? 16 then 1 + r1 else 1) /\
  Spec.synced_lfos patch =
    (if r0 <? 16 then 1 else 0) + (if r1 <? 16 then 2 else 0).
Proof.
  unfold Spec.reset_cadence, Spec.synced_lfos, kNumLfos.
  cbn [seq fold_left]. change (Z.of_nat 0) with 0. change (Z.of_nat 1) with 1.
  cbv zeta. destruct (lfo_rate patch 0 <? 16), (lfo_rate patch 1 <? 16);
    split; try reflexivity; lia.
Qed.

(** The reset cadence stored by [UpdateModulationIncrements] is the product
    of [1 + rate] over the synchronised LFOs, reduced to 8 bits. *)
Lemma UpdateModulationIncrements_cadence beat e :
  0 <= lfo_rate (patch_ e) 0 <= 255 -> 0 <= lfo_rate (patch_ e) 1 <= 255 ->
  let e' := fst (UpdateModulationIncrements beat e) in
  num_lfo_reset_steps_ e' =
    (if Spec.synced_lfos (patch_ e) =? 0 then 0
     else u8 (Spec.reset_cadence (patch_ e))) /\
  lfo_to_reset_ e' = Spec.synced_lfos (patch_ e).
Proof.
  intros R0 R1.
  destruct (reset_cadence_cases (patch_ e)) as [Ec Es]. cbv zeta in Ec, Es.
  rewrite Ec, Es. clear Ec Es.
  unfold UpdateModulationIncrements, kNumLfos. cbn [seq fold_left].
  unfold update_lfo. engine_fields.
  change (Z.of_nat 0) with 0. change (Z.of_nat 1) with 1.
  destruct (Z.ltb_spec (lfo_rate (patch_ e) 0) 16) as [L0|L0]; engine_fields;
    destruct (Z.ltb_spec (lfo_rate (patch_ e) 1) 16) as [L1|L1]; engine_fields;
    unfold Op.UnsignedUnsignedMul;
    change (0 =? 0) with true; cbv iota;
    change (Z.shiftl 1 0) with 1; change (Z.shiftl 1 1) with 2;
    change (Z.lor 0 1) with 1; change (Z.lor 0 2) with 2;
    change (u8 1) with 1; change (u8 2) with 2.
  - rewrite (u8_id (1 + lfo_rate (patch_ e) 0)) by lia.
    rewrite Z.mul_1_l, (u8_id (1 + lfo_rate (patch_ e) 0)) by lia.
    destruct (Z.eqb_spec (1 + lfo_rate (patch_ e) 0) 0); [lia|].
    rewrite (u8_id (1 + lfo_rate (patch_ e) 0)) by lia.
    rewrite (u8_id (1 + lfo_rate (patch_ e) 1)) by lia.
    change (Z.lor 1 2) with 3. change (u8 3) with 3. split; reflexivity.
  - rewrite (u8_id (1 + lfo_rate (patch_ e) 0)) by lia.
    rewrite Z.mul_1_l, Z.mul_1_r. split; reflexivity.
  - rewrite (u8_id (1 + lfo_rate (patch_ e) 1)) by lia.
    rewrite !Z.mul_1_l. split; reflexivity.
  - split; reflexivity.
Qed.

Lemma render_lfos_fields inp e :
  let e' := render_lfos inp e in
  patch_ e' = patch_ e /\ num_lfo_reset_steps_ e' = num_lfo_reset_steps_ e /\
  lfo_to_reset_ e' = lfo_to_reset_ e /\
  lfo_reset_counter_ e' = lfo_reset_counter_ e /\
  nrpn_parameter_number_ e' = nrpn_parameter_number_ e /\
  voice_ e' = voice_ e /\ length (lfo_ e') = length (lfo_ e).
Proof.
  unfold render_lfos, kNumLfos. cbn [seq fold_left]. engine_fields.
  rewrite !length_alter. repeat apply conj; reflexivity.
Qed.

Lemma control_engine_idle p steps mask inp e :
  controller_control inp = false -> between_resets p steps mask e ->
  between_resets p steps mask (fst (control_engine inp e)) /\
  lfo_reset_counter_ (fst (control_engine inp e)) = lfo_reset_counter_ e.
Proof.
  intros Hc (Hp & Hn & Hm & Hl). unfold control_engine. rewrite Hc.
  destruct (render_lfos_fields inp e) as (F1 & F2 & F3 & F4 & _ & _ & F7).
  cbv zeta in *. unfold between_resets. engine_fields.
  repeat apply conj; congruence.
Qed.

Lemma control_engine_count p steps mask inp e :
  controller_control inp = true -> between_resets p steps mask e ->
  u8 (lfo_reset_counter_ e + 1) <> steps ->
  between_resets p steps mask (fst (control_engine inp e)) /\
  lfo_reset_counter_ (fst (control_engine inp e)) = u8 (lfo_reset_counter_ e + 1).
Proof.
  intros Hc (Hp & Hn & Hm & Hl) Hne. unfold control_engine. rewrite Hc.
  destruct (render_lfos_fields inp e) as (F1 & F2 & F3 & F4 & _ & _ & F7).
  cbv zeta in *. unfold step_advanced. engine_fields. rewrite F4, F2, Hn.
  destruct (Z.eqb_spec (u8 (lfo_reset_counter_ e + 1)) steps); [contradiction|].
  unfold between_resets. engine_fields. repeat apply conj; congruence.
Qed.

Lemma reset_lfos_two e l0 l1 :
  lfo_ e = [l0; l1] ->
  reset_lfos e =
  set_lfo [if negb (Z.land (lfo_to_reset_ e) 1 =? 0) then Lfo.Reset l0 else l0;
           if negb (Z.land (lfo_to_reset_ e) 2 =? 0) then Lfo.Reset l1 else l1] e.
Proof.
  intros El. unfold reset_lfos, kNumLfos. cbn [seq fold_left].
  change (Z.shiftl 1 (Z.of_nat 0)) with 1. change (Z.shiftl 1 (Z.of_nat 1)) with 2.
  destruct e as [p s d l n st c m v]. engine_fields. subst l.
  destruct (negb (Z.land m 1 =? 0)); engine_fields;
    destruct (negb (Z.land m 2 =? 0)); reflexivity.
Qed.

(** The LFOs marked in the mask of a patch have a zero phase after
    [reset_lfos]. *)
Lemma reset_lfos_phases e :
  length (lfo_ e) = 2%nat ->
  lfo_to_reset_ e = Spec.synced_lfos (patch_ e) ->
  let e' := reset_lfos e in
  patch_ e' = patch_ e /\ num_lfo_reset_steps_ e' = num_lfo_reset_steps_ e /\
  lfo_to_reset_ e' = lfo_to_reset_ e /\ length (lfo_ e') = 2%nat /\
  forall (i : nat) l,
    lfo_rate (patch_ e) (Z.of_nat i) < 16 -> lfo_ e' !! i = Some l ->
    Lfo.phase_ l = 0.
Proof.
  intros Hl Hm.
  destruct (reset_cadence_cases (patch_ e)) as [_ Es]. cbv zeta in Es.
  rewrite Es in Hm. clear Es.
  destruct (lfo_ e) as [|l0 [|l1 [|]]] eqn:El; try discriminate.
  cbv zeta. rewrite (reset_lfos_two e l0 l1 El). engine_fields.
  repeat apply conj; try reflexivity.
  intros i l Hi Hlk. rewrite Hm in Hlk.
  destruct i as [|[|i]]; cbn [lookup list_lookup] in Hlk; [| |discriminate].
  - change (Z.of_nat 0) with 0 in Hi.
    destruct (Z.ltb_spec (lfo_rate (patch_ e) 0) 16); [|lia].
    destruct (lfo_rate (patch_ e) 1 <? 16); injection Hlk as <-; reflexivity.
  - change (Z.of_nat 1) with 1 in Hi.
    destruct (Z.ltb_spec (lfo_rate (patch_ e) 1) 16); [|lia].
    destruct (lfo_rate (patch_ e) 0 <? 16); injection Hlk as <-; reflexivity.
Qed.

Lemma control_engine_reset inp e :
  controller_control inp = true -> length (lfo_ e) = 2%nat ->
  0 <= lfo_rate (patch_ e) 0 <= 255 -> 0 <= lfo_rate (patch_ e) 1 <= 255 ->
  u8 (lfo_reset_counter_ e + 1) = num_lfo_reset_steps_ e ->
  let e' := fst (control_engine inp e) in
  lfo_reset_counter_ e' = 0 /\ patch_ e' = patch_ e /\
  forall (i : nat) l,
    lfo_rate (patch_ e) (Z.of_nat i) < 16 -> lfo_ e' !! i = Some l ->
    Lfo.phase_ l = 0.
Proof.
  intros Hc Hl R0 R1 Heq. unfold control_engine. rewrite Hc.
  destruct (render_lfos_fields inp e) as (F1 & F2 & F3 & F4 & _ & _ & F7).
  cbv zeta in *. unfold step_advanced. engine_fields. rewrite F4, F2, Heq.
  rewrite Z.eqb_refl.
  set (e1 := set_lfo_reset_counter _ _).
  assert (P1 : patch_ e1 = patch_ e) by (unfold e1; engine_fields; exact F1).
  assert (L1 : length (lfo_ e1) = 2%nat) by (unfold e1; engine_fields; congruence).
  destruct (UpdateModulationIncrements (estimated_beat_duration inp) e1)
    as [e2 calls] eqn:E2.
  pose proof (UpdateModulationIncrements_fields (estimated_beat_duration inp) e1) as F.
  pose proof (UpdateModulationIncrements_cadence (estimated_beat_duration inp) e1) as C.
  rewrite E2 in F, C. cbv zeta in F, C. engine_fields.
  destruct F as (G1 & _ & _ & _ & _ & _ & G7).
  destruct C as [_ C2]; [rewrite P1; exact R0|rewrite P1; exact R1|].
  destruct (reset_lfos_phases e2) as (Q1 & _ & _ & _ & Q5);
    [congruence|congruence|].
  cbv zeta in *. repeat apply conj; [reflexivity|congruence|].
  intros i l Hi Hlk. apply (Q5 i l); [rewrite G1, P1; exact Hi|exact Hlk].
Qed.

Lemma step_notifications_cons inp ticks :
  step_notifications (inp :: ticks) =
  (if controller_control inp then 1 else 0) + step_notifications ticks.
Proof.
  unfold step_notifications. cbn [List.filter].
  destruct (controller_control inp); cbn [length]; lia.
Qed.

Lemma step_notifications_nonneg ticks : 0 <= step_notifications ticks.
Proof. unfold step_notifications. lia. Qed.

(** While fewer step notifications than the cadence have been observed, the
    counter counts them and nothing is reset. *)
Lemma run_counts_notifications p cadence mask ticks : forall e,
  1 <= cadence <= 256 ->
  between_resets p (u8 cadence) mask e ->
  0 <= lfo_reset_counter_ e ->
  lfo_reset_counter_ e + step_notifications ticks < cadence ->
  between_resets p (u8 cadence) mask (run_control_engine ticks e) /\
  lfo_reset_counter_ (run_control_engine ticks e) =
    lfo_reset_counter_ e + step_notifications ticks.
Proof.
  induction ticks as [|inp ticks IH]; intros e Hc Hb Hz Hlt.
  - cbn. unfold step_notifications. cbn. split; [exact Hb|lia].
  - rewrite step_notifications_cons in *.
    pose proof (step_notifications_nonneg ticks) as Hn.
    change (run_control_engine (inp :: ticks) e)
      with (run_control_engine ticks (fst (control_engine inp e))).
    destruct (controller_control inp) eqn:Ec.
    + assert (Hu : u8 (lfo_reset_counter_ e + 1) = lfo_reset_counter_ e + 1)
        by (apply u8_id; lia).
      destruct (control_engine_count p (u8 cadence) mask inp e Ec Hb) as [Hb' Hc'].
      { rewrite Hu. unfold u8.
        destruct (Z.eq_dec cadence 256) as [->|];
          [change (256 mod 256) with 0; lia|].
        rewrite Z.mod_small by lia. lia. }
      rewrite Hu in Hc'.
      destruct (IH _ Hc Hb') as [Hb'' Hc'']; [lia|lia|].
      split; [exact Hb''|lia].
    + destruct (control_engine_idle p (u8 cadence) mask inp e Ec Hb) as [Hb' Hc'].
      destruct (IH _ Hc Hb') as [Hb'' Hc'']; [lia|lia|].
      split; [exact Hb''|lia].
Qed.

Lemma run_control_engine_app ticks1 ticks2 e :
  run_control_engine (ticks1 ++ ticks2) e =
  run_control_engine ticks2 (run_control_engine ticks1 e).
Proof. unfold run_control_engine. apply fold_left_app. Qed.

(** The head of [Control] advances each of the two LFOs once. *)
Lemma render_lfos_advance inp e :
  length (lfo_ e) = 2%nat ->
  lfo_ (render_lfos inp e) = map Lfo.Increment (lfo_ e).
Proof.
  intros Hl. destruct (lfo_ e) as [|l0 [|l1 [|]]] eqn:El; try discriminate.
  unfold render_lfos, kNumLfos. cbn [seq fold_left]. engine_fields.
  rewrite El. reflexivity.
Qed.

(** A tick that does not complete the cadence advances the LFOs and does
    nothing else to them. *)
Lemma control_engine_advances inp e :
  length (lfo_ e) = 2%nat ->
  (controller_control inp = true ->
   u8 (lfo_reset_counter_ e + 1) <> num_lfo_reset_steps_ e) ->
  lfo_ (fst (control_engine inp e)) = map Lfo.Increment (lfo_ e).
Proof.
  intros Hl Hne. unfold control_engine.
  destruct (render_lfos_fields inp e) as (_ & F2 & _ & F4 & _).
  pose proof (render_lfos_advance inp e Hl) as Ha.
  cbv zeta in *. destruct (controller_control inp).
  - unfold step_advanced. engine_fields. rewrite F4, F2.
    destruct (Z.eqb_spec (u8 (lfo_reset_counter_ e + 1)) (num_lfo_reset_steps_ e))
      as [E|_]; [destruct (Hne eq_refl E)|].
    engine_fields. exact Ha.
  - engine_fields. exact Ha.
Qed.

Lemma map_iter_succ {A} (f : A -> A) n l :
  map (Nat.iter n f) (map f l) = map (Nat.iter (S n) f) l.
Proof.
  rewrite map_map. apply map_ext. intros x. symmetry. apply Nat.iter_succ_r.
Qed.

(** While fewer step notifications than the cadence have been observed, the
    LFOs are advanced once per tick: none is reset, none is updated. *)
Lemma run_advances_lfos p cadence mask ticks : forall e,
  1 <= cadence <= 256 ->
  between_resets p (u8 cadence) mask e ->
  0 <= lfo_reset_counter_ e ->
  lfo_reset_counter_ e + step_notifications ticks < cadence ->
  lfo_ (run_control_engine ticks e) =
    map (Nat.iter (length ticks) Lfo.Increment) (lfo_ e).
Proof.
  induction ticks as [|inp ticks IH]; intros e Hc Hb Hz Hlt.
  - cbn [run_control_engine fold_left length Nat.iter nat_rect].
    unfold run_control_engine. cbn [fold_left]. symmetry. apply map_id.
  - rewrite step_notifications_cons in Hlt.
    pose proof (step_notifications_nonneg ticks) as Hn.
    change (run_control_engine (inp :: ticks) e)
      with (run_control_engine ticks (fst (control_engine inp e))).
    assert (Hu : controller_control inp = true ->
                 u8 (lfo_reset_counter_ e + 1) <> u8 cadence).
    { intros Ec. rewrite Ec in Hlt.
      rewrite (u8_id (lfo_reset_counter_ e + 1)) by lia. unfold u8.
      destruct (Z.eq_dec cadence 256) as [->|];
        [change (256 mod 256) with 0; lia|].
      rewrite Z.mod_small by lia. lia. }
    assert (Ha : lfo_ (fst (control_engine inp e)) = map Lfo.Increment (lfo_ e)).
    { destruct Hb as (_ & Hs & _ & Hl). apply control_engine_advances;
        [exact Hl|rewrite Hs; exact Hu]. }
    cbn [length]. rewrite <- map_iter_succ, <- Ha.
    destruct (controller_control inp) eqn:Ec.
    + destruct (control_engine_count p (u8 cadence) mask inp e Ec Hb (Hu eq_refl))
        as [Hb' Hc'].
      rewrite (u8_id (lfo_reset_counter_ e + 1)) in Hc' by lia.
      apply IH; [exact Hc|exact Hb'|lia|lia].
    + destruct (control_engine_idle p (u8 cadence) mask inp e Ec Hb) as [Hb' Hc'].
      apply IH; [exact Hc|exact Hb'|lia|lia].
Qed.

(** C7 (amended): [UpdateModulationIncrements] stores, as the reset cadence,
    the product of [1 + rate] over the tempo-synchronised LFOs reduced
    modulo 256 (so 0 for the rates 15 and 15), and marks the synchronised
    LFOs.  Counted from a reset counter at zero and with the patch unchanged,
    while the step notifications are fewer than the product the counter
    counts them and the LFOs are only advanced, once per tick: no phase is
    reset before the cadence.  At the notification that completes the
    product the phases of all the synchronised LFOs are zero and the counter
    is zero again. *)
Theorem lfo_resync_cadence beat e0 ticks last :
  let e := fst (UpdateModulationIncrements beat e0) in
  let cadence := Spec.reset_cadence (patch_ e0) in
  0 <= lfo_rate (patch_ e0) 0 <= 255 ->
  0 <= lfo_rate (patch_ e0) 1 <= 255 ->
  Spec.synced_lfos (patch_ e0) <> 0 ->
  length (lfo_ e0) = 2%nat ->
  lfo_reset_counter_ e0 = 0 ->
  step_notifications ticks < cadence ->
  controller_control last = true ->
  num_lfo_reset_steps_ e = u8 cadence /\
  lfo_to_reset_ e = Spec.synced_lfos (patch_ e0) /\
  1 <= cadence <= 256 /\
  lfo_reset_counter_ (run_control_engine ticks e) = step_notifications ticks /\
  lfo_ (run_control_engine ticks e) =
    map (Nat.iter (length ticks) Lfo.Increment) (lfo_ e) /\
  (step_notifications ticks = cadence - 1 ->
   let e' := run_control_engine (ticks ++ [last]) e in
   lfo_reset_counter_ e' = 0 /\
   forall (i : nat) l,
     lfo_rate (patch_ e0) (Z.of_nat i) < 16 -> lfo_ e' !! i = Some l ->
     Lfo.phase_ l = 0).
Proof.
  intros e cadence R0 R1 Hs Hl Hc Hlt Hlast.
  destruct (UpdateModulationIncrements_fields beat e0) as (F1 & _ & _ & F4 & _ & _ & F7).
  destruct (UpdateModulationIncrements_cadence beat e0 R0 R1) as [C1 C2].
  fold e in F1, F4, F7, C1, C2. fold cadence in C1.
  destruct (Z.eqb_spec (Spec.synced_lfos (patch_ e0)) 0); [contradiction|].
  assert (Hcad : 1 <= cadence <= 256).
  { unfold cadence. destruct (reset_cadence_cases (patch_ e0)) as [-> _].
    cbv zeta. destruct (Z.ltb_spec (lfo_rate (patch_ e0) 0) 16),
      (Z.ltb_spec (lfo_rate (patch_ e0) 1) 16); nia. }
  assert (Hb : between_resets (patch_ e0) (u8 cadence) (Spec.synced_lfos (patch_ e0)) e).
  { unfold between_resets. repeat apply conj; congruence. }
  destruct (run_counts_notifications _ _ _ ticks e Hcad Hb) as [Hb' Hc'];
    [lia|lia|].
  pose proof (run_advances_lfos _ _ _ ticks e Hcad Hb) as Ha.
  rewrite F4, Hc, Z.add_0_l in Hc'.
  repeat apply conj; try assumption; try lia.
  - apply Ha; lia.
  - intros Hfull e'. unfold e'. rewrite run_control_engine_app.
    change (run_control_engine [last] ?x) with (fst (control_engine last x)).
    destruct Hb' as (B1 & B2 & B3 & B4).
    destruct (control_engine_reset last (run_control_engine ticks e) Hlast B4)
      as (Q1 & Q2 & Q3); rewrite ?B1; try assumption.
    + rewrite Hc', Hfull, B2. f_equal. lia.
    + split; [exact Q1|]. intros i l Hi Hlk. apply (Q3 i l); [|exact Hlk].
      rewrite B1. exact Hi.
Qed.

End LfoSync.

(** ** The oscillator mix *)

Section AudioMix.
Context `{Headers} `{Resources}.
Import Voice.

(** C8 (amended): on a voice that is not dead and with the XOR operator
    selected, [Voice::Audio] combines the two oscillator samples by bitwise
    exclusive-or and adds the resolved mix balance; that value is the
    rendered sample when oscillator 1 plays the vowel waveform, and is
    otherwise blended with the sub-oscillator and noise samples.  With the
    samples 0b10110010 and 0b01101100, a mix balance of 0 and the vowel
    waveform the rendered sample is their exclusive-or. *)
Theorem xor_mix patch inp v :
  dead_ v = 0 -> osc_option patch 0 = XOR -> XOR <> RING_MOD ->
  let destinations := modulation_destinations_ v in
  let mixed :=
    u8 (u8 (Z.lxor (u8 (osc1_render inp)) (u8 (osc2_render inp))) +
        peek destinations MOD_DST_MIX_BALANCE) in
  signal_ (fst (Audio patch inp v)) =
    (if osc_shape patch 0 =? WAVEFORM_VOWEL then mixed
     else Op.Mix (Op.Mix mixed (sub_osc_render inp)
                         (peek destinations MOD_DST_MIX_SUB_OSC))
                 (random_state_msb inp)
                 (peek destinations MOD_DST_MIX_NOISE)) /\
  (osc1_render inp = 178 -> osc2_render inp = 108 ->
   peek destinations MOD_DST_MIX_BALANCE = 0 ->
   osc_shape patch 0 = WAVEFORM_VOWEL ->
   signal_ (fst (Audio patch inp v)) = Z.lxor 178 108).
Proof.
  intros Hd Hx Hne destinations mixed.
  assert (E : signal_ (fst (Audio patch inp v)) =
              if osc_shape patch 0 =? WAVEFORM_VOWEL then mixed
              else Op.Mix (Op.Mix mixed (sub_osc_render inp)
                                  (peek destinations MOD_DST_MIX_SUB_OSC))
                          (random_state_msb inp)
                          (peek destinations MOD_DST_MIX_NOISE)).
  { unfold Audio. rewrite Hd, Hx. change (negb (0 =? 0)) with false. cbv iota.
    destruct (Z.eqb_spec XOR RING_MOD); [contradiction|]. rewrite Z.eqb_refl.
    destruct (osc_shape patch 0 =? WAVEFORM_VOWEL); reflexivity. }
  split; [exact E|].
  intros E1 E2 Eb Ev. rewrite E, Ev, Z.eqb_refl. unfold mixed.
  rewrite E1, E2, Eb. reflexivity.
Qed.

End AudioMix.

(** ** Parameter dispatch *)

Section Dispatch.
Context `{Headers} `{Resources}.
Import SynthesisEngine.

Ltac engine_fields :=
  cbn [patch_ modulation_sources_ oscillator_decimation_ lfo_
       nrpn_parameter_number_ num_lfo_reset_steps_ lfo_reset_counter_
       lfo_to_reset_ voice_ set_patch set_modulation_sources
       set_oscillator_decimation set_lfo set_nrpn_parameter_number
       set_lfo_reset set_lfo_reset_counter set_voice fst snd] in *.

Lemma distinct_bytes_spec l :
  Spec.distinct_bytes l = true -> NoDup l /\ Forall (fun x => 0 <= x <= 255) l.
Proof.
  unfold Spec.distinct_bytes. intros E.
  apply andb_true_iff in E as [E1 E2]. split.
  - now apply bool_decide_eq_true in E1.
  - apply Forall_forall. intros d Hd. rewrite forallb_forall in E2.
    specialize (E2 d). rewrite <- list_elem_of_In in E2. specialize (E2 Hd). lia.
Qed.

Lemma store_in_range (a : list Z) i x :
  0 <= i < Z.of_nat (length a) -> store a i x = Some (poke a i x).
Proof.
  intros Hi. unfold store.
  destruct (Z.leb_spec 0 i); [|lia].
  destruct (Z.ltb_spec i (Z.of_nat (length a))); [reflexivity|lia].
Qed.

Lemma store_out_of_range (a : list Z) i x :
  Z.of_nat (length a) <= i -> store a i x = None.
Proof.
  intros Hi. unfold store.
  destruct (Z.ltb_spec i (Z.of_nat (length a))); [lia|].
  now rewrite andb_false_r.
Qed.

Lemma filter_controller_app c1 c2 :
  List.filter Spec.is_controller_call (c1 ++ c2) =
  List.filter Spec.is_controller_call c1 ++ List.filter Spec.is_controller_call c2.
Proof. apply List.filter_app. Qed.

(** [UpdateModulationIncrements] calls the envelopes only. *)
Lemma UpdateModulationIncrements_calls beat e :
  List.filter Spec.is_controller_call (snd (UpdateModulationIncrements beat e)) = [].
Proof.
  assert (Hmap : forall (f : nat -> Call) l,
             (forall j, Spec.is_controller_call (f j) = false) ->
             List.filter Spec.is_controller_call (map f l) = []).
  { intros f l Hf. induction l as [|j l IH]; [reflexivity|].
    cbn [map List.filter]. now rewrite Hf. }
  assert (Hstep : forall acc i,
             List.filter Spec.is_controller_call (snd acc) = [] ->
             List.filter Spec.is_controller_call (snd (update_lfo beat acc i)) = []).
  { intros [e1 c1] i Hc. unfold update_lfo.
    destruct (lfo_rate (patch_ e1) (Z.of_nat i) <? 16); cbn [snd] in *;
      rewrite filter_controller_app, Hc, Hmap; reflexivity. }
  unfold UpdateModulationIncrements, kNumLfos. cbn [seq fold_left].
  apply Hstep, Hstep. reflexivity.
Qed.

Lemma forward_to_controller_spec inp index value e :
  patch_ (fst (forward_to_controller inp index value e)) = patch_ e /\
  nrpn_parameter_number_ (fst (forward_to_controller inp index value e)) =
    nrpn_parameter_number_ e /\
  List.filter Spec.is_controller_call (snd (forward_to_controller inp index value e)) =
    (if index =? PRM_ARP_TEMPO then [ControllerSetTempo value]
     else if index =? PRM_ARP_OCTAVE then [ControllerSetOctaves value]
     else if index =? PRM_ARP_PATTERN then [ControllerSetPattern value]
     else if index =? PRM_ARP_SWING then [ControllerSetSwing value]
     else if index =? PRM_ARP_PATTERN_SIZE then [Controller_set_pattern_size value]
     else []).
Proof.
  unfold forward_to_controller.
  destruct (index =? PRM_ARP_TEMPO).
  - pose proof (UpdateModulationIncrements_fields
                  (beat_duration_after_SetTempo inp) e) as F.
    pose proof (UpdateModulationIncrements_calls
                  (beat_duration_after_SetTempo inp) e) as C.
    destruct (UpdateModulationIncrements _ e) as [e' calls].
    cbv zeta in F. cbn [fst snd] in *. destruct F as (F1 & _ & F3 & _).
    cbn [List.filter Spec.is_controller_call]. rewrite C. auto.
  - destruct (index =? PRM_ARP_OCTAVE); [auto|].
    destruct (index =? PRM_ARP_PATTERN); [auto|].
    destruct (index =? PRM_ARP_SWING); [auto|].
    destruct (index =? PRM_ARP_PATTERN_SIZE); auto.
Qed.

(** What [SetParameter] does inside the patch. *)
Lemma SetParameter_in_range inp index value e :
  0 <= index <= 255 -> 0 <= value <= 255 ->
  index + 1 < Z.of_nat (length (patch_ e)) ->
  exists e' calls,
    SetParameter inp index value e = Some (e', calls) /\
    patch_ e' = poke (patch_ e) (index + 1) value /\
    nrpn_parameter_number_ e' = nrpn_parameter_number_ e /\
    List.filter Spec.is_controller_call calls =
      List.filter Spec.is_controller_call
        (snd (forward_to_controller inp index value e)).
Proof.
  intros Hi Hv Hlen. unfold SetParameter.
  rewrite (u8_id index), (u8_id value) by lia.
  rewrite store_in_range by lia. cbn [mbind option_bind].
  set (e1 := set_patch _ e).
  set (r1 := if (PRM_ENV_ATTACK_1 <=? index) && (index <=? PRM_LFO_RATE_2)
             then UpdateModulationIncrements (beat_duration inp) e1 else (e1, [])).
  assert (R1 : patch_ (fst r1) = patch_ e1 /\
               nrpn_parameter_number_ (fst r1) = nrpn_parameter_number_ e1 /\
               List.filter Spec.is_controller_call (snd r1) = []).
  { unfold r1. destruct ((PRM_ENV_ATTACK_1 <=? index) && (index <=? PRM_LFO_RATE_2)).
    - pose proof (UpdateModulationIncrements_fields (beat_duration inp) e1) as F.
      cbv zeta in F. destruct F as (F1 & _ & F3 & _).
      split; [exact F1|]. split; [exact F3|].
      apply UpdateModulationIncrements_calls.
    - auto. }
  destruct r1 as [e2 calls1]. cbn [fst snd] in R1. destruct R1 as (P2 & N2 & C1).
  set (calls2 := if (index <=? PRM_OSC_SHAPE_2) || (index =? PRM_MIX_SUB_OSC_SHAPE)
                 then UpdateOscillatorAlgorithms e2 else []).
  assert (C2 : List.filter Spec.is_controller_call calls2 = []).
  { unfold calls2. destruct ((index <=? PRM_OSC_SHAPE_2) || (index =? PRM_MIX_SUB_OSC_SHAPE));
      reflexivity. }
  destruct (forward_to_controller_spec inp index value e2) as (P3 & N3 & C3).
  destruct (forward_to_controller_spec inp index value e) as (_ & _ & C3').
  destruct (forward_to_controller inp index value e2) as [e3 calls3].
  cbn [fst snd] in *. eexists _, _. split; [reflexivity|].
  split; [rewrite P3, P2; reflexivity|]. split; [rewrite N3, N2; reflexivity|].
  rewrite !filter_controller_app, C1, C2, C3, C3'. reflexivity.
Qed.

(** C9: for an index inside the patch, [SetParameter] stores the value in
    the byte [index + 1] of the patch and leaves the other bytes alone; when
    the index is the arpeggiator tempo, octave, pattern, swing or pattern
    size, the same value is forwarded to the note dispatcher by the matching
    call, and nothing is forwarded otherwise. *)
Theorem SetParameter_dispatch inp index value e :
  0 <= index <= 255 -> 0 <= value <= 255 ->
  index + 1 < Z.of_nat (length (patch_ e)) ->
  Spec.distinct_bytes Spec.arpeggiator_parameters = true ->
  exists e' calls,
    SetParameter inp index value e = Some (e', calls) /\
    peek (patch_ e') (index + 1) = value /\
    (forall j, 0 <= j -> j <> index + 1 ->
               peek (patch_ e') j = peek (patch_ e) j) /\
    length (patch_ e') = length (patch_ e) /\
    let forwarded := List.filter Spec.is_controller_call calls in
    (index = PRM_ARP_TEMPO -> forwarded = [ControllerSetTempo value]) /\
    (index = PRM_ARP_OCTAVE -> forwarded = [ControllerSetOctaves value]) /\
    (index = PRM_ARP_PATTERN -> forwarded = [ControllerSetPattern value]) /\
    (index = PRM_ARP_SWING -> forwarded = [ControllerSetSwing value]) /\
    (index = PRM_ARP_PATTERN_SIZE ->
     forwarded = [Controller_set_pattern_size value]) /\
    (~ In index Spec.arpeggiator_parameters -> forwarded = []).
Proof.
  intros Hi Hv Hlen Hd.
  destruct (SetParameter_in_range inp index value e Hi Hv Hlen)
    as (e' & calls & E & P & _ & C).
  destruct (forward_to_controller_spec inp index value e) as (_ & _ & F).
  rewrite F in C. clear F.
  apply distinct_bytes_spec in Hd as [Hd _].
  unfold Spec.arpeggiator_parameters in *. distinct_from Hd.
  exists e', calls. split; [exact E|]. rewrite P.
  split; [apply peek_poke_eq; lia|].
  split; [intros j Hj Hne; apply peek_poke_ne; lia|].
  split; [apply length_poke|]. cbv zeta. rewrite C.
  repeat apply conj.
  - intros ->. now rewrite Z.eqb_refl.
  - intros ->. rewrite Z.eqb_refl.
    destruct (Z.eqb_spec PRM_ARP_OCTAVE PRM_ARP_TEMPO); [congruence|reflexivity].
  - intros ->. rewrite Z.eqb_refl.
    destruct (Z.eqb_spec PRM_ARP_PATTERN PRM_ARP_TEMPO); [congruence|].
    destruct (Z.eqb_spec PRM_ARP_PATTERN PRM_ARP_OCTAVE); [congruence|reflexivity].
  - intros ->. rewrite Z.eqb_refl.
    destruct (Z.eqb_spec PRM_ARP_SWING PRM_ARP_TEMPO); [congruence|].
    destruct (Z.eqb_spec PRM_ARP_SWING PRM_ARP_OCTAVE); [congruence|].
    destruct (Z.eqb_spec PRM_ARP_SWING PRM_ARP_PATTERN); [congruence|reflexivity].
  - intros ->. rewrite Z.eqb_refl.
    destruct (Z.eqb_spec PRM_ARP_PATTERN_SIZE PRM_ARP_TEMPO); [congruence|].
    destruct (Z.eqb_spec PRM_ARP_PATTERN_SIZE PRM_ARP_OCTAVE); [congruence|].
    destruct (Z.eqb_spec PRM_ARP_PATTERN_SIZE PRM_ARP_PATTERN); [congruence|].
    destruct (Z.eqb_spec PRM_ARP_PATTERN_SIZE PRM_ARP_SWING); [congruence|reflexivity].
  - intros Hn. cbn [In] in Hn.
    destruct (Z.eqb_spec index PRM_ARP_TEMPO); [exfalso; apply Hn; auto 10|].
    destruct (Z.eqb_spec index PRM_ARP_OCTAVE); [exfalso; apply Hn; auto 10|].
    destruct (Z.eqb_spec index PRM_ARP_PATTERN); [exfalso; apply Hn; auto 10|].
    destruct (Z.eqb_spec index PRM_ARP_SWING); [exfalso; apply Hn; auto 10|].
    destruct (Z.eqb_spec index PRM_ARP_PATTERN_SIZE);
      [exfalso; apply Hn; auto 10|reflexivity].
Qed.

(** A data-entry message reaches the NRPN guard. *)
Lemma ControlChange_data_entry inp channel controller value e :
  kDataEntryMsb <> kModulationWheelMsb ->
  u8 controller = kDataEntryMsb ->
  ControlChange inp channel controller value e =
    if nrpn_parameter_number_ e <? sizeof_Patch - 1
    then SetParameter inp (nrpn_parameter_number_ e) (u8 value) e
    else Some (e, []).
Proof.
  intros Hne Hc. unfold ControlChange. rewrite Hc.
  destruct (Z.eqb_spec kDataEntryMsb kModulationWheelMsb); [contradiction|].
  now rewrite Z.eqb_refl.
Qed.

(** A message that is neither a data entry nor an NRPN selection is handled
    and leaves the NRPN number alone. *)
Lemma ControlChange_keeps_nrpn inp channel controller value e :
  u8 controller <> kDataEntryMsb -> u8 controller <> kNrpnMsb ->
  exists e' calls,
    ControlChange inp channel controller value e = Some (e', calls) /\
    nrpn_parameter_number_ e' = nrpn_parameter_number_ e.
Proof.
  intros Hd Hn. unfold ControlChange.
  destruct (u8 controller =? kModulationWheelMsb); [eexists _, _; split; reflexivity|].
  destruct (Z.eqb_spec (u8 controller) kDataEntryMsb); [contradiction|].
  destruct (u8 controller =? kPortamentoTimeMsb); [eexists _, _; split; reflexivity|].
  destruct (u8 controller =? kRelease); [eexists _, _; split; reflexivity|].
  destruct (u8 controller =? kAttack); [eexists _, _; split; reflexivity|].
  destruct (u8 controller =? kHarmonicIntensity); [eexists _, _; split; reflexivity|].
  destruct (u8 controller =? kBrightness); [eexists _, _; split; reflexivity|].
  destruct (Z.eqb_spec (u8 controller) kNrpnMsb); [contradiction|].
  eexists _, _; split; reflexivity.
Qed.

(** C10: a data-entry message writes a patch parameter only when the stored
    NRPN number is below [sizeof(Patch) - 1]; with the number at its initial
    value 0xff it leaves the whole engine state unchanged and calls nothing,
    and in a sequence of messages without an NRPN selection every data-entry
    message can be dropped without changing the outcome. *)
Theorem data_entry_guard inp e :
  Spec.distinct_bytes Spec.midi_controllers = true ->
  sizeof_Patch <= 256 ->
  (forall channel value,
     ControlChange inp channel kDataEntryMsb value e =
       if nrpn_parameter_number_ e <? sizeof_Patch - 1
       then SetParameter inp (nrpn_parameter_number_ e) (u8 value) e
       else Some (e, [])) /\
  (nrpn_parameter_number_ e = 255 ->
   (forall channel value,
      ControlChange inp channel kDataEntryMsb value e = Some (e, [])) /\
   (forall messages,
      Forall (fun m => u8 (snd (fst m)) <> kNrpnMsb) messages ->
      run_control_changes inp messages e =
      run_control_changes inp
        (List.filter (fun m => negb (u8 (snd (fst m)) =? kDataEntryMsb)) messages)
        e)).
Proof.
  intros Hd Hsize. apply distinct_bytes_spec in Hd as [Hd Hb].
  unfold Spec.midi_controllers in Hd, Hb.
  apply Forall_cons in Hb as [_ Hb]. apply Forall_cons in Hb as [Hb _].
  apply NoDup_cons in Hd as [Hd _].
  assert (Hne : kDataEntryMsb <> kModulationWheelMsb).
  { intros Heq. apply Hd. rewrite <- Heq. apply list_elem_of_here. }
  assert (Hu : u8 kDataEntryMsb = kDataEntryMsb) by (apply u8_id; lia).
  assert (Hquiet : forall e0 channel controller value,
             nrpn_parameter_number_ e0 = 255 -> u8 controller = kDataEntryMsb ->
             ControlChange inp channel controller value e0 = Some (e0, [])).
  { intros e0 channel controller value E Hc.
    rewrite ControlChange_data_entry by assumption. rewrite E.
    destruct (Z.ltb_spec 255 (sizeof_Patch - 1)); [lia|reflexivity]. }
  split; [intros; apply ControlChange_data_entry; assumption|].
  intros E. split; [intros; apply Hquiet; assumption|].
  intros messages. revert e E.
  induction messages as [|[[channel controller] value] messages IH];
    intros e E Hall; [reflexivity|].
  apply Forall_cons in Hall as [Hn Hall]. cbn [fst snd] in Hn.
  cbn [List.filter fst snd].
  destruct (Z.eqb_spec (u8 controller) kDataEntryMsb) as [Hc|Hc]; cbn [negb].
  - cbn [run_control_changes]. rewrite (Hquiet e channel controller value E Hc).
    cbn [mbind option_bind fst snd]. rewrite <- (IH e E Hall).
    destruct (run_control_changes inp messages e) as [[e' calls]|]; reflexivity.
  - cbn [run_control_changes].
    destruct (ControlChange_keeps_nrpn inp channel controller value e Hc Hn)
      as (e1 & calls1 & E1 & N1).
    rewrite E1. cbn [mbind option_bind fst snd].
    rewrite (IH e1) by (congruence || exact Hall). reflexivity.
Qed.

End Dispatch.

(** * Further properties of the engine

    ** Pitch resolution *)

Section PitchResolution.
Context `{Headers} `{Resources}.
Import Voice.

(** The upward loop of the range wrap ends at the first transposition that
    is not below [kLowestNote]. *)
Lemma wrap_up_loop (n : nat) : forall pitch fuel,
  0 < kOctave -> kLowestNote + kOctave <= 32767 ->
  -32768 <= pitch <= 32767 ->
  kLowestNote - pitch <= Z.of_nat n -> (n < fuel)%nat ->
  exists k,
    0 <= k /\
    while fuel (fun p => p <? kLowestNote) (fun p => i16 (p + kOctave)) pitch =
      Some (pitch + k * kOctave) /\
    kLowestNote <= pitch + k * kOctave /\
    (k = 0 \/ pitch + k * kOctave < kLowestNote + kOctave).
Proof.
  induction n as [|n IH]; intros pitch fuel Ho Hl Hp Hn Hf.
  - exists 0. rewrite while_done by (try apply Z.ltb_ge; lia).
    repeat apply conj; first [f_equal; lia | lia].
  - destruct (Z.lt_ge_cases pitch kLowestNote) as [Hlt|Hge].
    + destruct fuel as [|fuel]; [lia|].
      rewrite while_step by (apply Z.ltb_lt; exact Hlt).
      rewrite i16_id by lia.
      destruct (IH (pitch + kOctave) fuel) as (k & Hk & E & R1 & R2);
        try lia.
      exists (k + 1). rewrite E.
      repeat apply conj; first [f_equal; lia | lia].
    + exists 0. rewrite while_done by (try apply Z.ltb_ge; lia).
      repeat apply conj; first [f_equal; lia | lia].
Qed.

(** The downward loop of the range wrap ends at the first transposition
    below [kHighestNote]. *)
Lemma wrap_down_loop (n : nat) : forall pitch fuel,
  0 < kOctave -> -32768 <= kHighestNote - kOctave ->
  -32768 <= pitch <= 32767 ->
  pitch - kHighestNote < Z.of_nat n -> (n < fuel)%nat ->
  exists k,
    0 <= k /\
    while fuel (fun p => kHighestNote <=? p) (fun p => i16 (p - kOctave)) pitch =
      Some (pitch - k * kOctave) /\
    pitch - k * kOctave < kHighestNote /\
    (k = 0 \/ kHighestNote - kOctave <= pitch - k * kOctave).
Proof.
  induction n as [|n IH]; intros pitch fuel Ho Hl Hp Hn Hf.
  - exists 0. rewrite while_done by (try apply Z.leb_gt; lia).
    repeat apply conj; first [f_equal; lia | lia].
  - destruct (Z.lt_ge_cases pitch kHighestNote) as [Hlt|Hge].
    + exists 0. rewrite while_done by (try apply Z.leb_gt; lia).
      repeat apply conj; first [f_equal; lia | lia].
    + destruct fuel as [|fuel]; [lia|].
      rewrite while_step by (apply Z.leb_le; exact Hge).
      rewrite i16_id by lia.
      destruct (IH (pitch - kOctave) fuel) as (k & Hk & E & R1 & R2);
        try lia.
      exists (k + 1). rewrite E.
      repeat apply conj; first [f_equal; lia | lia].
Qed.

Lemma loop_fuel_value : Z.of_nat loop_fuel = 65536.
Proof. unfold loop_fuel. lia. Qed.

Lemma wrap_loops_land_in_range pitch :
  0 < kOctave -> -32768 <= kLowestNote ->
  kLowestNote + kOctave <= kHighestNote -> kHighestNote <= 32767 ->
  -32768 <= pitch <= 32767 ->
  exists wrapped octaves,
    wrap_pitch loop_fuel pitch = Some wrapped /\
    kLowestNote <= wrapped < kHighestNote /\
    wrapped = pitch + octaves * kOctave.
Proof.
  intros Ho Hlow Hroom Hhigh Hp. pose proof loop_fuel_value as Hfuel.
  unfold wrap_pitch.
  destruct (wrap_up_loop (Z.to_nat (kLowestNote - pitch)) pitch loop_fuel)
    as (k & Hk & E & R1 & R2); try lia.
  rewrite E. cbn [mbind option_bind].
  set (p1 := pitch + k * kOctave) in *.
  assert (Hp1 : -32768 <= p1 <= 32767).
  { destruct R2 as [->|R2]; unfold p1 in *; lia. }
  destruct (wrap_down_loop (Z.to_nat (p1 - kHighestNote + 1)) p1 loop_fuel)
    as (j & Hj & E' & S1 & S2); try lia.
  rewrite E'. exists (p1 - j * kOctave), (k - j).
  split; [reflexivity|]. split; [|unfold p1; lia].
  destruct S2 as [->|S2]; lia.
Qed.

(** X1: for every int16 pitch, "wrap pitch to a reasonable range"
    terminates, lands in [kLowestNote, kHighestNote) and moves the pitch by
    a whole number of octaves, when the range holds at least one octave. *)
Theorem wrap_pitch_lands_in_range pitch :
  0 < kOctave -> -32768 <= kLowestNote ->
  kLowestNote + kOctave <= kHighestNote -> kHighestNote <= 32767 ->
  -32768 <= pitch <= 32767 ->
  exists wrapped octaves,
    wrap_pitch loop_fuel pitch = Some wrapped /\
    kLowestNote <= wrapped < kHighestNote /\
    wrapped = pitch + octaves * kOctave.
Proof.
  intros Ho Hlow Hroom Hhigh Hp.
  destruct (wrap_loops_land_in_range pitch Ho Hlow Hroom Hhigh Hp)
    as (wrapped & octaves & E & Hr & Ew).
  exists wrapped, octaves. split; [exact E|]. split; [exact Hr|exact Ew].
Qed.

Lemma loop_fuel_succ : loop_fuel = S (Z.to_nat 65535).
Proof. unfold loop_fuel. lia. Qed.

(** X2: an assembled pitch below [kLowestNote] resolves to the same phase
    increment as the pitch one octave above it: the octaves added by the
    range wrap are not compensated by any shift. *)
Theorem pitch_below_lowest_note_aliases pitch :
  0 < kOctave -> kLowestNote + kOctave <= 32767 ->
  -32768 <= pitch -> pitch < kLowestNote ->
  resolve_increment loop_fuel pitch =
  resolve_increment loop_fuel (pitch + kOctave).
Proof.
  intros Ho Hl Hp Hlt. unfold resolve_increment, wrap_pitch. f_equal. f_equal.
  destruct (wrap_up_loop (Z.to_nat (kLowestNote - (pitch + kOctave)))
              (pitch + kOctave) (Z.to_nat 65535))
    as (k & Hk & E & _); try lia.
  rewrite (while_fuel_mono _ _ _ _ _ loop_fuel E)
    by (rewrite loop_fuel_succ; lia).
  rewrite loop_fuel_succ, while_step by (apply Z.ltb_lt; exact Hlt).
  rewrite i16_id by lia. exact E.
Qed.

(** The table reference of a pitch below the table. *)
Lemma table_reference_below pitch :
  0 < kOctave <= 32767 ->
  -32768 <= pitch - kPitchTableStart -> pitch < kPitchTableStart ->
  Spec.octaves_below_table pitch <= 255 ->
  table_reference loop_fuel pitch =
    Some (pitch + Spec.octaves_below_table pitch * kOctave - kPitchTableStart,
          Spec.octaves_below_table pitch).
Proof.
  intros Ho Hlow Hbelow Hk.
  destruct (octaves_below_table_spec pitch (proj1 Ho) Hbelow) as [Hpos Hw].
  pose proof loop_fuel_large as Hfuel. unfold table_reference.
  rewrite (i16_id (pitch - kPitchTableStart)) by lia.
  rewrite (table_reference_loop (Z.to_nat (Spec.octaves_below_table pitch)));
    try lia.
  rewrite Z2Nat.id by lia. f_equal. f_equal; lia.
Qed.

(** The table reference of a pitch inside the table. *)
Lemma table_reference_inside pitch :
  kPitchTableStart <= pitch -> pitch - kPitchTableStart <= 32767 ->
  table_reference loop_fuel pitch = Some (pitch - kPitchTableStart, 0).
Proof.
  intros Hin Hhigh. pose proof loop_fuel_large as Hfuel. unfold table_reference.
  rewrite (i16_id (pitch - kPitchTableStart)) by lia.
  apply while_done; [lia|]. cbn [fst]. apply Z.ltb_ge. lia.
Qed.

(** X3: inside the reasonable range and below the pitch table, the pitch
    one octave lower has half the phase increment (one more right shift of
    the same table entry). *)
Theorem octave_down_halves_increment pitch :
  0 < kOctave <= 32767 ->
  kLowestNote <= pitch -> pitch + kOctave < kHighestNote ->
  -32768 <= pitch - kPitchTableStart -> pitch < kPitchTableStart ->
  pitch + kOctave - kPitchTableStart <= 32767 ->
  Spec.octaves_below_table pitch <= 255 ->
  exists increment,
    resolve_increment loop_fuel (pitch + kOctave) = Some increment /\
    resolve_increment loop_fuel pitch = Some (Z.shiftr increment 1).
Proof.
  intros Ho Hlow Hhigh Hmin Hbelow Hmax Hk.
  pose proof loop_fuel_large as Hfuel.
  destruct (octaves_below_table_spec pitch (proj1 Ho) Hbelow) as [Hpos Hw].
  unfold resolve_increment.
  rewrite !wrap_pitch_in_range by lia. cbn [mbind option_bind].
  unfold table_increment. rewrite (table_reference_below pitch) by lia.
  cbn [mbind option_bind fst snd].
  set (k := Spec.octaves_below_table pitch) in *.
  destruct (Z.lt_ge_cases (pitch + kOctave) kPitchTableStart) as [Hb|Hi].
  - assert (Ek : Spec.octaves_below_table (pitch + kOctave) = k - 1).
    { unfold k, Spec.octaves_below_table.
      replace (kPitchTableStart - pitch + kOctave - 1)
        with (kPitchTableStart - (pitch + kOctave) + kOctave - 1 + 1 * kOctave)
        by lia.
      rewrite Z.div_add by lia. lia. }
    rewrite (table_reference_below (pitch + kOctave)) by lia.
    cbn [mbind option_bind fst snd]. rewrite Ek.
    replace (pitch + kOctave + (k - 1) * kOctave - kPitchTableStart)
      with (pitch + k * kOctave - kPitchTableStart) by lia.
    eexists. split; [reflexivity|].
    rewrite Z.shiftr_shiftr by lia. do 2 f_equal. lia.
  - assert (Ek : k = 1) by nia.
    rewrite (table_reference_inside (pitch + kOctave)) by lia.
    cbn [mbind option_bind fst snd]. rewrite Ek, Z.shiftr_0_r, Z.mul_1_l.
    eexists. split; reflexivity.
Qed.

Lemma shiftr_half_bound ref :
  0 <= ref < kOctave -> 0 <= Z.shiftr ref 1 <= kOctave / 2.
Proof.
  intros Href. rewrite Z.shiftr_div_pow2 by lia. change (2 ^ 1) with 2.
  split; [apply Z.div_pos; lia|apply Z.div_le_mono; lia].
Qed.

(** The phase increment, from the wrapped pitch and its table reference. *)
Lemma resolve_increment_from_reference fuel pitch wrapped ref shifts :
  wrap_pitch fuel pitch = Some wrapped ->
  table_reference fuel wrapped = Some (ref, shifts) ->
  resolve_increment fuel pitch =
    Some (Z.shiftr (u16 (lut_res_oscillator_increments (u16 (Z.shiftr ref 1))))
                   shifts).
Proof.
  intros E TR. unfold resolve_increment, table_increment.
  rewrite E. cbn [mbind option_bind]. rewrite TR. reflexivity.
Qed.

(** X4: when the reasonable range ends within the first octave of the pitch
    table, the resolution of every int16 pitch terminates with a table
    reference inside that octave: the table is only read at indices below
    [kOctave / 2], and the looked-up entry is shifted by the number of
    octaves between the wrapped pitch and the table. *)
Theorem resolution_reads_first_octave pitch :
  0 < kOctave <= 32767 -> -32768 <= kLowestNote ->
  kLowestNote + kOctave <= kHighestNote -> kHighestNote <= 32767 ->
  kHighestNote <= kPitchTableStart + kOctave ->
  -32768 <= kLowestNote - kPitchTableStart ->
  kPitchTableStart - kLowestNote <= 254 * kOctave ->
  -32768 <= pitch <= 32767 ->
  exists wrapped ref shifts,
    wrap_pitch loop_fuel pitch = Some wrapped /\
    table_reference loop_fuel wrapped = Some (ref, shifts) /\
    0 <= ref < kOctave /\ 0 <= Z.shiftr ref 1 <= kOctave / 2 /\
    0 <= shifts <= 255 /\
    ref = wrapped + shifts * kOctave - kPitchTableStart /\
    resolve_increment loop_fuel pitch =
      Some (Z.shiftr (u16 (lut_res_oscillator_increments (u16 (Z.shiftr ref 1))))
                     shifts).
Proof.
  intros Ho Hlow Hroom Hhigh Hwin Hmin Hmax Hp.
  destruct (wrap_loops_land_in_range pitch (proj1 Ho) Hlow Hroom Hhigh Hp)
    as (wrapped & octaves & E & Hr & _).
  destruct (Z.lt_ge_cases wrapped kPitchTableStart) as [Hb|Hi].
  - destruct (octaves_below_table_spec wrapped (proj1 Ho) Hb) as [Hpos Hw].
    assert (Hk : Spec.octaves_below_table wrapped <= 255).
    { unfold Spec.octaves_below_table.
      apply Z.lt_succ_r, Z.div_lt_upper_bound; lia. }
    assert (Hfit : -32768 <= wrapped - kPitchTableStart) by lia.
    assert (TR := table_reference_below wrapped Ho Hfit Hb Hk).
    exists wrapped, (wrapped + Spec.octaves_below_table wrapped * kOctave
                     - kPitchTableStart), (Spec.octaves_below_table wrapped).
    split; [exact E|]. split; [exact TR|]. split; [lia|].
    split; [apply shiftr_half_bound; lia|]. split; [lia|]. split; [lia|].
    exact (resolve_increment_from_reference _ _ _ _ _ E TR).
  - assert (Hfit : wrapped - kPitchTableStart <= 32767) by lia.
    assert (TR := table_reference_inside wrapped Hi Hfit).
    exists wrapped, (wrapped - kPitchTableStart), 0.
    split; [exact E|]. split; [exact TR|]. split; [lia|].
    split; [apply shiftr_half_bound; lia|]. split; [lia|]. split; [lia|].
    exact (resolve_increment_from_reference _ _ _ _ _ E TR).
Qed.

End PitchResolution.

(** ** Retriggering and free-running LFOs *)

Section LfoRetrigger.
Context `{Headers} `{Resources}.
Import SynthesisEngine.

Ltac engine_fields :=
  cbn [patch_ modulation_sources_ oscillator_decimation_ lfo_
       nrpn_parameter_number_ num_lfo_reset_steps_ lfo_reset_counter_
       lfo_to_reset_ voice_ set_patch set_modulation_sources
       set_oscillator_decimation set_lfo set_nrpn_parameter_number
       set_lfo_reset set_lfo_reset_counter set_voice fst snd] in *.

(** X5: a note received while the note dispatcher is idle primes the reset
    counter, so that the very next step of the sequencer resets the
    tempo-synchronised LFOs, whatever the counter and the cadence were. *)
Theorem note_on_retriggers_lfos channel note velocity inp e :
  controller_control inp = true -> length (lfo_ e) = 2%nat ->
  0 <= lfo_rate (patch_ e) 0 <= 255 -> 0 <= lfo_rate (patch_ e) 1 <= 255 ->
  0 <= num_lfo_reset_steps_ e <= 255 ->
  let e1 := fst (NoteOn false channel note velocity e) in
  let e2 := fst (control_engine inp e1) in
  snd (NoteOn false channel note velocity e) =
    [ControllerNoteOn (u8 note) (u8 velocity)] /\
  lfo_reset_counter_ e2 = 0 /\
  forall (i : nat) l,
    lfo_rate (patch_ e) (Z.of_nat i) < 16 -> lfo_ e2 !! i = Some l ->
    Lfo.phase_ l = 0.
Proof.
  intros Hc Hl R0 R1 Hs. cbv zeta. split; [reflexivity|].
  unfold NoteOn. cbn [negb fst].
  set (e1 := set_lfo_reset_counter _ e).
  assert (Heq : u8 (lfo_reset_counter_ e1 + 1) = num_lfo_reset_steps_ e1).
  { unfold e1. engine_fields. unfold u8.
    destruct (Z.eq_dec (num_lfo_reset_steps_ e) 0) as [->|Hne]; [reflexivity|].
    rewrite (Z.mod_small (num_lfo_reset_steps_ e - 1)) by lia.
    rewrite Z.mod_small by lia. lia. }
  destruct (control_engine_reset inp e1 Hc Hl R0 R1 Heq) as (C1 & _ & C3).
  split; [exact C1|exact C3].
Qed.

(** The LFOs after [render_lfos], for an engine with two LFOs. *)
Lemma render_lfos_two inp e l0 l1 :
  lfo_ e = [l0; l1] ->
  lfo_ (render_lfos inp e) = [Lfo.Increment l0; Lfo.Increment l1].
Proof.
  intros El. unfold render_lfos, kNumLfos. cbn [seq fold_left]. engine_fields.
  rewrite El. reflexivity.
Qed.

(** [UpdateModulationIncrements] leaves the phases of the LFOs alone. *)
Lemma UpdateModulationIncrements_phases beat e l0 l1 :
  lfo_ e = [l0; l1] ->
  exists m0 m1,
    lfo_ (fst (UpdateModulationIncrements beat e)) = [m0; m1] /\
    Lfo.phase_ m0 = Lfo.phase_ l0 /\ Lfo.phase_ m1 = Lfo.phase_ l1.
Proof.
  intros El. unfold UpdateModulationIncrements, kNumLfos. cbn [seq fold_left].
  unfold update_lfo. engine_fields.
  destruct (lfo_rate (patch_ e) (Z.of_nat 0) <? 16); engine_fields;
    destruct (lfo_rate (patch_ e) (Z.of_nat 1) <? 16); engine_fields;
    rewrite El; cbn [alter list_alter]; eexists _, _;
    (split; [reflexivity|split; reflexivity]).
Qed.

(** X6: an LFO whose rate is 16 or more is free-running: no tick of
    [SynthesisEngine::Control] resets it, whether or not the sequencer
    advanced and whatever the reset counter, the cadence and the stored set
    of LFOs to reset; its phase advances by its increment, modulo 2^16. *)
Theorem free_running_lfo_is_never_reset inp e (i : nat) l :
  length (lfo_ e) = 2%nat ->
  0 <= lfo_rate (patch_ e) 0 <= 255 -> 0 <= lfo_rate (patch_ e) 1 <= 255 ->
  16 <= lfo_rate (patch_ e) (Z.of_nat i) ->
  lfo_ e !! i = Some l ->
  exists l',
    lfo_ (fst (control_engine inp e)) !! i = Some l' /\
    Lfo.phase_ l' = u16 (Lfo.phase_ l + Lfo.phase_increment_ l).
Proof.
  intros Hl R0 R1 Hi Hlk.
  destruct (lfo_ e) as [|l0 [|l1 [|]]] eqn:El; try discriminate.
  pose proof (render_lfos_two inp e l0 l1 El) as Er.
  destruct (render_lfos_fields inp e) as (F1 & F2 & F3 & F4 & _ & _ & F7).
  cbv zeta in *.
  assert (Hgoal : forall e3,
             (exists m0 m1, lfo_ e3 = [m0; m1] /\
                (16 <= lfo_rate (patch_ e) 0 ->
                 Lfo.phase_ m0 = Lfo.phase_ (Lfo.Increment l0)) /\
                (16 <= lfo_rate (patch_ e) 1 ->
                 Lfo.phase_ m1 = Lfo.phase_ (Lfo.Increment l1))) ->
             exists l', lfo_ e3 !! i = Some l' /\
               Lfo.phase_ l' = u16 (Lfo.phase_ l + Lfo.phase_increment_ l)).
  { intros e3 (m0 & m1 & E3 & P0 & P1). rewrite E3.
    destruct i as [|[|i]]; cbn [lookup list_lookup] in *; [| |discriminate].
    - injection Hlk as <-. exists m0. split; [reflexivity|].
      apply P0. exact Hi.
    - injection Hlk as <-. exists m1. split; [reflexivity|].
      apply P1. exact Hi. }
  unfold control_engine. destruct (controller_control inp).
  - unfold step_advanced. engine_fields.
    set (e1 := set_lfo_reset_counter _ _).
    assert (L1 : lfo_ e1 = [Lfo.Increment l0; Lfo.Increment l1])
      by (unfold e1; engine_fields; exact Er).
    assert (P1 : patch_ e1 = patch_ e) by (unfold e1; engine_fields; exact F1).
    destruct (_ =? _).
    + destruct (UpdateModulationIncrements_phases
                  (estimated_beat_duration inp) e1 _ _ L1)
        as (m0 & m1 & Em & Q0 & Q1).
      pose proof (UpdateModulationIncrements_cadence
                    (estimated_beat_duration inp) e1) as C.
      pose proof (UpdateModulationIncrements_fields
                    (estimated_beat_duration inp) e1) as F.
      destruct (UpdateModulationIncrements (estimated_beat_duration inp) e1)
        as [e2 calls].
      cbv zeta in C, F. engine_fields.
      destruct C as [_ C2]; [rewrite P1; exact R0|rewrite P1; exact R1|].
      destruct (reset_cadence_cases (patch_ e1)) as [_ Es]. cbv zeta in Es.
      rewrite Es, P1 in C2. clear Es.
      apply Hgoal. rewrite (reset_lfos_two e2 m0 m1 Em). engine_fields.
      rewrite C2. eexists _, _. split; [reflexivity|]. split.
      * intros G0. destruct (Z.ltb_spec (lfo_rate (patch_ e) 0) 16); [lia|].
        destruct (lfo_rate (patch_ e) 1 <? 16); exact Q0.
      * intros G1. destruct (Z.ltb_spec (lfo_rate (patch_ e) 1) 16); [lia|].
        destruct (lfo_rate (patch_ e) 0 <? 16); exact Q1.
    + apply Hgoal. engine_fields. rewrite L1. eexists _, _.
      split; [reflexivity|]. split; intros _; reflexivity.
  - apply Hgoal. engine_fields. rewrite Er. eexists _, _.
    split; [reflexivity|]. split; intros _; reflexivity.
Qed.

(** The LFOs written by [UpdateModulationIncrements]: the waveform of the
    patch, and the increment of the rate. *)
Lemma UpdateModulationIncrements_lfos beat e l0 l1 :
  lfo_ e = [l0; l1] ->
  let increment i :=
    if lfo_rate (patch_ e) i <? 16
    then synced_increment beat (lfo_rate (patch_ e) i)
    else u16 (lut_res_lfo_increments (u8 (lfo_rate (patch_ e) i - 16))) in
  lfo_ (fst (UpdateModulationIncrements beat e)) =
    [Lfo.Update (lfo_wave (patch_ e) 0) (increment 0) l0;
     Lfo.Update (lfo_wave (patch_ e) 1) (increment 1) l1].
Proof.
  intros El. cbv zeta.
  unfold UpdateModulationIncrements, kNumLfos. cbn [seq fold_left].
  unfold update_lfo. engine_fields.
  change (Z.of_nat 0) with 0. change (Z.of_nat 1) with 1.
  destruct (lfo_rate (patch_ e) 0 <? 16); engine_fields;
    destruct (lfo_rate (patch_ e) 1 <? 16); engine_fields;
    rewrite El; reflexivity.
Qed.

Lemma engine_eq (e1 e2 : t) :
  patch_ e1 = patch_ e2 -> modulation_sources_ e1 = modulation_sources_ e2 ->
  oscillator_decimation_ e1 = oscillator_decimation_ e2 ->
  lfo_ e1 = lfo_ e2 ->
  nrpn_parameter_number_ e1 = nrpn_parameter_number_ e2 ->
  num_lfo_reset_steps_ e1 = num_lfo_reset_steps_ e2 ->
  lfo_reset_counter_ e1 = lfo_reset_counter_ e2 ->
  lfo_to_reset_ e1 = lfo_to_reset_ e2 -> voice_ e1 = voice_ e2 ->
  e1 = e2.
Proof.
  destruct e1, e2. engine_fields. intros. subst. reflexivity.
Qed.

(** X7: [UpdateModulationIncrements] starts from a cleared cadence and a
    cleared set of LFOs to reset, so running it again changes nothing: the
    cadence does not grow from one recomputation to the next. *)
Theorem UpdateModulationIncrements_is_idempotent beat e :
  0 <= lfo_rate (patch_ e) 0 <= 255 -> 0 <= lfo_rate (patch_ e) 1 <= 255 ->
  length (lfo_ e) = 2%nat ->
  let e' := fst (UpdateModulationIncrements beat e) in
  fst (UpdateModulationIncrements beat e') = e' /\
  0 <= num_lfo_reset_steps_ e' <= 255 /\ 0 <= lfo_to_reset_ e' <= 3.
Proof.
  intros R0 R1 Hl. cbv zeta.
  destruct (lfo_ e) as [|l0 [|l1 [|]]] eqn:El; try discriminate.
  pose proof (UpdateModulationIncrements_lfos beat e l0 l1 El) as L1.
  pose proof (UpdateModulationIncrements_fields beat e) as F1.
  destruct (UpdateModulationIncrements_cadence beat e R0 R1) as [C1 D1].
  cbv zeta in L1, F1, C1, D1.
  set (e' := fst (UpdateModulationIncrements beat e)) in *. clearbody e'.
  destruct F1 as (P1 & _).
  pose proof (UpdateModulationIncrements_lfos beat e' _ _ L1) as L2.
  pose proof (UpdateModulationIncrements_fields beat e') as F2.
  destruct (UpdateModulationIncrements_cadence beat e') as [C2 D2];
    [rewrite P1; exact R0|rewrite P1; exact R1|].
  cbv zeta in L2, F2, C2, D2.
  destruct F2 as (G1 & G2 & G3 & G4 & G5 & G6 & _). split.
  - apply engine_eq; try assumption.
    + rewrite L2, L1, P1. reflexivity.
    + rewrite C2, C1, P1. reflexivity.
    + rewrite D2, D1, P1. reflexivity.
  - rewrite C1, D1.
    destruct (reset_cadence_cases (patch_ e)) as [_ Es]. cbv zeta in Es.
    rewrite Es. pose proof (u8_range (Spec.reset_cadence (patch_ e))).
    destruct (lfo_rate (patch_ e) 0 <? 16), (lfo_rate (patch_ e) 1 <? 16);
      (split; [destruct (_ + _ =? 0); lia|lia]).
Qed.

End LfoRetrigger.

(** ** The sample loop *)

Section SampleLoop.
Context `{Headers} `{Resources}.
Import SynthesisEngine Runs.

(** A voice renders oscillators and resets the phase of oscillator 2, and
    never touches the noise generator. *)
Lemma Voice_Audio_calls patch inp v :
  List.filter is_random_update (snd (Voice.Audio patch inp v)) = [].
Proof.
  unfold Voice.Audio.
  destruct (negb (Voice.dead_ v =? 0)); [reflexivity|].
  destruct (osc_option patch 0 =? RING_MOD);
    [destruct (negb (osc_shape patch 0 =? WAVEFORM_VOWEL)); reflexivity|].
  destruct (osc_option patch 0 =? XOR);
    [destruct (negb (osc_shape patch 0 =? WAVEFORM_VOWEL)); reflexivity|].
  destruct (osc_option patch 0 =? SYNC).
  - destruct (_ <? Voice.osc1_phase_msb_ v);
      destruct (negb (osc_shape patch 0 =? WAVEFORM_VOWEL)); reflexivity.
  - destruct (negb (osc_shape patch 0 =? WAVEFORM_VOWEL)); reflexivity.
Qed.

Lemma voices_Audio_calls patch (inputs : nat -> Voice.AudioInputs) voices :
  forall acc,
  List.filter is_random_update (snd acc) = [] ->
  List.filter is_random_update
    (snd (fold_left (fun (acc : Voice.t * list Call) j =>
                       let r := Voice.Audio patch (inputs j) (fst acc) in
                       (fst r, snd acc ++ snd r)) voices acc)) = [].
Proof.
  induction voices as [|j voices IH]; intros acc Hacc; [exact Hacc|].
  cbn [fold_left]. apply IH. cbv zeta. cbn [snd].
  rewrite List.filter_app, Hacc, Voice_Audio_calls. reflexivity.
Qed.

(** One sample: the decimation counter advances modulo 4, and the noise
    generator is updated when it comes back to zero. *)
Lemma Audio_decimation inputs e :
  let d := Z.land (u8 (oscillator_decimation_ e + 1)) 3 in
  oscillator_decimation_ (fst (Audio inputs e)) = d /\
  List.filter is_random_update (snd (Audio inputs e)) =
    if d =? 0 then [RandomUpdate] else [].
Proof.
  cbv zeta. unfold Audio.
  set (e1 := set_oscillator_decimation _ e).
  pose proof (voices_Audio_calls (patch_ e1) inputs (seq 0 kNumVoices)
                (voice_ e1, []) eq_refl) as V.
  destruct (fold_left _ (seq 0 kNumVoices) (voice_ e1, [])) as [v calls].
  cbn [fst snd] in *. split; [reflexivity|].
  rewrite List.filter_app. cbn [List.filter is_random_update]. rewrite V.
  unfold e1. cbn [oscillator_decimation_ set_oscillator_decimation].
  destruct (_ =? 0); reflexivity.
Qed.

Lemma run_audio_app inputs1 inputs2 e :
  run_audio (inputs1 ++ inputs2) e =
  let r := run_audio inputs1 e in
  let r' := run_audio inputs2 (fst r) in
  (fst r', snd r ++ snd r').
Proof.
  revert e. induction inputs1 as [|i inputs1 IH]; intros e.
  - cbn [app run_audio fst snd]. cbv zeta.
    destruct (run_audio inputs2 e); reflexivity.
  - cbn [app run_audio]. rewrite IH. cbv zeta. cbn [fst snd].
    rewrite app_assoc. reflexivity.
Qed.

Lemma decimation_step d :
  0 <= d <= 3 -> Z.land (u8 (d + 1)) 3 = (d + 1) mod 4.
Proof.
  intros Hd. rewrite u8_id by lia. change 3 with (Z.ones 2).
  rewrite Z.land_ones by lia. reflexivity.
Qed.

(** Four samples in a row update the noise generator once and bring the
    decimation counter back. *)
Lemma four_samples i1 i2 i3 i4 e :
  0 <= oscillator_decimation_ e <= 3 ->
  let r := run_audio [i1; i2; i3; i4] e in
  oscillator_decimation_ (fst r) = oscillator_decimation_ e /\
  length (List.filter is_random_update (snd r)) = 1%nat.
Proof.
  intros Hd. cbv zeta. cbn [run_audio fst snd].
  destruct (Audio_decimation i1 e) as [D1 C1]. cbv zeta in D1, C1.
  set (e1 := fst (Audio i1 e)) in *.
  destruct (Audio_decimation i2 e1) as [D2 C2]. cbv zeta in D2, C2.
  set (e2 := fst (Audio i2 e1)) in *.
  destruct (Audio_decimation i3 e2) as [D3 C3]. cbv zeta in D3, C3.
  set (e3 := fst (Audio i3 e2)) in *.
  destruct (Audio_decimation i4 e3) as [D4 C4]. cbv zeta in D4, C4.
  set (e4 := fst (Audio i4 e3)) in *.
  rewrite app_nil_r, !List.filter_app, C1, C2, C3, C4, D4, D3, D2.
  rewrite D1 in *. clear C1 C2 C3 C4 D1 D2 D3 D4.
  set (d := oscillator_decimation_ e) in *. clearbody d.
  assert (Hc : d = 0 \/ d = 1 \/ d = 2 \/ d = 3) by lia.
  destruct Hc as [-> | [-> | [-> | ->]]]; split; reflexivity.
Qed.

(** X8: the noise generator is decimated by four: over any run of [4 * n]
    samples it is updated exactly [n] times, whatever the voices render,
    and the decimation counter is back where it started. *)
Theorem noise_is_updated_every_fourth_sample (n : nat) : forall inputs e,
  0 <= oscillator_decimation_ e <= 3 ->
  length inputs = (4 * n)%nat ->
  oscillator_decimation_ (fst (run_audio inputs e)) = oscillator_decimation_ e /\
  length (List.filter is_random_update (snd (run_audio inputs e))) = n.
Proof.
  induction n as [|n IH]; intros inputs e Hd Hlen.
  - destruct inputs; [|discriminate]. split; reflexivity.
  - destruct inputs as [|i1 [|i2 [|i3 [|i4 inputs]]]];
      try (cbn [length] in Hlen; lia).
    change (i1 :: i2 :: i3 :: i4 :: inputs) with ([i1; i2; i3; i4] ++ inputs).
    rewrite run_audio_app. cbv zeta. cbn [fst snd].
    destruct (four_samples i1 i2 i3 i4 e Hd) as [D4 C4]. cbv zeta in D4, C4.
    destruct (IH inputs (fst (run_audio [i1; i2; i3; i4] e))) as [Dn Cn];
      [rewrite D4; exact Hd|cbn [length] in Hlen; lia|].
    split; [rewrite Dn; exact D4|].
    rewrite List.filter_app, length_app, C4, Cn. reflexivity.
Qed.

End SampleLoop.

(** ** MIDI events *)

Section MidiEvents.
Context `{Headers} `{Resources}.
Import SynthesisEngine.

Ltac engine_fields :=
  cbn [patch_ modulation_sources_ oscillator_decimation_ lfo_
       nrpn_parameter_number_ num_lfo_reset_steps_ lfo_reset_counter_
       lfo_to_reset_ voice_ set_patch set_modulation_sources
       set_oscillator_decimation set_lfo set_nrpn_parameter_number
       set_lfo_reset set_lfo_reset_counter set_voice fst snd] in *.

(** X9: after [OmniModeOff] on a channel the engine listens to that channel
    and to no other, and after [OmniModeOn] it listens to every channel. *)
Theorem omni_mode_selects_the_channels channel other e :
  0 <= offsetof_kbd_midi_channel < Z.of_nat (length (patch_ e)) ->
  u8 channel <> 255 ->
  (CheckChannel other (OmniModeOff channel e) = true <-> u8 other = u8 channel) /\
  CheckChannel other (OmniModeOn channel e) = true.
Proof.
  intros Ho Hc. pose proof (u8_range channel) as Rc.
  unfold CheckChannel, OmniModeOff, OmniModeOn, kbd_midi_channel. engine_fields.
  rewrite !peek_poke_eq by exact Ho.
  rewrite (u8_id (u8 channel + 1)) by lia. split; [|reflexivity].
  destruct (Z.eqb_spec (u8 channel + 1) 0) as [E|_]; [lia|].
  cbn [orb]. destruct (Z.eqb_spec (u8 channel + 1) (u8 other + 1)); split;
    intros; (discriminate || lia || reflexivity).
Qed.

(** An NRPN selection stores the parameter number. *)
Lemma ControlChange_nrpn inp channel value e :
  Spec.distinct_bytes Spec.midi_controllers = true ->
  ControlChange inp channel kNrpnMsb value e =
    Some (set_nrpn_parameter_number (u8 value) e, []).
Proof.
  intros Hd. apply distinct_bytes_spec in Hd as [Hd Hb].
  unfold Spec.midi_controllers in Hd, Hb.
  assert (Hu : u8 kNrpnMsb = kNrpnMsb).
  { apply u8_id. do 7 (apply Forall_cons in Hb as [_ Hb]).
    apply Forall_cons in Hb as [Hb _]. exact Hb. }
  clear Hb. distinct_from Hd.
  unfold ControlChange. rewrite Hu.
  destruct (Z.eqb_spec kNrpnMsb kModulationWheelMsb); [exfalso; congruence|].
  destruct (Z.eqb_spec kNrpnMsb kDataEntryMsb); [exfalso; congruence|].
  destruct (Z.eqb_spec kNrpnMsb kPortamentoTimeMsb); [exfalso; congruence|].
  destruct (Z.eqb_spec kNrpnMsb kRelease); [exfalso; congruence|].
  destruct (Z.eqb_spec kNrpnMsb kAttack); [exfalso; congruence|].
  destruct (Z.eqb_spec kNrpnMsb kHarmonicIntensity); [exfalso; congruence|].
  destruct (Z.eqb_spec kNrpnMsb kBrightness); [exfalso; congruence|].
  rewrite Z.eqb_refl. reflexivity.
Qed.

(** X10: an NRPN selection of a parameter number below [sizeof(Patch) - 1]
    followed by a data-entry message writes the data byte into the patch, at
    the byte after the selected number, and the selection stays in force. *)
Theorem nrpn_selects_the_data_entry_target inp channel1 channel2 n v e :
  Spec.distinct_bytes Spec.midi_controllers = true ->
  0 <= n <= 255 -> n < sizeof_Patch - 1 ->
  sizeof_Patch <= Z.of_nat (length (patch_ e)) ->
  0 <= v <= 255 ->
  exists e' calls,
    run_control_changes inp
      [(channel1, kNrpnMsb, n); (channel2, kDataEntryMsb, v)] e =
      Some (e', calls) /\
    patch_ e' = poke (patch_ e) (n + 1) v /\
    nrpn_parameter_number_ e' = n.
Proof.
  intros Hd Hn Hlt Hlen Hv. cbn [run_control_changes].
  rewrite (ControlChange_nrpn inp channel1 n e Hd).
  cbn [mbind option_bind fst snd]. rewrite (u8_id n) by exact Hn.
  pose proof Hd as Hd'. apply distinct_bytes_spec in Hd' as [Hd' Hb].
  unfold Spec.midi_controllers in Hd', Hb.
  apply Forall_cons in Hb as [_ Hb]. apply Forall_cons in Hb as [Hb _].
  apply NoDup_cons in Hd' as [Hd' _].
  assert (Hne : kDataEntryMsb <> kModulationWheelMsb).
  { intros Heq. apply Hd'. rewrite <- Heq. apply list_elem_of_here. }
  rewrite ControlChange_data_entry by (exact Hne || (apply u8_id; exact Hb)).
  change (nrpn_parameter_number_ (set_nrpn_parameter_number n e)) with n.
  destruct (Z.ltb_spec n (sizeof_Patch - 1)); [|lia].
  rewrite (u8_id v) by exact Hv.
  destruct (SetParameter_in_range inp n v (set_nrpn_parameter_number n e) Hn Hv)
    as (e' & calls & E & P & N & _);
    [change (n + 1 < Z.of_nat (length (patch_ e))); lia|].
  rewrite E. cbn [mbind option_bind fst snd]. eexists _, _.
  split; [reflexivity|]. split; [exact P|exact N].
Qed.

(** One controller message on an engine whose patch has its full size and
    whose NRPN number is a byte. *)
Lemma ControlChange_safe inp channel controller value e :
  sizeof_Patch <= Z.of_nat (length (patch_ e)) ->
  0 <= nrpn_parameter_number_ e <= 255 ->
  exists e' calls,
    ControlChange inp channel controller value e = Some (e', calls) /\
    length (patch_ e') = length (patch_ e) /\
    0 <= nrpn_parameter_number_ e' <= 255.
Proof.
  intros Hlen Hn. unfold ControlChange.
  assert (Hpoke : forall i x,
             exists e' calls,
               Some (set_patch (poke (patch_ e) i x) e, @nil Call) = Some (e', calls) /\
               length (patch_ e') = length (patch_ e) /\
               0 <= nrpn_parameter_number_ e' <= 255).
  { intros i x. eexists _, _. split; [reflexivity|]. engine_fields.
    split; [apply length_poke|exact Hn]. }
  destruct (u8 controller =? kModulationWheelMsb).
  { eexists _, _. split; [reflexivity|]. engine_fields. split; [reflexivity|exact Hn]. }
  destruct (u8 controller =? kDataEntryMsb).
  { destruct (Z.ltb_spec (nrpn_parameter_number_ e) (sizeof_Patch - 1)).
    - destruct (SetParameter_in_range inp (nrpn_parameter_number_ e) (u8 value) e
                  Hn (u8_range value)) as (e' & calls & E & P & N & _); [lia|].
      exists e', calls. split; [exact E|]. rewrite P, N.
      split; [apply length_poke|exact Hn].
    - eexists _, _. split; [reflexivity|]. split; [reflexivity|exact Hn]. }
  destruct (u8 controller =? kPortamentoTimeMsb); [apply Hpoke|].
  destruct (u8 controller =? kRelease); [apply Hpoke|].
  destruct (u8 controller =? kAttack); [apply Hpoke|].
  destruct (u8 controller =? kHarmonicIntensity); [apply Hpoke|].
  destruct (u8 controller =? kBrightness); [apply Hpoke|].
  destruct (u8 controller =? kNrpnMsb).
  { eexists _, _. split; [reflexivity|]. engine_fields.
    split; [reflexivity|apply u8_range]. }
  eexists _, _. split; [reflexivity|]. split; [reflexivity|exact Hn].
Qed.

(** X11: controller messages are memory-safe: on an engine whose patch has
    its full size and whose NRPN number is a byte, every sequence of
    controller messages, whatever the controllers and the values, is handled
    without a write outside the patch, and leaves such an engine. *)
Theorem controller_messages_stay_inside_the_patch inp messages : forall e,
  sizeof_Patch <= Z.of_nat (length (patch_ e)) ->
  0 <= nrpn_parameter_number_ e <= 255 ->
  exists e' calls,
    run_control_changes inp messages e = Some (e', calls) /\
    length (patch_ e') = length (patch_ e) /\
    0 <= nrpn_parameter_number_ e' <= 255.
Proof.
  induction messages as [|[[channel controller] value] messages IH];
    intros e Hlen Hn.
  - eexists _, _. split; [reflexivity|]. split; [reflexivity|exact Hn].
  - cbn [run_control_changes].
    destruct (ControlChange_safe inp channel controller value e Hlen Hn)
      as (e1 & calls1 & E1 & L1 & N1).
    rewrite E1. cbn [mbind option_bind fst snd].
    destruct (IH e1) as (e' & calls & E & L & N); [rewrite L1; exact Hlen|exact N1|].
    rewrite E. cbn [mbind option_bind fst snd]. eexists _, _.
    split; [reflexivity|]. split; [rewrite L; exact L1|exact N].
Qed.

End MidiEvents.

(** ** The voice *)

Section VoiceState.
Context `{Headers} `{Resources}.
Import Voice.

Lemma pitch_step_dead v : dead_ (pitch_step v) = dead_ v.
Proof. unfold pitch_step. destruct (xorb _ _); reflexivity. Qed.

(** [dead_] after the envelope loop: set when every envelope is dead. *)
Lemma all_envelopes_dead_cases inp :
  all_envelopes_dead inp =
    if envelope_dead inp 0 && envelope_dead inp 1 then 1 else 0.
Proof.
  unfold all_envelopes_dead, kNumEnvelopes. cbn [seq fold_left].
  change (Z.of_nat 0) with 0. change (Z.of_nat 1) with 1.
  destruct (envelope_dead inp 0), (envelope_dead inp 1); reflexivity.
Qed.

(** The oscillator updates of [Voice::Control] leave the [dead_] flag
    alone, whatever the fuel of their loops. *)
Lemma Control_dead_aux fuel patch es v1 sources :
  match
    (acc ← resolve_destinations patch es sources (dst v1)
             (modulation_destinations_ v1);
     osc1 ← update_oscillator fuel patch (fst acc) (snd acc) (pitch_value_ v1) 0;
     osc2 ← update_oscillator fuel patch (fst acc) (snd acc) (pitch_value_ v1) 1;
     Some (set_destinations (fst acc) (snd acc)
             (set_modulation_sources sources v1),
           map (fun i => EnvelopeRender (Z.of_nat i)) (seq 0 kNumEnvelopes)
           ++ osc1 ++ osc2))
  with
  | Some r => dead_ (fst r) = dead_ v1
  | None => True
  end.
Proof.
  destruct (resolve_destinations _ _ _ _ _) as [acc|]; [|exact I].
  cbn [mbind option_bind].
  destruct (update_oscillator _ _ _ _ _ 0) as [osc1|]; [|exact I].
  cbn [mbind option_bind].
  destruct (update_oscillator _ _ _ _ _ 1) as [osc2|]; [|exact I].
  reflexivity.
Qed.

(** The voice left by [Voice::Control] carries the [dead_] flag of the
    envelope loop. *)
Lemma Control_dead patch es inp v v' calls :
  Control patch es inp v = Some (v', calls) ->
  dead_ v' = all_envelopes_dead inp.
Proof.
  intros E.
  pose proof (Control_dead_aux loop_fuel patch es
                (pitch_step (set_dead (all_envelopes_dead inp) v))
                (update_sources inp
                   (pitch_value_
                      (pitch_step (set_dead (all_envelopes_dead inp) v)))
                   (modulation_sources_
                      (pitch_step (set_dead (all_envelopes_dead inp) v)))))
    as A.
  change (match Control patch es inp v with
          | Some r =>
              dead_ (fst r) =
              dead_ (pitch_step (set_dead (all_envelopes_dead inp) v))
          | None => True
          end) in A.
  rewrite E in A. rewrite pitch_step_dead in A. exact A.
Qed.

(** X12: the [dead_] flag gates the sample loop: after a [Voice::Control]
    that found both envelopes dead, [Voice::Audio] outputs the mid-scale
    sample 128 without rendering any oscillator; if one envelope is still
    running, it renders oscillator 2 and then oscillator 1. *)
Theorem dead_voice_is_silent patch es cinp ainp v v' calls :
  Control patch es cinp v = Some (v', calls) ->
  (envelope_dead cinp 0 = true -> envelope_dead cinp 1 = true ->
   Audio patch ainp v' = (set_signal 128 v', [])) /\
  (envelope_dead cinp 0 = false \/ envelope_dead cinp 1 = false ->
   exists calls', snd (Audio patch ainp v') = Osc2Render :: Osc1Render :: calls').
Proof.
  intros E. apply Control_dead in E. rewrite all_envelopes_dead_cases in E.
  split.
  - intros D0 D1. rewrite D0, D1 in E. cbn [andb] in E.
    unfold Audio. rewrite E. reflexivity.
  - intros D.
    assert (E0 : dead_ v' = 0).
    { destruct D as [D|D]; rewrite D in E; [exact E|].
      rewrite andb_false_r in E. exact E. }
    unfold Audio. rewrite E0. change (negb (0 =? 0)) with false. cbv iota.
    destruct (osc_option patch 0 =? RING_MOD);
      [destruct (negb (osc_shape patch 0 =? WAVEFORM_VOWEL));
       eexists; reflexivity|].
    destruct (osc_option patch 0 =? XOR);
      [destruct (negb (osc_shape patch 0 =? WAVEFORM_VOWEL));
       eexists; reflexivity|].
    destruct (osc_option patch 0 =? SYNC);
      [destruct (_ <? osc1_phase_msb_ v')|];
      destruct (negb (osc_shape patch 0 =? WAVEFORM_VOWEL));
      eexists; reflexivity.
Qed.

Lemma Clip_range value : 0 <= Op.Clip value 0 16383 <= 16383.
Proof.
  unfold Op.Clip. cbv zeta.
  destruct (Z.ltb_spec (i16 value) 0); [lia|].
  destruct (Z.ltb_spec 16383 (i16 value)); lia.
Qed.

Lemma apply_row_length es vs source destination amount acc acc' :
  apply_row es vs source destination amount acc = Some acc' ->
  length (fst acc') = length (fst acc).
Proof.
  destruct acc as [dst destinations]. unfold apply_row.
  destruct (source_value es vs source) as [value|]; [|discriminate].
  cbn [mbind option_bind].
  destruct (negb (destination =? MOD_DST_VCA)).
  - destruct (load dst destination) as [modulation|]; [|discriminate].
    cbn [mbind option_bind]. intros E. injection E as <-.
    cbn [fst]. apply length_poke.
  - destruct (amount <? 0); intros E; injection E as <-; reflexivity.
Qed.

Lemma modulation_loop_length patch es vs rows : forall acc acc',
  modulation_loop patch es vs rows acc = Some acc' ->
  length (fst acc') = length (fst acc).
Proof.
  induction rows as [|i rows IH]; intros acc acc' E.
  - injection E as <-. reflexivity.
  - cbn [modulation_loop] in E.
    destruct (apply_modulation patch es vs i acc) as [acc1|] eqn:E1;
      [|discriminate].
    cbn [mbind option_bind] in E. rewrite (IH _ _ E).
    unfold apply_modulation in E1.
    destruct (modulation_amount patch i =? 0).
    + injection E1 as <-. reflexivity.
    + exact (apply_row_length _ _ _ _ _ _ _ E1).
Qed.

(** X13: whatever the bytes of the patch, the rows of the matrix and the
    values of the sources, the filter cutoff resolved by [Voice::Control]
    lies in the 14-bit range, so that its 8-bit output is below 256. *)
Theorem resolved_cutoff_is_in_range patch es vs dst destinations dst' destinations' :
  resolve_destinations patch es vs dst destinations = Some (dst', destinations') ->
  0 <= MOD_DST_FILTER_CUTOFF < Z.of_nat (length dst) ->
  0 <= peek dst' MOD_DST_FILTER_CUTOFF <= 16383 /\
  0 <= Op.ShiftRight6 (peek dst' MOD_DST_FILTER_CUTOFF) <= 255.
Proof.
  intros E Hc. unfold resolve_destinations in E. cbv zeta in E.
  destruct (modulation_loop _ _ _ _ _) as [acc|] eqn:El; [|discriminate].
  cbn [mbind option_bind] in E. injection E as <- _.
  apply modulation_loop_length in El. cbn [fst] in El.
  assert (Hlen : length (fst acc) = length dst).
  { rewrite El. unfold load_initial_values. cbv zeta.
    rewrite !length_poke. reflexivity. }
  unfold filter_modulations. cbv zeta.
  rewrite peek_poke_eq by (rewrite length_poke, Hlen; exact Hc).
  match goal with |- 0 <= Op.Clip ?x 0 16383 <= _ /\ _ =>
    pose proof (Clip_range x) as R; set (c := Op.Clip x 0 16383) in *
  end.
  clearbody c. split; [exact R|].
  unfold Op.ShiftRight6, u16. rewrite (Z.mod_small c) by lia.
  rewrite Z.shiftr_div_pow2 by lia. change (2 ^ 6) with 64.
  split; [apply Z.div_pos; lia|].
  apply Z.lt_succ_r, Z.div_lt_upper_bound; lia.
Qed.

(** X22: retriggering the note the voice already plays, or triggering the
    first note of a voice, leaves no distance to slide: [Voice::Trigger]
    still forces the increment to 1, and the first pitch step of
    [Voice::Control] puts the voice on the target with a zero increment. *)
Theorem retrigger_arrives_in_one_step patch note velocity legato v :
  pitch_value_ v = 0 \/ pitch_value_ v = trigger_target patch note ->
  trigger_target patch note < 32767 ->
  let v1 := fst (Trigger patch note velocity legato v) in
  pitch_increment_ v1 = 1 /\
  arrived (trigger_target patch note) (pitch_step v1).
Proof.
  intros Hv Ht. cbv zeta.
  destruct (Trigger_pitch patch note velocity legato v) as (T1 & T2 & T3).
  cbv zeta in T1, T2, T3.
  set (v1 := fst (Trigger patch note velocity legato v)) in *. clearbody v1.
  set (target := trigger_target patch note) in *.
  assert (Rt : -32768 <= target) by (unfold target, trigger_target;
    destruct (kbd_raga patch =? 0); unfold i16;
    match goal with |- _ <= ?a mod ?b - _ =>
      pose proof (Z.mod_pos_bound a b); lia end).
  clearbody target.
  assert (V : pitch_value_ v1 = target).
  { rewrite T2. destruct (Z.eqb_spec (pitch_value_ v) 0); [reflexivity|].
    destruct Hv; [contradiction|assumption]. }
  rewrite <- T2, V in T3. rewrite Z.sub_diag in T3.
  change (i16 0) with 0 in T3. unfold slide_increment in T3.
  rewrite Z.mul_0_l in T3. change (i16 (Z.shiftr (i32 0) 15)) with 0 in T3.
  change (0 =? 0) with true in T3. change (0 <? 0) with false in T3.
  cbv iota in T3. split; [exact T3|].
  unfold arrived, pitch_step. rewrite T3, V, T1.
  rewrite (i16_id (target + 1)) by lia.
  change (0 <? 1) with true.
  destruct (Z.ltb_spec (target + 1) target); [lia|].
  cbn [xorb pitch_value_ pitch_target_ pitch_increment_ set_pitch].
  repeat apply conj; reflexivity.
Qed.

End VoiceState.

(** * Patch storage

    ** Loops of stores *)

Section Stores.

(** A loop whose turns keep the length of the array. *)
Lemma fold_length (step : list Z -> Z -> list Z) l :
  (forall b i, length (step b i) = length b) ->
  forall b, length (fold_left step l b) = length b.
Proof.
  intros Hlen. induction l as [|a l IH]; intros b; [reflexivity|].
  cbn [fold_left]. rewrite IH. apply Hlen.
Qed.

(** A cell no turn of the loop writes keeps its value. *)
Lemma fold_untouched (step : list Z -> Z -> list Z) l j :
  (forall b i, i ∈ l -> peek (step b i) j = peek b j) ->
  forall b, peek (fold_left step l b) j = peek b j.
Proof.
  induction l as [|a l IH]; intros Hstep b; [reflexivity|].
  cbn [fold_left]. rewrite IH.
  - apply Hstep. apply list_elem_of_here.
  - intros b0 i Hi. apply Hstep. apply list_elem_of_further. exact Hi.
Qed.

(** A cell written by one turn of the loop holds what that turn wrote. *)
Lemma fold_touched (step : list Z -> Z -> list Z) l (n : nat) i j x :
  NoDup l -> i ∈ l ->
  (forall b i', length (step b i') = length b) ->
  (forall b, length b = n -> peek (step b i) j = x) ->
  (forall b i', i' ∈ l -> i' <> i -> peek (step b i') j = peek b j) ->
  forall b, length b = n -> peek (fold_left step l b) j = x.
Proof.
  intros Hnd Hin Hlen Hhit Hmiss.
  induction l as [|a l IH]; intros b Hb; [inversion Hin|].
  apply NoDup_cons in Hnd as [Ha Hnd]. cbn [fold_left].
  destruct (Z.eq_dec a i) as [->|Hne].
  - rewrite fold_untouched; [apply Hhit; exact Hb|].
    intros b0 i' Hi'. apply Hmiss; [apply list_elem_of_further; exact Hi'|].
    intros ->. contradiction.
  - apply IH.
    + exact Hnd.
    + apply elem_of_cons in Hin as [->|Hin]; [contradiction|exact Hin].
    + intros b0 i' Hi' Hne'. apply Hmiss; [|exact Hne'].
      apply list_elem_of_further. exact Hi'.
    + rewrite Hlen. exact Hb.
Qed.

(** Two arrays of the same length with the same cells are equal. *)
Lemma peek_ext (a b : list Z) :
  length a = length b ->
  (forall j, 0 <= j < Z.of_nat (length a) -> peek a j = peek b j) ->
  a = b.
Proof.
  intros Hlen Hpeek. apply (nth_ext a b 0 0 Hlen). intros n Hn.
  specialize (Hpeek (Z.of_nat n)). unfold peek in Hpeek.
  rewrite Nat2Z.id in Hpeek. apply Hpeek. lia.
Qed.

End Stores.

(** ** Serialisation *)

Section Serialisation.
Context `{Headers} `{StorageHeaders}.
Import Storage.

(** A turn of a loop of stores that misses the cell [j]. *)
Ltac misses :=
  let Hin := fresh "Hin" in
  intros ? ? Hin; apply elem_of_seqZ in Hin;
  rewrite ?peek_poke_ne by lia; reflexivity.

(** A turn, other than the one that writes the cell [j], that misses it. *)
Ltac others_miss :=
  let Hin := fresh "Hin" in let Hne := fresh "Hne" in
  intros ? ? Hin Hne; apply elem_of_seqZ in Hin;
  rewrite ?peek_poke_ne by lia; reflexivity.

Ltac keeps_length := intros; rewrite ?length_poke; reflexivity.

Lemma Pack_length p b : length (Pack p b) = length b.
Proof.
  unfold Pack. cbv zeta. rewrite !fold_length by keeps_length. reflexivity.
Qed.

Lemma Unpack_length b p : length (Unpack b p) = length p.
Proof.
  unfold Unpack. cbv zeta. rewrite !fold_length by keeps_length. reflexivity.
Qed.

(** The bytes of the serialised patch. *)
Lemma Pack_bytes p b :
  0 <= kSavedModulationMatrixSize -> 0 <= kPatchNameSize ->
  2 * kSavedModulationMatrixSize + 28 + 8 + kPatchNameSize
    <= Z.of_nat (length b) ->
  (forall j, 0 <= j < 28 ->
     peek (Pack p b) j = peek p (offsetof_osc_algorithm + j)) /\
  (forall i, 0 <= i < kSavedModulationMatrixSize ->
     peek (Pack p b) (2 * i + 28) =
       u8 (Z.lor (modulation_source p i)
                 (ShiftLeft4 (modulation_destination p i))) /\
     peek (Pack p b) (2 * i + 29) = u8 (modulation_amount p i)) /\
  (forall i, 0 <= i < 8 ->
     peek (Pack p b) (2 * kSavedModulationMatrixSize + 28 + i) =
       peek p (offsetof_sequence + i)) /\
  (forall i, 0 <= i < kPatchNameSize ->
     peek (Pack p b) (2 * kSavedModulationMatrixSize + 28 + 8 + i) =
       peek p (offsetof_name + i)) /\
  (forall j, 2 * kSavedModulationMatrixSize + 28 + 8 + kPatchNameSize <= j ->
     peek (Pack p b) j = peek b j).
Proof.
  intros Hk Hn Hb. unfold Pack. cbv zeta. repeat apply conj.
  - intros j Hj. do 3 rewrite fold_untouched by misses.
    apply (fold_touched _ _ (length b) j); try keeps_length; try others_miss.
    + apply NoDup_seqZ.
    + apply elem_of_seqZ. lia.
    + intros b0 Hb0. apply peek_poke_eq. lia.
  - intros i Hi. split.
    + do 2 rewrite fold_untouched by misses.
      apply (fold_touched _ _ (length b) i); try keeps_length; try others_miss.
      * apply NoDup_seqZ.
      * apply elem_of_seqZ. lia.
      * intros b0 Hb0. rewrite peek_poke_ne by lia. apply peek_poke_eq. lia.
      * rewrite fold_length by keeps_length. reflexivity.
    + do 2 rewrite fold_untouched by misses.
      apply (fold_touched _ _ (length b) i); try keeps_length; try others_miss.
      * apply NoDup_seqZ.
      * apply elem_of_seqZ. lia.
      * intros b0 Hb0. apply peek_poke_eq. rewrite length_poke. lia.
      * rewrite fold_length by keeps_length. reflexivity.
  - intros i Hi. rewrite fold_untouched by misses.
    apply (fold_touched _ _ (length b) i); try keeps_length; try others_miss.
    + apply NoDup_seqZ.
    + apply elem_of_seqZ. lia.
    + intros b0 Hb0. apply peek_poke_eq. lia.
    + rewrite !fold_length by keeps_length. reflexivity.
  - intros i Hi.
    apply (fold_touched _ _ (length b) i); try keeps_length; try others_miss.
    + apply NoDup_seqZ.
    + apply elem_of_seqZ. lia.
    + intros b0 Hb0. apply peek_poke_eq. lia.
    + rewrite !fold_length by keeps_length. reflexivity.
  - intros j Hj. do 4 rewrite fold_untouched by misses. reflexivity.
Qed.

(** [saved], as inequalities. *)
Lemma saved_false j :
  saved j = false ->
  (j < offsetof_osc_algorithm \/ offsetof_osc_algorithm + 28 <= j) /\
  (j < offsetof_modulation_matrix \/
   offsetof_modulation_matrix + 3 * kSavedModulationMatrixSize <= j) /\
  (j < offsetof_sequence \/ offsetof_sequence + 8 <= j) /\
  (j < offsetof_name \/ offsetof_name + kPatchNameSize <= j).
Proof.
  unfold saved. rewrite !orb_false_iff, !andb_false_iff.
  rewrite !Z.leb_gt, !Z.ltb_ge. intros [[[A B] C] D].
  repeat apply conj; assumption.
Qed.

(** The bytes of the patch after [Unpack]. *)
Lemma Unpack_bytes b p :
  layout (Z.of_nat (length p)) ->
  (forall i, 0 <= i < 28 ->
     peek (Unpack b p) (offsetof_osc_algorithm + i) = peek b i) /\
  (forall i, 0 <= i < kSavedModulationMatrixSize ->
     peek (Unpack b p) (offsetof_modulation_matrix + 3 * i) =
       Z.land (peek b (2 * i + 28)) 15 /\
     peek (Unpack b p) (offsetof_modulation_matrix + 3 * i + 1) =
       ShiftRight4 (peek b (2 * i + 28)) /\
     peek (Unpack b p) (offsetof_modulation_matrix + 3 * i + 2) =
       peek b (2 * i + 29)) /\
  (forall i, 0 <= i < 8 ->
     peek (Unpack b p) (offsetof_sequence + i) =
       peek b (i + 2 * kSavedModulationMatrixSize + 28)) /\
  (forall i, 0 <= i < 8 ->
     peek (Unpack b p) (offsetof_name + i) =
       peek b (i + 2 * kSavedModulationMatrixSize + 28 + 8)) /\
  (forall j, 0 <= j -> saved j = false -> peek (Unpack b p) j = peek p j).
Proof.
  intros (L1 & L2 & L3 & L4 & L5 & L6 & L7 & L8 & L9).
  unfold Unpack. cbv zeta. repeat apply conj.
  - intros i Hi. do 3 rewrite fold_untouched by misses.
    apply (fold_touched _ _ (length p) i); try keeps_length; try others_miss.
    + apply NoDup_seqZ.
    + apply elem_of_seqZ. lia.
    + intros b0 Hb0. apply peek_poke_eq. lia.
  - intros i Hi. repeat apply conj.
    + do 2 rewrite fold_untouched by misses.
      apply (fold_touched _ _ (length p) i); try keeps_length; try others_miss.
      * apply NoDup_seqZ.
      * apply elem_of_seqZ. lia.
      * intros b0 Hb0. rewrite !peek_poke_ne by lia. apply peek_poke_eq. lia.
      * rewrite fold_length by keeps_length. reflexivity.
    + do 2 rewrite fold_untouched by misses.
      apply (fold_touched _ _ (length p) i); try keeps_length; try others_miss.
      * apply NoDup_seqZ.
      * apply elem_of_seqZ. lia.
      * intros b0 Hb0. rewrite peek_poke_ne by lia. apply peek_poke_eq.
        rewrite length_poke. lia.
      * rewrite fold_length by keeps_length. reflexivity.
    + do 2 rewrite fold_untouched by misses.
      apply (fold_touched _ _ (length p) i); try keeps_length; try others_miss.
      * apply NoDup_seqZ.
      * apply elem_of_seqZ. lia.
      * intros b0 Hb0. apply peek_poke_eq. rewrite !length_poke. lia.
      * rewrite fold_length by keeps_length. reflexivity.
  - intros i Hi. rewrite fold_untouched by misses.
    apply (fold_touched _ _ (length p) i); try keeps_length; try others_miss.
    + apply NoDup_seqZ.
    + apply elem_of_seqZ. lia.
    + intros b0 Hb0. apply peek_poke_eq. lia.
    + rewrite !fold_length by keeps_length. reflexivity.
  - intros i Hi.
    apply (fold_touched _ _ (length p) i); try keeps_length; try others_miss.
    + apply NoDup_seqZ.
    + apply elem_of_seqZ. lia.
    + intros b0 Hb0. apply peek_poke_eq. lia.
    + rewrite !fold_length by keeps_length. reflexivity.
  - intros j Hj Hs. apply saved_false in Hs as (S1 & S2 & S3 & S4).
    do 4 rewrite fold_untouched by misses. reflexivity.
Qed.

Lemma u8_land x : u8 x = Z.land x 255.
Proof. unfold u8. change 255 with (Z.ones 8). rewrite Z.land_ones by lia. reflexivity. Qed.

Lemma ShiftLeft4_low d : Z.land (ShiftLeft4 d) 15 = 0.
Proof.
  unfold ShiftLeft4. rewrite (u8_land (Z.shiftl _ _)), <- Z.land_assoc.
  change (Z.land 255 15) with (Z.ones 4).
  rewrite Z.land_ones, Z.shiftl_mul_pow2 by lia. apply Z.mod_mul. lia.
Qed.

Lemma ShiftLeft4_high d : Z.shiftr (ShiftLeft4 d) 4 = Z.land d 15.
Proof.
  unfold ShiftLeft4. rewrite (u8_land (Z.shiftl _ _)), Z.shiftr_land.
  rewrite Z.shiftr_shiftl_l by lia. change (4 - 4) with 0.
  rewrite Z.shiftl_0_r. change (Z.shiftr 255 4) with 15.
  rewrite u8_land, <- Z.land_assoc. reflexivity.
Qed.

(** The source nibble of a packed row. *)
Lemma packed_source s d :
  Z.land (u8 (Z.lor s (ShiftLeft4 d))) 15 = Z.land s 15.
Proof.
  rewrite u8_land, <- Z.land_assoc. change (Z.land 255 15) with 15.
  rewrite Z.land_lor_distr_l, ShiftLeft4_low. apply Z.lor_0_r.
Qed.

(** The destination nibble of a packed row. *)
Lemma packed_destination s d :
  ShiftRight4 (u8 (Z.lor s (ShiftLeft4 d))) =
  Z.lor (Z.land (Z.shiftr s 4) 15) (Z.land d 15).
Proof.
  unfold ShiftRight4. rewrite u8_idem, u8_land, Z.shiftr_land.
  change (Z.shiftr 255 4) with 15.
  rewrite Z.shiftr_lor, ShiftLeft4_high, Z.land_lor_distr_l.
  rewrite <- (Z.land_assoc d). reflexivity.
Qed.

Lemma nibble_id x : 0 <= x <= 15 -> Z.land x 15 = x.
Proof.
  intros Hx. change 15 with (Z.ones 4). rewrite Z.land_ones by lia.
  apply Z.mod_small. lia.
Qed.

Lemma nibble_high x : 0 <= x <= 15 -> Z.shiftr x 4 = 0.
Proof.
  intros Hx. rewrite Z.shiftr_div_pow2 by lia. apply Z.div_small.
  change (2 ^ 4) with 16. lia.
Qed.

Lemma u8_of_i8 x : 0 <= x <= 255 -> u8 (i8 x) = x.
Proof.
  intros Hx. unfold u8, i8.
  destruct (Z.lt_ge_cases x 128).
  - rewrite (Z.mod_small (x + 128)) by lia.
    replace (x + 128 - 128) with x by lia. apply Z.mod_small. lia.
  - replace (x + 128) with (x - 128 + 1 * 256) by lia.
    rewrite Z.mod_add, (Z.mod_small (x - 128)) by lia.
    replace (x - 128 - 128) with (x + (-1) * 256) by lia.
    rewrite Z.mod_add by lia. apply Z.mod_small. lia.
Qed.

(** The rows of the matrix after a serialisation and back. *)
Lemma Unpack_Pack_rows p b q i :
  layout (Z.of_nat (length q)) ->
  2 * kSavedModulationMatrixSize + 28 + 8 + kPatchNameSize
    <= Z.of_nat (length b) ->
  0 <= i < kSavedModulationMatrixSize ->
  let r := Unpack (Pack p b) q in
  peek r (offsetof_modulation_matrix + 3 * i) = Z.land (modulation_source p i) 15 /\
  peek r (offsetof_modulation_matrix + 3 * i + 1) =
    Z.lor (Z.land (Z.shiftr (modulation_source p i) 4) 15)
          (Z.land (modulation_destination p i) 15) /\
  peek r (offsetof_modulation_matrix + 3 * i + 2) = u8 (modulation_amount p i).
Proof.
  intros Hl Hb Hi. cbv zeta. pose proof Hl as (_ & _ & L3 & _ & _ & L6 & _).
  destruct (Unpack_bytes (Pack p b) q Hl) as (_ & U & _).
  destruct (Pack_bytes p b (proj1 L3) ltac:(lia) Hb) as (_ & P & _).
  destruct (U i Hi) as (U1 & U2 & U3). destruct (P i Hi) as (P1 & P2).
  rewrite U1, U2, U3, P1, P2, packed_source, packed_destination.
  repeat apply conj; reflexivity.
Qed.

(** The other saved bytes after a serialisation and back. *)
Lemma Unpack_Pack_bytes p b q :
  layout (Z.of_nat (length q)) ->
  2 * kSavedModulationMatrixSize + 28 + 8 + kPatchNameSize
    <= Z.of_nat (length b) ->
  let r := Unpack (Pack p b) q in
  (forall i, 0 <= i < 28 ->
     peek r (offsetof_osc_algorithm + i) = peek p (offsetof_osc_algorithm + i)) /\
  (forall i, 0 <= i < 8 ->
     peek r (offsetof_sequence + i) = peek p (offsetof_sequence + i)) /\
  (forall i, 0 <= i < 8 ->
     peek r (offsetof_name + i) = peek p (offsetof_name + i)) /\
  (forall j, 0 <= j -> saved j = false -> peek r j = peek q j).
Proof.
  intros Hl Hb. cbv zeta. pose proof Hl as (_ & _ & L3 & _ & _ & L6 & _).
  destruct (Unpack_bytes (Pack p b) q Hl) as (U1 & _ & U3 & U4 & U5).
  destruct (Pack_bytes p b (proj1 L3) ltac:(lia) Hb) as (P1 & _ & P3 & P4 & _).
  repeat apply conj.
  - intros i Hi. rewrite U1, P1 by exact Hi. reflexivity.
  - intros i Hi. rewrite U3 by exact Hi.
    replace (i + 2 * kSavedModulationMatrixSize + 28)
      with (2 * kSavedModulationMatrixSize + 28 + i) by lia.
    apply P3. exact Hi.
  - intros i Hi. rewrite U4 by exact Hi.
    replace (i + 2 * kSavedModulationMatrixSize + 28 + 8)
      with (2 * kSavedModulationMatrixSize + 28 + 8 + i) by lia.
    apply P4. lia.
  - exact U5.
Qed.

(** [saved], as the member it falls in. *)
Lemma saved_true j :
  0 <= kSavedModulationMatrixSize -> saved j = true ->
  (exists i, 0 <= i < 28 /\ j = offsetof_osc_algorithm + i) \/
  (exists i c, 0 <= i < kSavedModulationMatrixSize /\ 0 <= c < 3 /\
               j = offsetof_modulation_matrix + 3 * i + c) \/
  (exists i, 0 <= i < 8 /\ j = offsetof_sequence + i) \/
  (exists i, 0 <= i < kPatchNameSize /\ j = offsetof_name + i).
Proof.
  intros Hk. unfold saved. rewrite !orb_true_iff, !andb_true_iff.
  rewrite !Z.leb_le, !Z.ltb_lt. intros [[[A|B]|C]|D].
  - left. exists (j - offsetof_osc_algorithm). lia.
  - right. left.
    exists ((j - offsetof_modulation_matrix) / 3),
           ((j - offsetof_modulation_matrix) mod 3).
    pose proof (Z.div_mod (j - offsetof_modulation_matrix) 3 ltac:(lia)).
    pose proof (Z.mod_pos_bound (j - offsetof_modulation_matrix) 3 ltac:(lia)).
    repeat apply conj; lia.
  - right. right. left. exists (j - offsetof_sequence). lia.
  - right. right. right. exists (j - offsetof_name). lia.
Qed.

(** The cells of an array of bytes. *)
Lemma bytes_peek (a : list Z) j :
  Forall (fun x => 0 <= x <= 255) a -> 0 <= peek a j <= 255.
Proof.
  intros Ha. unfold peek.
  destruct (nth_lookup_or_length a (Z.to_nat j) 0) as [E|E].
  - exact (proj1 (Forall_lookup _ a) Ha _ _ E).
  - rewrite nth_overflow by lia. lia.
Qed.

(** A patch of bytes, serialised and read back over another patch, for
    persisted rows whose sources and destinations are below 16: the stored
    bytes are those of the first patch, the others those of the second. *)
Lemma Unpack_Pack p b q :
  layout (Z.of_nat (length q)) ->
  kSerializedPatchSize <= Z.of_nat (length b) ->
  Forall (fun x => 0 <= x <= 255) p ->
  (forall i, 0 <= i < kSavedModulationMatrixSize ->
     modulation_source p i <= 15 /\ modulation_destination p i <= 15) ->
  forall j, 0 <= j ->
    peek (Unpack (Pack p b) q) j = if saved j then peek p j else peek q j.
Proof.
  intros Hq Hb Hbytes Hrows.
  pose proof Hq as (L1 & L2 & L3 & L4 & L5 & L6 & L7 & L8 & L9).
  assert (Hfit : 2 * kSavedModulationMatrixSize + 28 + 8 + kPatchNameSize
                 <= Z.of_nat (length b)) by lia.
  destruct (Unpack_Pack_bytes p b q Hq Hfit) as (B1 & B2 & B3 & B4).
  cbv zeta in B1, B2, B3, B4.
  intros j Hj. destruct (saved j) eqn:Hs; [|apply B4; assumption].
  apply (saved_true j (proj1 L3)) in Hs
    as [(i & Hi & ->)|[(i & c & Hi & Hc & ->)|[(i & Hi & ->)|(i & Hi & ->)]]].
  - apply B1. exact Hi.
  - destruct (Unpack_Pack_rows p b q i Hq Hfit Hi) as (R1 & R2 & R3).
    cbv zeta in R1, R2, R3. destruct (Hrows i Hi) as [Hs Hd].
    pose proof (bytes_peek p (offsetof_modulation_matrix + 3 * i) Hbytes) as Hs0.
    pose proof (bytes_peek p (offsetof_modulation_matrix + 3 * i + 1) Hbytes) as Hd0.
    pose proof (bytes_peek p (offsetof_modulation_matrix + 3 * i + 2) Hbytes) as Ha0.
    assert (Hc3 : c = 0 \/ c = 1 \/ c = 2) by lia.
    unfold modulation_source, modulation_destination, modulation_amount in *.
    destruct Hc3 as [-> | [-> | ->]].
    + rewrite Z.add_0_r, R1. apply nibble_id. lia.
    + rewrite R2, nibble_high, Z.land_0_l, Z.lor_0_l by lia.
      apply nibble_id. lia.
    + rewrite R3. apply u8_of_i8. exact Ha0.
  - apply B2. exact Hi.
  - apply B3. lia.
Qed.

(** X14: [Restore] after [Backup] brings back every byte that [Pack]
    stores, whatever was edited in between, and leaves the other bytes (the
    unsaved rows of the matrix among them) as edited, for a patch of bytes
    whose persisted rows have sources and destinations below 16; when only
    stored bytes were edited, the whole patch is back. *)
Theorem restore_brings_back_the_saved_bytes s edited :
  layout (Z.of_nat (length (patch s))) ->
  kSerializedPatchSize <= Z.of_nat (length (undo_buffer_ s)) ->
  length edited = length (patch s) ->
  Forall (fun x => 0 <= x <= 255) (patch s) ->
  (forall i, 0 <= i < kSavedModulationMatrixSize ->
     modulation_source (patch s) i <= 15 /\
     modulation_destination (patch s) i <= 15) ->
  let s' := Restore (set_patch edited (Backup s)) in
  (forall j, 0 <= j ->
     peek (patch s') j = if saved j then peek (patch s) j else peek edited j) /\
  ((forall j, 0 <= j -> saved j = false -> peek edited j = peek (patch s) j) ->
   patch s' = patch s).
Proof.
  intros Hl Hb He Hbytes Hrows. cbv zeta.
  change (patch (Restore (set_patch edited (Backup s))))
    with (Unpack (Pack (patch s) (undo_buffer_ s)) edited).
  assert (Hq : layout (Z.of_nat (length edited))) by (rewrite He; exact Hl).
  pose proof (Unpack_Pack (patch s) (undo_buffer_ s) edited Hq Hb Hbytes Hrows)
    as Hall.
  split; [exact Hall|].
  intros Hagree. apply peek_ext.
  - rewrite Unpack_length. exact He.
  - intros j Hj. rewrite Hall by lia.
    destruct (saved j) eqn:Hs; [reflexivity|]. apply Hagree; [lia|exact Hs].
Qed.

(** X15: a persisted row is stored on two nibbles: after [Pack] and
    [Unpack] its source is the low nibble of the source, and its destination
    is the low nibble of the destination OR-ed with the high nibble of the
    source, so a source of 16 or more does not come back. *)
Theorem packing_keeps_one_nibble_per_field p b q i :
  layout (Z.of_nat (length q)) ->
  kSerializedPatchSize <= Z.of_nat (length b) ->
  0 <= i < kSavedModulationMatrixSize ->
  let r := Unpack (Pack p b) q in
  modulation_source r i = Z.land (modulation_source p i) 15 /\
  modulation_destination r i =
    Z.lor (Z.land (Z.shiftr (modulation_source p i) 4) 15)
          (Z.land (modulation_destination p i) 15) /\
  (16 <= modulation_source p i -> modulation_source r i <> modulation_source p i).
Proof.
  intros Hl Hb Hi. cbv zeta.
  pose proof Hl as (_ & _ & _ & _ & _ & _ & _ & L8 & _).
  destruct (Unpack_Pack_rows p b q i Hl ltac:(lia) Hi) as (R1 & R2 & _).
  cbv zeta in R1, R2. unfold modulation_source at 1.
  unfold modulation_destination at 1. rewrite R1, R2.
  split; [reflexivity|]. split; [reflexivity|].
  intros Hs.
  assert (E : Z.land (modulation_source p i) 15 = modulation_source p i mod 16)
    by (change 15 with (Z.ones 4); apply Z.land_ones; lia).
  unfold modulation_source at 1. rewrite R1, E.
  pose proof (Z.mod_pos_bound (modulation_source p i) 16 ltac:(lia)). lia.
Qed.

End Serialisation.

(** ** SysEx transfer *)

Section SysEx.
Context `{Headers} `{StorageHeaders}.
Import Storage.

Ltac storage_fields :=
  cbn [patch load_save_buffer_ undo_buffer_ sysex_bytes_received_
       sysex_reception_checksum_ sysex_reception_state_ set_patch
       set_load_save_buffer set_undo_buffer set_reception] in *.

Lemma nibble_range x : 0 <= Z.land x 15 <= 15.
Proof.
  assert (E : Z.land x 15 = x mod 16)
    by (change 15 with (Z.ones 4); apply Z.land_ones; lia).
  rewrite E. pose proof (Z.mod_pos_bound x 16 ltac:(lia)). lia.
Qed.

Lemma ShiftRight4_range x : 0 <= ShiftRight4 x <= 15.
Proof.
  unfold ShiftRight4. pose proof (u8_range x).
  rewrite Z.shiftr_div_pow2 by lia. change (2 ^ 4) with 16.
  split; [apply Z.div_pos; lia|].
  apply Z.lt_succ_r, Z.div_lt_upper_bound; lia.
Qed.

(** A byte is back from its two nibbles. *)
Lemma nibbles_join x :
  0 <= x <= 255 ->
  u8 (Z.lor (ShiftLeft4 (ShiftRight4 x)) (Z.land (u8 (Z.land x 15)) 15)) = x.
Proof.
  intros Hx. pose proof (nibble_range x) as Hn.
  rewrite (u8_id (Z.land x 15)) by lia.
  rewrite <- Z.land_assoc. change (Z.land 15 15) with 15.
  unfold ShiftLeft4, ShiftRight4. rewrite (u8_id x) by lia.
  assert (Hh : 0 <= Z.shiftr x 4 <= 15).
  { rewrite Z.shiftr_div_pow2 by lia. change (2 ^ 4) with 16.
    split; [apply Z.div_pos; lia|].
    apply Z.lt_succ_r, Z.div_lt_upper_bound; lia. }
  rewrite (u8_id (Z.shiftr x 4)) by lia.
  assert (Hs : 0 <= Z.shiftl (Z.shiftr x 4) 4 <= 255).
  { rewrite Z.shiftl_mul_pow2 by lia. change (2 ^ 4) with 16. lia. }
  rewrite (u8_id (Z.shiftl _ _)) by lia.
  rewrite <- Z.ldiff_ones_r by lia. change 15 with (Z.ones 4).
  rewrite Z.lor_ldiff_and. apply u8_id. exact Hx.
Qed.

Lemma receive_app bytes1 bytes2 s :
  receive (bytes1 ++ bytes2) s = (s1 ← receive bytes1 s; receive bytes2 s1).
Proof.
  revert s. induction bytes1 as [|byte bytes1 IH]; intros s; [reflexivity|].
  cbn [app receive]. destruct (SysExReceive byte s) as [s1|]; [|reflexivity].
  cbn [mbind option_bind]. apply IH.
Qed.

(** The header of a message leaves the receiver at the start of the data,
    with a cleared checksum. *)
Lemma receive_header s :
  receive sysex_header s = Some (set_reception 0 0 RECEIVING_DATA s).
Proof. destruct s. reflexivity. Qed.

Lemma even_counter m : 0 <= m -> Z.land (2 * m) 1 = 0 /\ Z.shiftr (2 * m) 1 = m.
Proof.
  intros Hm. split.
  - change 1 with (Z.ones 1). rewrite Z.land_ones by lia.
    change (2 ^ 1) with 2. rewrite Z.mul_comm. apply Z.mod_mul. lia.
  - rewrite Z.shiftr_div_pow2 by lia. change (2 ^ 1) with 2.
    rewrite Z.mul_comm. apply Z.div_mul. lia.
Qed.

Lemma odd_counter m : 0 <= m -> Z.land (2 * m + 1) 1 = 1 /\ Z.shiftr (2 * m + 1) 1 = m.
Proof.
  intros Hm. split.
  - change 1 with (Z.ones 1) at 2. rewrite Z.land_ones by lia.
    change (2 ^ 1) with 2. rewrite Z.add_comm, Z.mul_comm, Z.mod_add by lia.
    reflexivity.
  - rewrite Z.shiftr_div_pow2 by lia. change (2 ^ 1) with 2.
    rewrite Z.add_comm, Z.mul_comm, Z.div_add by lia. reflexivity.
Qed.

(** A nibble received in the data of a message. *)
Lemma SysExReceive_nibble byte p b u r c :
  0 <= byte <= 15 ->
  SysExReceive byte (mk p b u r c RECEIVING_DATA) =
  receive_data byte (mk p b u r c RECEIVING_DATA).
Proof.
  intros Hb. unfold SysExReceive. cbv zeta. rewrite (u8_id byte) by lia.
  destruct (Z.eqb_spec byte 240) as [?|_]; [lia|]. reflexivity.
Qed.

(** The two nibbles of a byte, received at an even count [2 * m], put the
    byte in the cell [m] of the buffer; it is added to the checksum when
    [m] is below [kSerializedPatchSize]. *)
Lemma receive_pair m x p b u c :
  Z.of_nat (length b) = kSerializedPatchSize + 1 ->
  0 <= m <= kSerializedPatchSize -> kSerializedPatchSize <= 126 ->
  0 <= x <= 255 ->
  receive [ShiftRight4 x; Z.land x 15]
    (mk p b u (2 * m) c RECEIVING_DATA) =
  Some (mk p (poke b m x) u (2 * m + 2)
          (if m <? kSerializedPatchSize then u8 (c + x) else c)
          (if (kSerializedPatchSize + 1) * 2 <=? 2 * m + 2
           then RECEIVING_FOOTER else RECEIVING_DATA)).
Proof.
  intros Hb Hm Hk Hx.
  pose proof (ShiftRight4_range x) as Hh. pose proof (nibble_range x) as Hl.
  destruct (even_counter m (proj1 Hm)) as [E1 E2].
  destruct (odd_counter m (proj1 Hm)) as [O1 O2].
  cbn [receive]. rewrite SysExReceive_nibble by lia.
  unfold receive_data. storage_fields.
  rewrite E1, E2. change (negb (0 =? 0)) with false. cbv iota.
  rewrite store_in_range by lia. cbn [mbind option_bind]. storage_fields.
  rewrite (u8_id (2 * m + 1)) by lia.
  destruct (Z.leb_spec ((kSerializedPatchSize + 1) * 2) (2 * m + 1)); [lia|].
  unfold set_reception, set_load_save_buffer. storage_fields.
  rewrite SysExReceive_nibble by lia.
  unfold receive_data. storage_fields.
  rewrite O1, O2. change (negb (1 =? 0)) with true. cbv iota.
  rewrite load_in_range by (rewrite length_poke; lia).
  cbn [mbind option_bind]. rewrite peek_poke_eq by lia.
  pose proof (nibbles_join x Hx) as J.
  rewrite (u8_id (Z.land x 15)) in J by lia. rewrite J.
  rewrite store_in_range by (rewrite length_poke; lia).
  cbn [mbind option_bind]. storage_fields.
  unfold set_reception, set_load_save_buffer.
  destruct (m <? kSerializedPatchSize); storage_fields;
    replace (2 * m + 1 + 1) with (2 * m + 2) by lia;
    rewrite (u8_id (2 * m + 2)) by lia;
    unfold poke; rewrite list_insert_insert_eq; reflexivity.
Qed.

Lemma poke_middle (pre : list Z) y suf x :
  poke (pre ++ y :: suf) (Z.of_nat (length pre)) x = pre ++ x :: suf.
Proof.
  unfold poke. rewrite Nat2Z.id.
  replace (length pre) with (length pre + 0)%nat at 1 by lia.
  rewrite insert_app_r. reflexivity.
Qed.

Lemma peek_middle (pre : list Z) y suf :
  peek (pre ++ y :: suf) (Z.of_nat (length pre)) = y.
Proof.
  unfold peek. rewrite Nat2Z.id. apply nth_middle.
Qed.

(** The data bytes of a message, received from an even count on, fill the
    buffer and add up in the checksum. *)
Lemma receive_bytes data : forall pre suf p u c,
  Z.of_nat (length (pre ++ suf)) = kSerializedPatchSize + 1 ->
  kSerializedPatchSize <= 126 ->
  Z.of_nat (length pre) + Z.of_nat (length data) <= kSerializedPatchSize ->
  Forall (fun x => 0 <= x <= 255) data ->
  receive (nibbles data)
    (mk p (pre ++ suf) u (2 * Z.of_nat (length pre)) c RECEIVING_DATA) =
  Some (mk p (pre ++ data ++ drop (length data) suf) u
          (2 * (Z.of_nat (length pre) + Z.of_nat (length data)))
          (fold_left (fun c x => u8 (c + x)) data c) RECEIVING_DATA).
Proof.
  induction data as [|x data IH]; intros pre suf p u c Hlen Hk Hfit Hbytes.
  - cbn [nibbles flat_map receive length drop app fold_left].
    change (Z.of_nat 0) with 0. rewrite Z.add_0_r. reflexivity.
  - apply Forall_cons in Hbytes as [Hx Hbytes].
    rewrite length_app in Hlen. cbn [length] in Hfit.
    destruct suf as [|y suf]; [cbn [length] in Hlen; lia|].
    change (nibbles (x :: data)) with ([ShiftRight4 x; Z.land x 15] ++ nibbles data).
    rewrite receive_app, receive_pair; try lia;
      [|rewrite length_app; exact Hlen].
    cbn [mbind option_bind]. rewrite poke_middle.
    destruct (Z.ltb_spec (Z.of_nat (length pre)) kSerializedPatchSize); [|lia].
    destruct (Z.leb_spec ((kSerializedPatchSize + 1) * 2)
                (2 * Z.of_nat (length pre) + 2)); [lia|].
    replace (pre ++ x :: suf) with ((pre ++ [x]) ++ suf)
      by (rewrite <- app_assoc; reflexivity).
    replace (2 * Z.of_nat (length pre) + 2)
      with (2 * Z.of_nat (length (pre ++ [x])))
      by (rewrite length_app; cbn [length]; lia).
    rewrite IH; try assumption.
    + cbn [length drop fold_left]. rewrite <- !app_assoc. cbn [app].
      rewrite length_app. cbn [length]. do 2 f_equal. lia.
    + rewrite !length_app in *. cbn [length] in *. lia.
    + rewrite length_app. cbn [length]. lia.
Qed.

(** A whole message: the header, the data and the checksum in nibbles, and
    the end of the message.  The patch is replaced when the checksum is
    the sum of the data and the buffer passes [CheckBuffer], and left alone
    otherwise. *)
Lemma receive_message s data c :
  Z.of_nat (length (load_save_buffer_ s)) = kSerializedPatchSize + 1 ->
  kSerializedPatchSize <= 126 ->
  Z.of_nat (length data) = kSerializedPatchSize ->
  Forall (fun x => 0 <= x <= 255) data -> 0 <= c <= 255 ->
  receive (sysex_header ++ nibbles (data ++ [c]) ++ [247]) s =
  Some (if (sum_bytes data =? c) && negb (CheckBuffer (data ++ [c]) =? 0)
        then mk (Unpack (data ++ [c]) (patch s)) (data ++ [c]) (undo_buffer_ s)
                (2 * kSerializedPatchSize + 2) (sum_bytes data) RECEPTION_OK
        else mk (patch s) (data ++ [c]) (undo_buffer_ s)
                (2 * kSerializedPatchSize + 2) (sum_bytes data) RECEPTION_ERROR).
Proof.
  intros Hlen Hk Hdata Hbytes Hc. destruct s as [p b u r0 c0 st0].
  storage_fields. rewrite receive_app, receive_header.
  cbn [mbind option_bind]. unfold set_reception. storage_fields.
  unfold nibbles. rewrite flat_map_app. fold (nibbles data).
  cbn [flat_map app]. rewrite <- app_assoc, receive_app.
  pose proof (receive_bytes data [] b p u 0) as R.
  cbn [app length] in R. change (Z.of_nat 0) with 0 in R.
  rewrite Z.mul_0_r, Z.add_0_l, Hdata in R.
  rewrite R by (assumption || lia). clear R.
  cbn [mbind option_bind]. fold (sum_bytes data).
  assert (Hd : exists z, drop (length data) b = [z]).
  { assert (Hl : length (drop (length data) b) = 1%nat)
      by (rewrite length_drop; lia).
    destruct (drop (length data) b) as [|z [|]]; try discriminate.
    exists z. reflexivity. }
  destruct Hd as [z ->].
  change ([ShiftRight4 c; Z.land c 15; 247])
    with ([ShiftRight4 c; Z.land c 15] ++ [247]).
  rewrite receive_app.
  rewrite receive_pair; try lia;
    [|rewrite length_app; cbn [length]; lia].
  cbn [mbind option_bind]. rewrite <- Hdata at 1. rewrite poke_middle.
  destruct (Z.ltb_spec kSerializedPatchSize kSerializedPatchSize); [lia|].
  destruct (Z.leb_spec ((kSerializedPatchSize + 1) * 2)
              (2 * kSerializedPatchSize + 2)); [|lia].
  cbn [receive]. unfold SysExReceive. cbv zeta.
  change (u8 247) with 247. change (247 =? 240) with false. cbv iota.
  storage_fields. change (247 =? 247) with true. cbn [andb].
  replace (peek (data ++ [c]) kSerializedPatchSize) with c
    by (rewrite <- Hdata; symmetry; apply peek_middle).
  destruct ((sum_bytes data =? c) && negb (CheckBuffer (data ++ [c]) =? 0));
    reflexivity.
Qed.

Lemma header_length : Z.of_nat (length sysex_header) = 8.
Proof. reflexivity. Qed.

(** One byte of a stream, on a receiver that satisfies [receiving]. *)
Lemma SysExReceive_safe byte s :
  0 <= kSerializedPatchSize <= 126 -> receiving s ->
  exists s', SysExReceive byte s = Some s' /\ receiving s' /\
             length (load_save_buffer_ s') = length (load_save_buffer_ s).
Proof.
  intros Hk (Hlen & Hh & Hd). destruct s as [p b u r c st]. storage_fields.
  unfold SysExReceive. cbv zeta.
  destruct (Z.eqb_spec (u8 byte) 240) as [E|E].
  - storage_fields. rewrite E.
    change (load sysex_header 0) with (Some 240).
    cbn [mbind option_bind]. rewrite Z.eqb_refl.
    change (Z.of_nat (length sysex_header) <=? u8 (0 + 1)) with false.
    cbv iota. change (u8 (0 + 1)) with 1.
    eexists. split; [reflexivity|].
    unfold receiving. storage_fields. split; [|reflexivity].
    split; [exact Hlen|]. split; [intros _; rewrite header_length; lia|discriminate].
  - destruct st; storage_fields.
    + specialize (Hh eq_refl). rewrite load_in_range by exact Hh.
      cbn [mbind option_bind].
      destruct (peek sysex_header r =? u8 byte).
      * destruct (Z.leb_spec (Z.of_nat (length sysex_header)) (u8 (r + 1))).
        -- eexists. split; [reflexivity|]. unfold receiving. storage_fields.
           split; [|reflexivity].
           split; [exact Hlen|]. split; [discriminate|intros _; lia].
        -- eexists. split; [reflexivity|]. unfold receiving. storage_fields.
           split; [|reflexivity].
           split; [exact Hlen|]. pose proof (u8_range (r + 1)).
           split; [intros _; lia|discriminate].
      * eexists. split; [reflexivity|]. unfold receiving. storage_fields.
        split; [|reflexivity].
        split; [exact Hlen|]. split; discriminate.
    + specialize (Hd eq_refl). unfold receive_data. storage_fields.
      assert (Hi : 0 <= Z.shiftr r 1 <= kSerializedPatchSize).
      { rewrite Z.shiftr_div_pow2 by lia. change (2 ^ 1) with 2.
        split; [apply Z.div_pos; lia|].
        apply Z.lt_succ_r, Z.div_lt_upper_bound; lia. }
      assert (Hfin : forall b' c',
                length b' = length b ->
                exists s',
                  Some (set_reception (u8 (r + 1)) c'
                          (if (kSerializedPatchSize + 1) * 2 <=? u8 (r + 1)
                           then RECEIVING_FOOTER else RECEIVING_DATA)
                          (mk p b' u r c' RECEIVING_DATA)) = Some s' /\
                  receiving s' /\ length (load_save_buffer_ s') = length b).
      { intros b' c' Hb'. eexists. split; [reflexivity|].
        unfold receiving. storage_fields. split; [|exact Hb'].
        split; [rewrite Hb'; exact Hlen|]. pose proof (u8_range (r + 1)).
        destruct (Z.leb_spec ((kSerializedPatchSize + 1) * 2) (u8 (r + 1)));
          split; try discriminate; intros _; lia. }
      destruct (negb (Z.land r 1 =? 0)).
      * rewrite load_in_range by lia. cbn [mbind option_bind].
        rewrite store_in_range by lia. cbn [mbind option_bind].
        unfold set_load_save_buffer, set_reception. storage_fields.
        destruct (Z.shiftr r 1 <? kSerializedPatchSize); storage_fields;
          apply Hfin; apply length_poke.
      * rewrite store_in_range by lia. cbn [mbind option_bind].
        unfold set_load_save_buffer. storage_fields.
        apply Hfin. apply length_poke.
    + destruct (_ && _); eexists; (split; [reflexivity|]);
        unfold receiving; storage_fields; (split; [|reflexivity]);
        (split; [exact Hlen|]); split; discriminate.
    + eexists. split; [reflexivity|]. split; [|reflexivity].
      unfold receiving. storage_fields.
      split; [exact Hlen|]. split; discriminate.
    + eexists. split; [reflexivity|]. split; [|reflexivity].
      unfold receiving. storage_fields.
      split; [exact Hlen|]. split; discriminate.
Qed.

(** X16: the reception of SysEx bytes is memory-safe: on a receiver whose
    buffer has its declared size and whose counter is inside the header or
    the buffer, every stream of bytes, whatever they are, is handled
    without an access outside the header or the buffer, and leaves such a
    receiver. *)
Theorem sysex_reception_is_memory_safe bytes : forall s,
  0 <= kSerializedPatchSize <= 126 -> receiving s ->
  exists s', receive bytes s = Some s' /\ receiving s' /\
             length (load_save_buffer_ s') = length (load_save_buffer_ s).
Proof.
  induction bytes as [|byte bytes IH]; intros s Hk Hs.
  - exists s. split; [reflexivity|]. split; [exact Hs|reflexivity].
  - destruct (SysExReceive_safe byte s Hk Hs) as (s1 & E1 & R1 & L1).
    destruct (IH s1 Hk R1) as (s' & E & R & L).
    exists s'. cbn [receive]. rewrite E1. cbn [mbind option_bind].
    split; [exact E|]. split; [exact R|]. rewrite L. exact L1.
Qed.

Lemma nibbles_are_data bytes : Forall (fun x => 0 <= x <= 127) (nibbles bytes).
Proof.
  induction bytes as [|x bytes IH]; [constructor|].
  change (nibbles (x :: bytes)) with ([ShiftRight4 x; Z.land x 15] ++ nibbles bytes).
  pose proof (ShiftRight4_range x). pose proof (nibble_range x).
  repeat constructor; try lia. exact IH.
Qed.

Lemma length_nibbles bytes : length (nibbles bytes) = (2 * length bytes)%nat.
Proof.
  induction bytes as [|x bytes IH]; [reflexivity|].
  change (nibbles (x :: bytes)) with ([ShiftRight4 x; Z.land x 15] ++ nibbles bytes).
  rewrite length_app, IH. cbn [length]. lia.
Qed.

Lemma flat_map_peek (g : Z -> list Z) b l :
  flat_map (fun i => g (peek b i)) l = flat_map g (map (peek b) l).
Proof.
  induction l as [|i l IH]; [reflexivity|]. cbn [flat_map map]. rewrite IH.
  reflexivity.
Qed.

(** X17: the message written by [SysExSend] is a well-formed SysEx
    message: it starts with 0xf0, ends with 0xf7, has [2 * size + 11] bytes
    for a serialised patch of [size] bytes, and every byte in between is a
    MIDI data byte (below 128), whatever the patch holds. *)
Theorem sysex_message_is_well_formed s :
  0 <= kSerializedPatchSize ->
  exists payload,
    snd (SysExSend s) = 240 :: payload ++ [247] /\
    Forall (fun x => 0 <= x <= 127) payload /\
    Z.of_nat (length (snd (SysExSend s))) = 2 * kSerializedPatchSize + 11.
Proof.
  intros Hk. unfold SysExSend. cbv zeta. cbn [snd].
  set (b := Pack (patch s) (load_save_buffer_ s)).
  rewrite (flat_map_peek (fun x => [ShiftRight4 x; Z.land x 15])).
  fold (nibbles (map (peek b) (seqZ 0 kSerializedPatchSize))).
  set (data := map (peek b) (seqZ 0 kSerializedPatchSize)).
  exists ([0; 32; 119; 0; 1; 1; 0] ++ nibbles data
          ++ [ShiftRight4 (checksum b); Z.land (checksum b) 15]).
  split; [|split].
  - unfold sysex_header. cbn [app]. rewrite <- !app_assoc. reflexivity.
  - apply Forall_app. split; [repeat constructor; lia|].
    apply Forall_app. split; [apply nibbles_are_data|].
    pose proof (ShiftRight4_range (checksum b)).
    pose proof (nibble_range (checksum b)). repeat constructor; lia.
  - rewrite !length_app, length_nibbles. unfold data.
    rewrite length_map, length_seqZ. cbn [length sysex_header]. lia.
Qed.

Lemma fold_left_ext_in {A : Type} (f g : A -> Z -> A) l :
  (forall a i, i ∈ l -> f a i = g a i) ->
  forall a, fold_left f l a = fold_left g l a.
Proof.
  induction l as [|i l IH]; intros Hfg a; [reflexivity|].
  cbn [fold_left]. rewrite Hfg by apply list_elem_of_here.
  apply IH. intros a0 i0 Hi0. apply Hfg. apply list_elem_of_further. exact Hi0.
Qed.

Lemma existsb_ext_in (f g : Z -> bool) l :
  (forall i, i ∈ l -> f i = g i) -> existsb f l = existsb g l.
Proof.
  induction l as [|i l IH]; intros Hfg; [reflexivity|].
  cbn [existsb]. rewrite Hfg by apply list_elem_of_here. f_equal.
  apply IH. intros i0 Hi0. apply Hfg. apply list_elem_of_further. exact Hi0.
Qed.

(** [Unpack] and [CheckBuffer] read the serialised patch only. *)
Lemma Unpack_ext b b' q :
  0 <= kSavedModulationMatrixSize ->
  2 * kSavedModulationMatrixSize + 28 + 8 + 8 <= kSerializedPatchSize ->
  (forall j, 0 <= j < kSerializedPatchSize -> peek b j = peek b' j) ->
  Unpack b q = Unpack b' q.
Proof.
  intros Hk Hfit Hb. unfold Unpack. cbv zeta.
  rewrite (fold_left_ext_in
             (fun p i => poke p (offsetof_osc_algorithm + i) (peek b i))
             (fun p i => poke p (offsetof_osc_algorithm + i) (peek b' i)))
    by (intros a i Hi; apply elem_of_seqZ in Hi; rewrite Hb by lia; reflexivity).
  set (p1 := fold_left _ (seqZ 0 28) q). clearbody p1.
  rewrite (fold_left_ext_in _
             (fun p i =>
                poke (poke (poke p (offsetof_modulation_matrix + 3 * i)
                              (Z.land (peek b' (2 * i + 28)) 15))
                        (offsetof_modulation_matrix + 3 * i + 1)
                        (ShiftRight4 (peek b' (2 * i + 28))))
                     (offsetof_modulation_matrix + 3 * i + 2)
                     (peek b' (2 * i + 29)))
             (seqZ 0 kSavedModulationMatrixSize))
    by (intros a i Hi; apply elem_of_seqZ in Hi;
        rewrite !(Hb (2 * i + 28)), (Hb (2 * i + 29)) by lia; reflexivity).
  set (p2 := fold_left _ (seqZ 0 kSavedModulationMatrixSize) p1). clearbody p2.
  rewrite (fold_left_ext_in
             (fun p i => poke p (offsetof_sequence + i)
                           (peek b (i + 2 * kSavedModulationMatrixSize + 28)))
             (fun p i => poke p (offsetof_sequence + i)
                           (peek b' (i + 2 * kSavedModulationMatrixSize + 28)))
             (seqZ 0 8))
    by (intros a i Hi; apply elem_of_seqZ in Hi; rewrite Hb by lia; reflexivity).
  apply fold_left_ext_in.
  intros a i Hi. apply elem_of_seqZ in Hi. rewrite Hb by lia. reflexivity.
Qed.

Lemma CheckBuffer_ext b b' :
  0 <= kSavedModulationMatrixSize -> 0 <= kPatchNameSize ->
  2 * kSavedModulationMatrixSize + 28 + 8 + kPatchNameSize <= kSerializedPatchSize ->
  kSerializedPatchSize <= 126 ->
  (forall j, 0 <= j < kSerializedPatchSize -> peek b j = peek b' j) ->
  CheckBuffer b = CheckBuffer b'.
Proof.
  intros Hk Hn Hfit Hsize Hb. unfold CheckBuffer. cbv zeta.
  rewrite (u8_id (2 * kSavedModulationMatrixSize + 28 + 8)) by lia.
  rewrite (existsb_ext_in (fun i => 128 <? peek b i)
             (fun i => 128 <? peek b' i) (seqZ 6 20))
    by (intros i Hi; apply elem_of_seqZ in Hi; rewrite Hb by lia; reflexivity).
  rewrite (existsb_ext_in (fun i => 128 <? peek b i)
             (fun i => 128 <? peek b' i) (seqZ _ kPatchNameSize))
    by (intros i Hi; apply elem_of_seqZ in Hi; rewrite Hb by lia; reflexivity).
  reflexivity.
Qed.

(** The bytes of the serialised patch, as a list. *)
Lemma peek_data b c j :
  0 <= j < kSerializedPatchSize ->
  peek (map (peek b) (seqZ 0 kSerializedPatchSize) ++ [c]) j = peek b j.
Proof.
  intros Hj. unfold peek at 1.
  rewrite app_nth1 by (rewrite length_map, length_seqZ; lia).
  apply nth_lookup_Some. rewrite list_lookup_fmap, lookup_seqZ_lt by lia.
  cbn [fmap option_fmap option_map]. rewrite Z.add_0_l, Z2Nat.id by lia.
  reflexivity.
Qed.

Lemma fold_left_map_peek (f : Z -> Z -> Z) b l : forall a,
  fold_left (fun c i => f c (peek b i)) l a = fold_left f (map (peek b) l) a.
Proof.
  induction l as [|i l IH]; intros a; [reflexivity|]. cbn [fold_left map].
  apply IH.
Qed.

Lemma checksum_sum b :
  checksum b = sum_bytes (map (peek b) (seqZ 0 kSerializedPatchSize)).
Proof.
  unfold checksum, sum_bytes.
  apply (fold_left_map_peek (fun c x => u8 (c + x))).
Qed.

Lemma sum_bytes_range bytes : 0 <= sum_bytes bytes <= 255.
Proof.
  unfold sum_bytes.
  assert (Hgen : forall a, 0 <= a <= 255 ->
            0 <= fold_left (fun c x => u8 (c + x)) bytes a <= 255).
  { induction bytes as [|x bytes IH]; intros a Ha; [exact Ha|].
    cbn [fold_left]. apply IH. apply u8_range. }
  apply Hgen. lia.
Qed.

(** A loop of stores of bytes into an array of bytes. *)
Lemma fold_bytes (step : list Z -> Z -> list Z) l :
  (forall b i, Forall (fun x => 0 <= x <= 255) b ->
               Forall (fun x => 0 <= x <= 255) (step b i)) ->
  forall b, Forall (fun x => 0 <= x <= 255) b ->
            Forall (fun x => 0 <= x <= 255) (fold_left step l b).
Proof.
  intros Hstep. induction l as [|i l IH]; intros b Hb; [exact Hb|].
  cbn [fold_left]. apply IH, Hstep, Hb.
Qed.

Lemma poke_byte (b : list Z) i x :
  Forall (fun x => 0 <= x <= 255) b -> 0 <= x <= 255 ->
  Forall (fun x => 0 <= x <= 255) (poke b i x).
Proof. intros Hb Hx. unfold poke. apply Forall_insert; assumption. Qed.

Lemma Pack_bytes_range p b :
  Forall (fun x => 0 <= x <= 255) p -> Forall (fun x => 0 <= x <= 255) b ->
  Forall (fun x => 0 <= x <= 255) (Pack p b).
Proof.
  intros Hp Hb. unfold Pack. cbv zeta.
  repeat apply fold_bytes; try exact Hb; intros b0 i Hb0;
    repeat apply poke_byte; try exact Hb0;
    first [apply bytes_peek; exact Hp | apply u8_range].
Qed.

(** [CheckBuffer] on a serialised patch: the bytes 6 to 25 after
    [osc_algorithm] and the name are at most 128. *)
Lemma CheckBuffer_Pack p b :
  0 <= kSavedModulationMatrixSize -> 0 <= kPatchNameSize ->
  2 * kSavedModulationMatrixSize + 28 + 8 + kPatchNameSize
    <= Z.of_nat (length b) ->
  2 * kSavedModulationMatrixSize + 28 + 8 + kPatchNameSize <= 255 ->
  (forall i, 6 <= i < 26 -> peek p (offsetof_osc_algorithm + i) <= 128) ->
  (forall i, 0 <= i < kPatchNameSize -> peek p (offsetof_name + i) <= 128) ->
  CheckBuffer (Pack p b) = 1.
Proof.
  intros Hk Hn Hb Hu Hparams Hname.
  destruct (Pack_bytes p b Hk Hn Hb) as (P1 & _ & _ & P4 & _).
  unfold CheckBuffer. cbv zeta.
  rewrite (u8_id (2 * kSavedModulationMatrixSize + 28 + 8)) by lia.
  rewrite (existsb_ext_in _ (fun _ => false) (seqZ 6 20)).
  - rewrite (existsb_ext_in _ (fun _ => false) (seqZ _ kPatchNameSize)).
    + assert (Hf : forall l : list Z, existsb (fun _ => false) l = false)
        by (induction l; [reflexivity|assumption]).
      rewrite !Hf. reflexivity.
    + intros i Hi. apply elem_of_seqZ in Hi. apply Z.ltb_ge.
      replace i with (2 * kSavedModulationMatrixSize + 28 + 8
                      + (i - (2 * kSavedModulationMatrixSize + 28 + 8))) by lia.
      rewrite P4 by lia. apply Hname. lia.
  - intros i Hi. apply elem_of_seqZ in Hi. apply Z.ltb_ge.
    rewrite P1 by lia. apply Hparams. lia.
Qed.

(** X18: a patch sent by [SysExSend] and received byte by byte through
    [SysExReceive] arrives: the reception ends in [RECEPTION_OK], and the
    patch of the receiver holds the bytes of the sender wherever [Pack]
    stores them and keeps its own bytes elsewhere; this for a patch of
    bytes that passes [CheckBuffer] and whose persisted rows have sources
    and destinations below 16, whatever state the receiver was in. *)
Theorem sysex_round_trip sender receiver :
  layout (Z.of_nat (length (patch receiver))) ->
  Z.of_nat (length (load_save_buffer_ sender)) = kSerializedPatchSize + 1 ->
  Z.of_nat (length (load_save_buffer_ receiver)) = kSerializedPatchSize + 1 ->
  Forall (fun x => 0 <= x <= 255) (load_save_buffer_ sender) ->
  Forall (fun x => 0 <= x <= 255) (patch sender) ->
  (forall i, 0 <= i < kSavedModulationMatrixSize ->
     modulation_source (patch sender) i <= 15 /\
     modulation_destination (patch sender) i <= 15) ->
  (forall i, 6 <= i < 26 ->
     peek (patch sender) (offsetof_osc_algorithm + i) <= 128) ->
  (forall i, 0 <= i < 8 -> peek (patch sender) (offsetof_name + i) <= 128) ->
  exists r,
    receive (snd (SysExSend sender)) receiver = Some r /\
    sysex_reception_state_ r = RECEPTION_OK /\
    forall j, 0 <= j ->
      peek (patch r) j =
      if saved j then peek (patch sender) j else peek (patch receiver) j.
Proof.
  intros Hl Hs Hr Hbuf Hbytes Hrows Hparams Hname.
  pose proof Hl as (L1 & L2 & L3 & L4 & L5 & L6 & L7 & L8 & L9).
  unfold SysExSend. cbv zeta. cbn [snd].
  set (b := Pack (patch sender) (load_save_buffer_ sender)).
  rewrite (flat_map_peek (fun x => [ShiftRight4 x; Z.land x 15])).
  fold (nibbles (map (peek b) (seqZ 0 kSerializedPatchSize))).
  set (data := map (peek b) (seqZ 0 kSerializedPatchSize)).
  set (c := checksum b).
  assert (Es : sysex_header ++ nibbles data ++ [ShiftRight4 c; Z.land c 15] ++ [247]
               = sysex_header ++ nibbles (data ++ [c]) ++ [247]).
  { unfold nibbles. rewrite flat_map_app. cbn [flat_map app].
    rewrite <- app_assoc. reflexivity. }
  rewrite Es. clear Es.
  assert (Hb : Forall (fun x => 0 <= x <= 255) b)
    by (apply Pack_bytes_range; assumption).
  assert (Hlen : Z.of_nat (length data) = kSerializedPatchSize)
    by (unfold data; rewrite length_map, length_seqZ; lia).
  assert (Hdata : Forall (fun x => 0 <= x <= 255) data).
  { apply Forall_forall. intros x Hx. unfold data in Hx.
    apply list_elem_of_fmap in Hx as (i & -> & _). apply bytes_peek. exact Hb. }
  assert (Hsum : sum_bytes data = c) by (symmetry; apply checksum_sum).
  assert (Hc : 0 <= c <= 255) by (rewrite <- Hsum; apply sum_bytes_range).
  rewrite (receive_message receiver data c Hr L9 Hlen Hdata Hc).
  assert (Hsame : forall j, 0 <= j < kSerializedPatchSize ->
            peek (data ++ [c]) j = peek b j)
    by (intros j Hj; apply peek_data; exact Hj).
  rewrite (CheckBuffer_ext (data ++ [c]) b) by (assumption || lia).
  unfold b at 1. rewrite CheckBuffer_Pack; try lia;
    [|exact Hparams|rewrite L6; exact Hname].
  rewrite Hsum, Z.eqb_refl. cbn [andb negb Z.eqb]. eexists.
  split; [reflexivity|]. split; [reflexivity|]. storage_fields.
  rewrite (Unpack_ext (data ++ [c]) b) by (assumption || lia).
  apply Unpack_Pack; try assumption. lia.
Qed.

(** X19: a message whose checksum byte is not the sum of its data bytes,
    or whose data do not pass [CheckBuffer], is received to its end and
    rejected: the reception ends in [RECEPTION_ERROR] and the patch is left
    as it was. *)
Theorem corrupted_message_is_rejected s data c :
  Z.of_nat (length (load_save_buffer_ s)) = kSerializedPatchSize + 1 ->
  kSerializedPatchSize <= 126 ->
  Z.of_nat (length data) = kSerializedPatchSize ->
  Forall (fun x => 0 <= x <= 255) data -> 0 <= c <= 255 ->
  c <> sum_bytes data \/ CheckBuffer (data ++ [c]) = 0 ->
  exists r,
    receive (sysex_header ++ nibbles (data ++ [c]) ++ [247]) s = Some r /\
    sysex_reception_state_ r = RECEPTION_ERROR /\
    patch r = patch s /\ load_save_buffer_ r = data ++ [c].
Proof.
  intros Hlen Hk Hdata Hbytes Hc Hbad.
  rewrite (receive_message s data c Hlen Hk Hdata Hbytes Hc).
  assert (E : (sum_bytes data =? c) && negb (CheckBuffer (data ++ [c]) =? 0)
              = false).
  { destruct Hbad as [Hne|Hz].
    - destruct (Z.eqb_spec (sum_bytes data) c); [congruence|reflexivity].
    - rewrite Hz. apply andb_false_r. }
  rewrite E. eexists. split; [reflexivity|]. repeat apply conj; reflexivity.
Qed.

End SysEx.

(** ** EEPROM slots *)

Section Eeprom.
Context `{Headers} `{StorageHeaders}.
Import Storage.

Ltac storage_fields :=
  cbn [patch load_save_buffer_ undo_buffer_ sysex_bytes_received_
       sysex_reception_checksum_ sysex_reception_state_ set_patch
       set_load_save_buffer set_undo_buffer set_reception] in *.



(** The slot read back into the buffer by [EepromLoad]. *)
Lemma loaded_buffer (eeprom : Z -> Z) offset b i :
  0 <= i < kSerializedPatchSize ->
  kSerializedPatchSize <= Z.of_nat (length b) ->
  peek (fold_left (fun b i => poke b i (u8 (eeprom (i16 (i + offset)))))
                  (seqZ 0 kSerializedPatchSize) b) i
  = u8 (eeprom (i16 (i + offset))).
Proof.
  intros Hi Hb.
  apply (fold_touched _ _ (length b) i).
  - apply NoDup_seqZ.
  - apply elem_of_seqZ. lia.
  - intros. apply length_poke.
  - intros b0 Hb0. apply peek_poke_eq. lia.
  - intros b0 i' Hin Hne. apply elem_of_seqZ in Hin.
    apply peek_poke_ne; lia.
  - reflexivity.
Qed.



(** X21: a slot whose content does not pass [CheckBuffer] (a byte above
    128 among the bytes 6 to 25 or in the name, as in an erased EEPROM) is
    not loaded: [EepromLoad] only puts a question mark in the first letter
    of the name. *)
Theorem eeprom_load_rejects_a_bad_slot slot eeprom t0 i :
  0 <= kSavedModulationMatrixSize -> 0 <= kPatchNameSize ->
  2 * kSavedModulationMatrixSize + 28 + 8 + kPatchNameSize <= kSerializedPatchSize ->
  kSerializedPatchSize <= 126 ->
  kSerializedPatchSize <= Z.of_nat (length (load_save_buffer_ t0)) ->
  6 <= i < 26 \/
  2 * kSavedModulationMatrixSize + 28 + 8 <= i
    < 2 * kSavedModulationMatrixSize + 28 + 8 + kPatchNameSize ->
  128 < u8 (eeprom (i16 (i + i16 (u8 slot * kSerializedPatchSize)))) ->
  patch (EepromLoad slot eeprom t0) = poke (patch t0) offsetof_name 63.
Proof.
  intros Hk Hn Hfit Hsize Hbt Hi Hbad. unfold EepromLoad. cbv zeta.
  set (b2 := fold_left _ (seqZ 0 kSerializedPatchSize) (load_save_buffer_ t0)).
  assert (Hpeek : (128 <? peek b2 i) = true).
  { apply Z.ltb_lt. unfold b2. rewrite loaded_buffer by lia. exact Hbad. }
  assert (Hcheck : CheckBuffer b2 = 0).
  { unfold CheckBuffer. cbv zeta.
    destruct (existsb (fun i => 128 <? peek b2 i) (seqZ 6 20)) eqn:E1;
      [reflexivity|].
    assert (E2 : existsb (fun i => 128 <? peek b2 i)
                   (seqZ (u8 (2 * kSavedModulationMatrixSize + 28 + 8))
                         kPatchNameSize) = true).
    { apply existsb_exists. exists i. split; [|exact Hpeek].
      apply list_elem_of_In, elem_of_seqZ.
      rewrite u8_id by lia. destruct Hi as [Hi|Hi]; [|lia].
      exfalso. assert (Hin : In i (seqZ 6 20))
        by (apply list_elem_of_In, elem_of_seqZ; lia).
      pose proof (proj2 (existsb_exists (fun i => 128 <? peek b2 i) (seqZ 6 20))
                    (ex_intro _ i (conj Hin Hpeek))).
      congruence. }
    rewrite E2. reflexivity. }
  rewrite Hcheck. reflexivity.
Qed.

End Eeprom.

(** * Patch editor

    ** Navigation between the pages *)

Section Navigation.
Context `{Headers} `{StorageHeaders} `{EditorHeaders}.
Import Editor.

(** A page of the table is one of its thirteen indices. *)
Lemma page_cases (page : Z) :
  0 <= page < 13 ->
  In page (seqZ 0 13).
Proof.
  intros Hp. apply list_elem_of_In, elem_of_seqZ. lia.
Qed.

(** A page that has a group is in the table. *)
Lemma page_group_in_table page g :
  page_group page = Some g -> 0 <= page < 13.
Proof.
  unfold page_group. destruct (Z.ltb_spec page 0); [discriminate|].
  intros E. destruct (page_definition_ !! Z.to_nat page) eqn:L; [|discriminate].
  apply lookup_lt_Some in L. cbn in L. lia.
Qed.

(** The load/save page is the only page of its group. *)
Lemma load_save_page page :
  page_group page = Some GROUP_LOAD_SAVE -> page = PAGE_LOAD_SAVE.
Proof.
  intros E. pose proof (page_group_in_table _ _ E) as Hp.
  apply page_cases in Hp. vm_compute in Hp.
  repeat (destruct Hp as [<-|Hp]; [first [reflexivity | discriminate E]|]).
  destruct Hp.
Qed.

(** The search of [ToggleGroup] over the whole table finds a page of the
    group. *)
Lemma first_page_of_found group next :
  exists page, first_page_of group (seqZ 0 13) next = Some page /\
               page_group page = Some group.
Proof.
  destruct group; vm_compute; eexists; split; reflexivity.
Qed.

(** [ToggleGroup] on the load/save group. *)
Lemma ToggleGroup_load_save ed :
  ToggleGroup GROUP_LOAD_SAVE ed =
  Some (mk PAGE_TYPE_DETAILS PAGE_LOAD_SAVE (last_visited_page_ ed)
           (current_controller_ ed) (last_visited_subpage_ ed) 0 0 ACTION_EXIT
           (current_patch_number_ ed) (current_patch_number_ ed)
           (test_note_playing_ ed) (assign_in_progress_ ed)
           (assigned_parameters_ ed) (parameter_to_assign_ ed),
        DisplaySetCursorPosition kLcdNoCursor ::
        (if bool_decide (action_ ed = ACTION_SAVE)
         then [PatchEepromSave (current_patch_number_ ed); PatchSysExSend]
         else []) ++ [PatchBackup]).
Proof.
  unfold ToggleGroup, EnterLoadSaveMode. cbn. reflexivity.
Qed.

(** [ToggleGroup] towards a group other than the one of the current
    page. *)
Lemma ToggleGroup_other_group group current ed :
  group <> GROUP_LOAD_SAVE ->
  page_group (current_page_ ed) = Some current ->
  group <> current ->
  ToggleGroup group ed =
  Some (mk PAGE_TYPE_DETAILS (last_visited_page_ ed group)
           (fun g => if bool_decide (g = group) then last_visited_page_ ed group
                     else last_visited_page_ ed g)
           (current_controller_ ed) (last_visited_subpage_ ed) 0
           (if last_visited_page_ ed group =? PAGE_MOD_MATRIX
            then last_visited_subpage_ ed else 0)
           (action_ ed) (current_patch_number_ ed)
           (previous_patch_number_ ed) (test_note_playing_ ed)
           (assign_in_progress_ ed) (assigned_parameters_ ed)
           (parameter_to_assign_ ed),
        [DisplaySetCursorPosition kLcdNoCursor]).
Proof.
  intros Hg Ecur Hne. unfold ToggleGroup. cbv zeta.
  rewrite (bool_decide_eq_false_2 _ Hg).
  cbn [current_page_ last_visited_page_ last_visited_subpage_ subpage_].
  rewrite Ecur. cbn [mbind option_bind].
  rewrite (bool_decide_eq_false_2 _ Hne). reflexivity.
Qed.

(** What [ToggleGroup] leaves behind: a page of the group, remembered for
    the group; the other groups and the modulation row are remembered as
    before, and the row is the one shown on the modulation matrix. *)
Lemma ToggleGroup_page group ed ed' calls :
  kNumPages = 13 ->
  (forall g, page_group (last_visited_page_ ed g) = Some g) ->
  ToggleGroup group ed = Some (ed', calls) ->
  page_group (current_page_ ed') = Some group /\
  last_visited_subpage_ ed' = last_visited_subpage_ ed /\
  (forall g, last_visited_page_ ed' g =
             if bool_decide (g = group) then current_page_ ed'
             else last_visited_page_ ed g) /\
  subpage_ ed' =
    (if current_page_ ed' =? PAGE_MOD_MATRIX then last_visited_subpage_ ed
     else 0).
Proof.
  intros Hn Hv E.
  destruct (decide (group = GROUP_LOAD_SAVE)) as [->|Hg].
  - rewrite ToggleGroup_load_save in E. injection E as <- _.
    cbn [current_page_ last_visited_page_ last_visited_subpage_ subpage_].
    repeat apply conj; try reflexivity.
    intros g. destruct (decide (g = GROUP_LOAD_SAVE)) as [->|Hne].
    + rewrite bool_decide_eq_true_2 by reflexivity. apply load_save_page, Hv.
    + rewrite bool_decide_eq_false_2 by exact Hne. reflexivity.
  - unfold ToggleGroup in E. cbv zeta in E.
    rewrite (bool_decide_eq_false_2 _ Hg) in E.
    cbn [current_page_ last_visited_page_ last_visited_subpage_ subpage_] in E.
    destruct (page_group (current_page_ ed)) as [current|] eqn:Ecur;
      [|discriminate E].
    cbn [mbind option_bind] in E.
    assert (Hpage : forall page,
      page_group page = Some group ->
      forall ed0 calls0,
      Some (mk PAGE_TYPE_DETAILS page
               (fun g => if bool_decide (g = group) then page
                         else last_visited_page_ ed g)
               (current_controller_ ed) (last_visited_subpage_ ed) 0
               (if page =? PAGE_MOD_MATRIX then last_visited_subpage_ ed else 0)
               (action_ ed) (current_patch_number_ ed)
               (previous_patch_number_ ed) (test_note_playing_ ed)
               (assign_in_progress_ ed) (assigned_parameters_ ed)
               (parameter_to_assign_ ed), calls0) = Some (ed0, calls) ->
      page_group (current_page_ ed0) = Some group /\
      last_visited_subpage_ ed0 = last_visited_subpage_ ed /\
      (forall g, last_visited_page_ ed0 g =
                 if bool_decide (g = group) then current_page_ ed0
                 else last_visited_page_ ed g) /\
      subpage_ ed0 =
        (if current_page_ ed0 =? PAGE_MOD_MATRIX then last_visited_subpage_ ed
         else 0)).
    { intros page Hp ed0 calls0 E0. injection E0 as <- _.
      cbn [current_page_ last_visited_page_ last_visited_subpage_ subpage_].
      repeat apply conj; try reflexivity. exact Hp. }
    destruct (decide (group = current)) as [<-|Hne].
    + rewrite bool_decide_eq_true_2 in E by reflexivity. cbn [negb] in E.
      destruct (page_group (current_page_ ed + 1)) as [next|] eqn:Enext;
        [|discriminate E].
      cbn [mbind option_bind] in E.
      destruct (decide (next = group)) as [->|Hnext].
      * rewrite bool_decide_eq_true_2 in E by reflexivity. cbn [negb] in E.
        cbn [mbind option_bind] in E.
        exact (Hpage _ Enext _ _ E).
      * rewrite bool_decide_eq_false_2 in E by exact Hnext. cbn [negb] in E.
        rewrite Hn in E.
        destruct (first_page_of_found group (current_page_ ed + 1))
          as (page & Ef & Hp).
        rewrite Ef in E.
        cbn [mbind option_bind] in E.
        exact (Hpage _ Hp _ _ E).
    + rewrite bool_decide_eq_false_2 in E by exact Hne. cbn [negb] in E.
      cbn [mbind option_bind] in E.
      exact (Hpage _ (Hv group) _ _ E).
Qed.

(** X23: [ToggleGroup] ends on a page of the requested group, and keeps the
    pages remembered for the groups inside their groups, the current page
    being the one remembered for its group. *)
Theorem ToggleGroup_lands_in_the_group group ed ed' calls :
  kNumPages = 13 ->
  visited_in_group ed ->
  ToggleGroup group ed = Some (ed', calls) ->
  page_group (current_page_ ed') = Some group /\ visited_in_group ed'.
Proof.
  intros Hn [Hv _] E.
  destruct (ToggleGroup_page _ _ _ _ Hn Hv E) as (Hp & _ & Hl & _).
  split; [exact Hp|]. split.
  - intros g. rewrite Hl. destruct (decide (g = group)) as [->|Hne].
    + rewrite bool_decide_eq_true_2 by reflexivity. exact Hp.
    + rewrite bool_decide_eq_false_2 by exact Hne. apply Hv.
  - intros g Eg. rewrite Hp in Eg. injection Eg as <-.
    rewrite Hl, bool_decide_eq_true_2 by reflexivity. reflexivity.
Qed.

(** X24: on a page of the table, [ToggleGroup] reads [page_definition_]
    past its last entry in one case only: towards the performance group
    from the performance page, the last of the table. *)
Theorem ToggleGroup_reads_past_the_table group ed :
  kNumPages = 13 ->
  0 <= current_page_ ed < 13 ->
  ToggleGroup group ed = None <->
  group = GROUP_PERFORMANCE /\ current_page_ ed = PAGE_PERFORMANCE.
Proof.
  intros Hn Hp. unfold ToggleGroup. rewrite Hn.
  destruct ed as [display page visited controller row cursor subpage action
                  number previous note assign assigned to_assign].
  cbn [current_page_] in Hp |- *.
  apply page_cases in Hp. vm_compute in Hp.
  repeat (destruct Hp as [<-|Hp];
          [destruct group; vm_compute;
           (split; [intros E; first [discriminate E | split; reflexivity]
                   |intros [E1 E2]; first [discriminate E1 | discriminate E2
                                          | reflexivity]])|]).
  destruct Hp.
Qed.

(** X25: the row chosen on the modulation matrix page changes nothing in
    the engine, and is shown again when the editor comes back to the
    modulation group from any other group. *)
Theorem modulation_row_is_remembered group row ed ed1 calls1 :
  kNumPages = 13 ->
  PRM_MOD_ROW <> PRM_ARP_TEMPO ->
  visited_in_group ed ->
  current_page_ ed = PAGE_MOD_MATRIX ->
  group <> GROUP_MOD ->
  ToggleGroup group (SetParameterWithHacks PRM_MOD_ROW row ed).1
    = Some (ed1, calls1) ->
  (SetParameterWithHacks PRM_MOD_ROW row ed).2 = [] /\
  exists ed2 calls2,
    ToggleGroup GROUP_MOD ed1 = Some (ed2, calls2) /\
    current_page_ ed2 = PAGE_MOD_MATRIX /\
    subpage_ ed2 = row.
Proof.
  intros Hn Hrow [Hv Hc] Hpage Hg.
  unfold SetParameterWithHacks. cbv zeta.
  destruct (Z.eqb_spec PRM_MOD_ROW PRM_ARP_TEMPO) as [E|_]; [contradiction|].
  cbn [andb]. rewrite Hpage, !Z.eqb_refl. cbn [andb fst snd].
  intros E. split; [reflexivity|].
  apply ToggleGroup_page in E; [|exact Hn|exact Hv].
  cbn [last_visited_page_ last_visited_subpage_] in E.
  destruct E as (Hp1 & Hs1 & Hl1 & _).
  assert (Hmod : last_visited_page_ ed1 GROUP_MOD = PAGE_MOD_MATRIX).
  { rewrite Hl1, bool_decide_eq_false_2 by (apply not_eq_sym; exact Hg).
    rewrite <- Hpage. apply Hc. rewrite Hpage. reflexivity. }
  eexists _, _. split.
  - apply (ToggleGroup_other_group GROUP_MOD group ed1);
      [discriminate | exact Hp1 | apply not_eq_sym; exact Hg].
  - cbn [current_page_ subpage_]. rewrite Hmod. split; [reflexivity|].
    rewrite Z.eqb_refl. exact Hs1.
Qed.

(** X26: a press on the load/save switch writes the patch to the EEPROM
    exactly when the action is [ACTION_SAVE], whatever the page the editor
    was on, at the current patch number; the press that follows writes
    nothing. *)
Theorem patch_is_saved_once ed :
  exists ed1 calls1,
    ToggleGroup GROUP_LOAD_SAVE ed = Some (ed1, calls1) /\
    List.filter is_save calls1 =
      (if bool_decide (action_ ed = ACTION_SAVE)
       then [PatchEepromSave (current_patch_number_ ed)] else []) /\
    exists ed2 calls2,
      ToggleGroup GROUP_LOAD_SAVE ed1 = Some (ed2, calls2) /\
      List.filter is_save calls2 = [].
Proof.
  eexists _, _. split; [apply ToggleGroup_load_save|]. split.
  - destruct (bool_decide (action_ ed = ACTION_SAVE)); reflexivity.
  - eexists _, _. split; [apply ToggleGroup_load_save|]. reflexivity.
Qed.

End Navigation.

(** ** Edition of a parameter *)

Section Editing.
Context `{Headers} `{StorageHeaders} `{EditorHeaders}.
Import Editor.

(** Bytes are added and subtracted modulo 256. *)
Lemma u8_sub_add a b c : u8 (u8 a - u8 b + c) = u8 (a - b + c).
Proof.
  unfold u8.
  replace (a mod 256 - b mod 256 + c)
    with (a - b + c + (b / 256 - a / 256) * 256).
  - apply Z_mod_plus_full.
  - pose proof (Z.div_mod a 256). pose proof (Z.div_mod b 256). lia.
Qed.

Lemma u8_add_r a b : u8 (a + u8 b) = u8 (a + b).
Proof.
  unfold u8.
  replace (a + b mod 256) with (a + b + (- (b / 256)) * 256).
  - apply Z_mod_plus_full.
  - pose proof (Z.div_mod b 256). lia.
Qed.

Lemma i8_u8 z : i8 (u8 z) = i8 z.
Proof.
  unfold i8, u8.
  replace (z mod 256 + 128) with (z + 128 + (- (z / 256)) * 256).
  - rewrite Z_mod_plus_full. reflexivity.
  - pose proof (Z.div_mod z 256). lia.
Qed.

(** X27: the value a knob gives to a parameter lies between the bounds of
    the parameter, read as signed or as unsigned bytes, for the 10-bit
    positions of the knobs and a unit other than [UNIT_RAW_UINT8]. *)
Theorem knob_stays_between_the_bounds parameter value lo hi :
  unit parameter <> UNIT_RAW_UINT8 ->
  lo <= hi -> hi - lo <= 254 ->
  min_value parameter = u8 lo ->
  max_value parameter = u8 hi ->
  0 <= value < 1024 ->
  exists x, lo <= x <= hi /\ knob_value parameter value = u8 x.
Proof.
  intros Hunit Hle Hwide Hmin Hmax Hvalue.
  unfold knob_value. cbv zeta.
  destruct (Z.eqb_spec (unit parameter) UNIT_RAW_UINT8) as [E|_];
    [contradiction|].
  rewrite Hmin, Hmax, u8_sub_add, (u8_id (hi - lo + 1)) by lia.
  assert (Hu : u16 value = value) by (unfold u16; apply Z.mod_small; lia).
  rewrite Hu, !Z.shiftr_div_pow2 by lia.
  change (2 ^ 3) with 8. change (2 ^ 7) with 128.
  set (k := value / 8).
  assert (Hk : 0 <= k <= 127).
  { subst k. split; [apply Z.div_pos; lia|].
    apply Z.lt_succ_r, Z.div_lt_upper_bound; lia. }
  clearbody k.
  assert (Hp : u16 (k * (hi - lo + 1)) = k * (hi - lo + 1))
    by (unfold u16; apply Z.mod_small; nia).
  rewrite Hp.
  set (n := k * (hi - lo + 1) / 128).
  assert (Hn : 0 <= n <= hi - lo).
  { subst n. split; [apply Z.div_pos; nia|].
    apply Z.lt_succ_r, Z.div_lt_upper_bound; nia. }
  clearbody n.
  exists (lo + n). split; [lia|].
  rewrite (u8_id n), u8_add_r by lia. f_equal. lia.
Qed.

(** X28: a parameter written through [SetParameterWithHacks] reads back
    through [GetParameterWithHacks], the engine answering what it was
    sent: the value written, or 39 for a tempo below 40. *)
Theorem parameter_reads_back get_parameter id value ed :
  0 <= value <= 255 ->
  (forall index v,
     In (EngineSetParameter index v) (SetParameterWithHacks id value ed).2 ->
     get_parameter index = v) ->
  GetParameterWithHacks get_parameter id (SetParameterWithHacks id value ed).1 =
    if (id =? PRM_ARP_TEMPO) && (value <? 40) then 39 else value.
Proof.
  intros Hvalue. unfold SetParameterWithHacks, GetParameterWithHacks. cbv zeta.
  set (sent := if (id =? PRM_ARP_TEMPO) && (value <? 40) then 0 else value).
  assert (Hsent : (if (id =? PRM_ARP_TEMPO) && (sent =? 0) then 39 else sent) =
                  if (id =? PRM_ARP_TEMPO) && (value <? 40) then 39 else value).
  { subst sent. destruct (id =? PRM_ARP_TEMPO); cbn [andb]; [|reflexivity].
    destruct (Z.ltb_spec value 40); [reflexivity|].
    destruct (Z.eqb_spec value 0); [lia|reflexivity]. }
  assert (Hbyte : 0 <= sent <= 255).
  { subst sent. destruct ((id =? PRM_ARP_TEMPO) && (value <? 40)); lia. }
  clearbody sent.
  destruct ((current_page_ ed =? PAGE_MOD_MATRIX) && (id =? PRM_MOD_ROW))
    eqn:Erow; cbn [fst snd current_page_ subpage_]; intros Hget.
  - rewrite Erow. exact Hsent.
  - rewrite Erow, (Hget _ sent) by (left; reflexivity).
    rewrite (u8_id sent) by exact Hbyte. exact Hsent.
Qed.

(** X29: the value an increment writes is the value read moved by the
    direction, without wrap-around, and lies between the bounds of the
    parameter: as signed bytes for [UNIT_INT8], as unsigned bytes
    otherwise. *)
Theorem increment_stays_between_the_bounds parameter current direction value :
  0 <= current <= 255 ->
  0 <= min_value parameter <= 255 ->
  0 <= max_value parameter <= 255 ->
  incremented_value parameter current direction = Some value ->
  if unit parameter =? UNIT_INT8
  then i8 value = i8 current + i8 direction /\
       i8 (min_value parameter) <= i8 value <= i8 (max_value parameter)
  else value = current + i8 direction /\
       min_value parameter <= value <= max_value parameter.
Proof.
  intros Hc Hmin Hmax. unfold incremented_value. cbv zeta.
  pose proof (i8_range current) as Hic.
  pose proof (i8_range direction) as Hid.
  pose proof (i8_range (min_value parameter)) as Himin.
  pose proof (i8_range (max_value parameter)) as Himax.
  destruct (unit parameter =? UNIT_INT8).
  - rewrite (i16_id (i8 current + i8 direction)) by lia.
    destruct (Z.leb_spec (i8 (min_value parameter)) (i8 current + i8 direction));
      [|discriminate].
    destruct (Z.leb_spec (i8 current + i8 direction) (i8 (max_value parameter)));
      [|discriminate].
    cbn [andb]. intros E. injection E as <-.
    rewrite i8_u8, i8_id by lia. lia.
  - rewrite (i16_id (current + i8 direction)) by lia.
    destruct (Z.leb_spec (min_value parameter) (current + i8 direction));
      [|discriminate].
    destruct (Z.leb_spec (current + i8 direction) (max_value parameter));
      [|discriminate].
    cbn [andb]. intros E. injection E as <-.
    rewrite u8_id by lia. lia.
Qed.

End Editing.

(** ** Edition of the name of the patch *)

Section Naming.
Context `{Headers} `{StorageHeaders} `{EditorHeaders}.
Import Editor.

Lemma existsb_false {A} (f : A -> bool) l x :
  existsb f l = false -> In x l -> f x = false.
Proof.
  intros E Hx. destruct (f x) eqn:Ex; [|reflexivity].
  rewrite <- E. symmetry. apply existsb_exists. exists x. split; assumption.
Qed.

(** What [CheckBuffer] accepts in a serialised patch. *)
Lemma CheckBuffer_accepts p b :
  0 <= kSavedModulationMatrixSize -> 0 <= kPatchNameSize ->
  2 * kSavedModulationMatrixSize + 28 + 8 + kPatchNameSize
    <= Z.of_nat (length b) ->
  2 * kSavedModulationMatrixSize + 28 + 8 + kPatchNameSize <= 255 ->
  Storage.CheckBuffer (Storage.Pack p b) = 1 ->
  (forall i, 6 <= i < 26 -> peek p (offsetof_osc_algorithm + i) <= 128) /\
  (forall i, 0 <= i < kPatchNameSize -> peek p (offsetof_name + i) <= 128).
Proof.
  intros Hk Hn Hb Hu.
  destruct (Pack_bytes p b Hk Hn Hb) as (P1 & _ & _ & P4 & _).
  unfold Storage.CheckBuffer. cbv zeta.
  rewrite (u8_id (2 * kSavedModulationMatrixSize + 28 + 8)) by lia.
  destruct (existsb _ (seqZ 6 20)) eqn:E1; [discriminate|].
  destruct (existsb _ (seqZ _ kPatchNameSize)) eqn:E2; [discriminate|].
  intros _. split.
  - intros i Hi.
    pose proof (existsb_false _ _ i E1) as Hf. cbv beta in Hf.
    rewrite P1 in Hf by lia. apply Z.ltb_ge, Hf.
    apply list_elem_of_In, elem_of_seqZ. lia.
  - intros i Hi.
    pose proof (existsb_false _ _
                  (2 * kSavedModulationMatrixSize + 28 + 8 + i) E2) as Hf.
    cbv beta in Hf. rewrite P4 in Hf by lia. apply Z.ltb_ge, Hf.
    apply list_elem_of_In, elem_of_seqZ. lia.
Qed.

(** A letter of at most 128 written in the name keeps the patch
    acceptable. *)
Lemma set_name_letter_accepted size p p' b cursor value :
  Storage.layout size ->
  Z.of_nat (length p) = size ->
  kSerializedPatchSize <= Z.of_nat (length b) ->
  Storage.CheckBuffer (Storage.Pack p b) = 1 ->
  0 <= cursor -> value <= 128 ->
  set_name_letter p cursor value = Some p' ->
  Storage.CheckBuffer (Storage.Pack p' b) = 1.
Proof.
  intros (L1 & L2 & L3 & L4 & L5 & L6 & L7 & L8 & L9) Hp Hb Hok Hc Hv.
  unfold set_name_letter.
  destruct (Z.leb_spec kPatchNameSize cursor) as [|Hcur]; [discriminate|].
  rewrite store_in_range by lia. intros E. injection E as <-.
  destruct (CheckBuffer_accepts p b) as [Hparams Hname]; try lia; try exact Hok.
  apply CheckBuffer_Pack; try lia.
  - intros i Hi. rewrite peek_poke_ne by lia. apply Hparams, Hi.
  - intros i Hi. destruct (Z.eq_dec i cursor) as [->|Hne].
    + rewrite peek_poke_eq by lia. exact Hv.
    + rewrite peek_poke_ne by lia. apply Hname, Hi.
Qed.

(** X30: a patch that [CheckBuffer] accepts once serialised is still
    accepted after its name is edited on the load/save page, with the
    increment switches or with a knob at a 10-bit position. *)
Theorem edited_name_stays_acceptable size ed p b :
  Storage.layout size ->
  Z.of_nat (length p) = size ->
  kSerializedPatchSize <= Z.of_nat (length b) ->
  0 <= cursor_ ed ->
  Storage.CheckBuffer (Storage.Pack p b) = 1 ->
  (forall direction p',
     HandleLoadSaveIncrement direction ed p = Some p' ->
     Storage.CheckBuffer (Storage.Pack p' b) = 1) /\
  (forall knob value ed' p' calls,
     0 <= value < 1024 ->
     HandleLoadSaveInput knob value ed p = Some (ed', p', calls) ->
     Storage.CheckBuffer (Storage.Pack p' b) = 1).
Proof.
  intros Hl Hp Hb Hc Hok. split.
  - intros direction p'. unfold HandleLoadSaveIncrement.
    destruct (bool_decide (action_ ed = ACTION_SAVE));
      [|intros E; injection E as <-; exact Hok].
    destruct (name_letter p (cursor_ ed)) as [letter|]; [|discriminate].
    cbn [mbind option_bind]. cbv zeta.
    destruct (Z.leb_spec 32 (u8 (letter + i8 direction)));
      [|intros E; injection E as <-; exact Hok].
    destruct (Z.leb_spec (u8 (letter + i8 direction)) 128) as [Hv|];
      [|intros E; injection E as <-; exact Hok].
    cbn [andb]. apply (set_name_letter_accepted size); assumption.
  - intros knob value ed' p' calls Hvalue. unfold HandleLoadSaveInput.
    cbv zeta.
    assert (Hu : u16 value = value) by (unfold u16; apply Z.mod_small; lia).
    rewrite Hu.
    destruct (u8 knob =? 0); [intros E; injection E as _ <- _; exact Hok|].
    destruct (u8 knob =? 1).
    { destruct (bool_decide (action_ ed = ACTION_SAVE));
        intros E; injection E as _ <- _; exact Hok. }
    destruct (u8 knob =? 2).
    { destruct (bool_decide (action_ ed = ACTION_SAVE));
        [|intros E; injection E as _ <- _; exact Hok].
      destruct (set_name_letter p (cursor_ ed) _) as [p1|] eqn:E1;
        [|discriminate].
      cbn [mbind option_bind]. intros E. injection E as _ <- _.
      revert E1. apply (set_name_letter_accepted size); try assumption.
      rewrite Z.shiftl_mul_pow2 by lia. change (2 ^ 1) with 2.
      assert (H2 : u16 (value * 2) = value * 2)
        by (unfold u16; apply Z.mod_small; lia).
      rewrite H2.
      assert (H3 : u16 (value + value * 2) = value * 3)
        by (unfold u16; rewrite Z.mod_small; lia).
      rewrite H3, Z.shiftr_div_pow2 by lia. change (2 ^ 5) with 32.
      assert (0 <= value * 3 / 32 <= 95).
      { split; [apply Z.div_pos; lia|].
        apply Z.lt_succ_r, Z.div_lt_upper_bound; lia. }
      rewrite u8_id; lia. }
    destruct (u8 knob =? 3).
    { destruct (value <? 64); intros E; injection E as _ <- _; exact Hok. }
    intros E; injection E as _ <- _; exact Hok.
Qed.

End Naming.

(** ** The theorems on the concrete configuration *)

Section Concrete.
Import Example.
#[local] Existing Instance headers.
#[local] Existing Instance resources.

(** Closed facts about numerals, by evaluation. *)
Ltac evaluate :=
  vm_compute; repeat split; try reflexivity; try discriminate;
  intros; discriminate.

Lemma silent_matrix_amounts i :
  In i Voice.matrix_rows -> modulation_amount silent_matrix_patch i = 0.
Proof.
  intros Hi. vm_compute in Hi.
  repeat (destruct Hi as [<-|Hi]; [reflexivity|]). contradiction.
Qed.

Lemma zero_amount_rows_have_no_effect_witness :
  (forall i, In i Voice.matrix_rows ->
             modulation_amount silent_matrix_patch i = 0) /\
  Spec.valid_destinations (length (replicate 11 0)) = true /\
  exists dst' destinations',
    Voice.resolve_destinations silent_matrix_patch (sources_with_wheel 0)
      (voice_sources_env1 255) (replicate 11 0) (replicate 11 0)
    = Some (dst', destinations') /\
    u8 (peek destinations' MOD_DST_VCA) = 255 /\
    peek destinations' MOD_DST_MIX_BALANCE =
      i8 (Op.ShiftRight6 (i16 (Z.shiftl (mix_balance silent_matrix_patch) 8))).
Proof.
  split; [exact silent_matrix_amounts|]. split; [vm_compute; reflexivity|].
  destruct (zero_amount_rows_have_no_effect silent_matrix_patch
              (sources_with_wheel 0) (voice_sources_env1 255)
              (replicate 11 0) (replicate 11 0)) as [_ Hall].
  destruct (Hall silent_matrix_amounts
              ltac:(vm_compute; reflexivity) ltac:(vm_compute; reflexivity))
    as (d & m & E & V & _ & _ & _ & B & _).
  exists d, m. repeat split; assumption.
Defined.

(** With every amount at zero, a filter cutoff of 110, a filter envelope
    amount of 10 and the first envelope at 255, the cutoff resolves to 255
    (the byte -1) and not to its base value 220 (the byte -36). *)
Lemma zero_amount_cutoff_counterexample :
  (forall i, In i Voice.matrix_rows ->
             modulation_amount silent_matrix_patch i = 0) /\
  exists dst' destinations',
    Voice.resolve_destinations silent_matrix_patch (sources_with_wheel 0)
      (voice_sources_env1 255) (replicate 11 0) (replicate 11 0)
    = Some (dst', destinations') /\
    peek destinations' MOD_DST_FILTER_CUTOFF = -1 /\
    i8 (Op.ShiftRight6 (i16 (Z.shiftl (filter_cutoff silent_matrix_patch) 7))) = -36 /\
    peek destinations' MOD_DST_FILTER_CUTOFF <>
      i8 (Op.ShiftRight6 (i16 (Z.shiftl (filter_cutoff silent_matrix_patch) 7))).
Proof.
  split; [exact silent_matrix_amounts|].
  eexists _, _. split; [vm_compute; reflexivity|]. evaluate.
Qed.

Lemma matrix_processes_every_row_witness :
  5 <> kSavedModulationMatrixSize - 1 /\
  Voice.effective_amount empty_patch (sources_with_wheel 64) 5 =
    modulation_amount empty_patch 5.
Proof.
  split; [evaluate|].
  apply (matrix_processes_every_row empty_patch (sources_with_wheel 64)
           (voice_sources 0) (accumulators empty_patch)).
  evaluate.
Defined.

(** With 14 rows in the matrix, the code and the rows of the specification
    resolve different accumulators, whether 10 or 13 rows are persisted: the
    wheel-scaled row replaces the last persisted row instead of following
    it, and the rows after it are read from the patch. *)
Lemma matrix_rows_counterexample :
  @Voice.modulation_loop (headers_saving 10) patch_with_last_row
     (sources_with_wheel 0) (voice_sources 0)
     (@Voice.matrix_rows (headers_saving 10)) (accumulators patch_with_last_row)
  <> @Spec.run_rows (headers_saving 10) (sources_with_wheel 0) (voice_sources 0)
       (@Spec.claimed_rows (headers_saving 10) patch_with_last_row
          (sources_with_wheel 0))
       (accumulators patch_with_last_row) /\
  @Voice.modulation_loop (headers_saving 13) patch_with_last_row
     (sources_with_wheel 0) (voice_sources 0)
     (@Voice.matrix_rows (headers_saving 13)) (accumulators patch_with_last_row)
  <> @Spec.run_rows (headers_saving 13) (sources_with_wheel 0) (voice_sources 0)
       (@Spec.claimed_rows (headers_saving 13) patch_with_last_row
          (sources_with_wheel 0))
       (accumulators patch_with_last_row) /\
  length (@Voice.matrix_rows (headers_saving 10)) <> 11%nat.
Proof. evaluate. Qed.

Lemma amplitude_sign_symmetry_witness :
  6 <> kSavedModulationMatrixSize - 1 /\ 0 < 63 <= 127 /\ 0 <= 200 <= 255 /\
  Voice.apply_modulation (patch_with_vca_row 6 63) (sources_with_wheel 100)
    (voice_sources 200) 6 (accumulators empty_patch) =
  Voice.apply_modulation (patch_with_vca_row 6 193) (sources_with_wheel 100)
    (voice_sources 55) 6 (accumulators empty_patch).
Proof.
  split; [evaluate|]. split; [lia|]. split; [lia|].
  apply (amplitude_sign_symmetry (patch_with_vca_row 6 63)
           (patch_with_vca_row 6 193) (sources_with_wheel 100)
           (voice_sources 200) (sources_with_wheel 100) (voice_sources 55)
           6 63 200 (accumulators empty_patch));
    first [lia | evaluate].
Defined.

(** On the wheel-scaled row (index 9), with the wheel at 100, the amount 1
    on the source value 0 resolves the amplitude 253 and the amount -1 on
    the source value 255 resolves 249. *)
Lemma amplitude_sign_symmetry_counterexample :
  Voice.apply_modulation (patch_with_vca_row 9 1) (sources_with_wheel 100)
    (voice_sources 0) 9 (accumulators empty_patch)
  <> Voice.apply_modulation (patch_with_vca_row 9 255) (sources_with_wheel 100)
       (voice_sources 255) 9 (accumulators empty_patch) /\
  modulation_amount (patch_with_vca_row 9 1) 9 = 1 /\
  modulation_amount (patch_with_vca_row 9 255) 9 = -1 /\
  modulation_destination (patch_with_vca_row 9 1) 9 = MOD_DST_VCA.
Proof. evaluate. Qed.


Lemma portamento_first_note_snap_witness :
  Voice.pitch_value_ voice = 0 /\
  Voice.pitch_value_ (fst (Voice.Trigger empty_patch 60 100 0 voice)) = 7680.
Proof.
  split; [reflexivity|].
  pose proof (portamento_first_note_snap empty_patch 60 100 0 voice eq_refl) as Hs.
  cbv zeta in Hs. destruct Hs as [Hv _]. rewrite Hv. vm_compute. reflexivity.
Defined.

Lemma pitch_below_table_is_shifted_witness :
  0 < kOctave <= 32767 /\ kLowestNote <= 6000 < kHighestNote /\
  6000 < kPitchTableStart /\
  Voice.resolve_increment loop_fuel 6000 =
    Some (Z.shiftr (Spec.table_lookup (6000 + 5 * kOctave)) 5).
Proof.
  split; [evaluate|]. split; [evaluate|]. split; [evaluate|].
  pose proof (pitch_below_table_is_shifted 6000 ltac:(evaluate) ltac:(evaluate)
                ltac:(evaluate) ltac:(evaluate) ltac:(evaluate)) as Hs.
  cbv zeta in Hs. exact (proj1 Hs).
Defined.

(** An assembled pitch one octave below [kLowestNote] is wrapped by one
    octave that is not counted: the entry is shifted by 8, not by the 9
    octaves that separate the pitch from the table. *)
Lemma pitch_below_lowest_note_counterexample :
  -1536 < kLowestNote /\ -1536 < kPitchTableStart /\
  Spec.octaves_below_table (-1536) = 9 /\
  Voice.resolve_increment loop_fuel (-1536) = Some 128 /\
  Spec.claimed_increment (-1536) = 64 /\
  Voice.resolve_increment loop_fuel (-1536) <>
    Some (Spec.claimed_increment (-1536)).
Proof. evaluate. Qed.

Lemma lfo_resync_cadence_witness :
  Spec.reset_cadence (patch_with_lfo_rates 3 7) = 32 /\
  SynthesisEngine.step_notifications (replicate 31 (tick true)) = 31 /\
  let e := fst (SynthesisEngine.UpdateModulationIncrements 6000
                  (engine_with_lfo_rates 3 7)) in
  let e' := SynthesisEngine.run_control_engine
              (replicate 31 (tick true) ++ [tick true]) e in
  SynthesisEngine.num_lfo_reset_steps_ e = 32 /\
  map Lfo.phase_
    (SynthesisEngine.lfo_
       (SynthesisEngine.run_control_engine (replicate 31 (tick true)) e))
    = [310; 155] /\
  SynthesisEngine.lfo_reset_counter_ e' = 0 /\
  forall (i : nat) l,
    lfo_rate (patch_with_lfo_rates 3 7) (Z.of_nat i) < 16 ->
    SynthesisEngine.lfo_ e' !! i = Some l -> Lfo.phase_ l = 0.
Proof.
  split; [vm_compute; reflexivity|]. split; [vm_compute; reflexivity|].
  pose proof (lfo_resync_cadence 6000 (engine_with_lfo_rates 3 7)
                (replicate 31 (tick true)) (tick true)
                ltac:(evaluate) ltac:(evaluate) ltac:(evaluate)
                ltac:(reflexivity) ltac:(reflexivity) ltac:(evaluate)
                ltac:(reflexivity)) as (N & _ & _ & _ & Hadvance & Hreset).
  cbv zeta. split; [rewrite N; vm_compute; reflexivity|].
  split; [rewrite Hadvance; vm_compute; reflexivity|].
  apply Hreset. vm_compute. reflexivity.
Defined.

(** With both LFO rates at 15 the product of [1 + rate] is 256 and the
    cadence stored in the byte [num_lfo_reset_steps_] is 0. *)
Lemma lfo_cadence_counterexample :
  lfo_rate (patch_with_lfo_rates 15 15) 0 = 15 /\
  lfo_rate (patch_with_lfo_rates 15 15) 1 = 15 /\
  Spec.reset_cadence (patch_with_lfo_rates 15 15) = 256 /\
  SynthesisEngine.num_lfo_reset_steps_
    (fst (SynthesisEngine.UpdateModulationIncrements 6000
            (engine_with_lfo_rates 15 15))) = 0 /\
  SynthesisEngine.num_lfo_reset_steps_
    (fst (SynthesisEngine.UpdateModulationIncrements 6000
            (engine_with_lfo_rates 15 15)))
  <> Spec.reset_cadence (patch_with_lfo_rates 15 15).
Proof. evaluate. Qed.

Lemma xor_mix_witness :
  Voice.dead_ (live_voice 0) = 0 /\
  osc_option (patch_with_operator 3 10) 0 = XOR /\ XOR <> RING_MOD /\
  Voice.signal_ (fst (Voice.Audio (patch_with_operator 3 10) samples (live_voice 0)))
  = Z.lxor 178 108.
Proof.
  split; [reflexivity|]. split; [vm_compute; reflexivity|]. split; [evaluate|].
  apply (xor_mix (patch_with_operator 3 10) samples (live_voice 0));
    first [reflexivity | evaluate].
Defined.

(** With the XOR operator, a saw on oscillator 1, the samples 0b10110010
    and 0b01101100, a mix balance of 0 and a resolved sub-oscillator level
    of 126, the rendered sample is 110, not the exclusive-or 222; it is 220
    with the sub-oscillator and noise levels at 0. *)
Lemma xor_mix_counterexample :
  osc_option (patch_with_operator 3 1) 0 = XOR /\
  peek (Voice.modulation_destinations_ (live_voice 126)) MOD_DST_MIX_BALANCE = 0 /\
  Z.lxor 178 108 = 222 /\
  Voice.signal_ (fst (Voice.Audio (patch_with_operator 3 1) samples (live_voice 126)))
  = 110 /\
  Voice.signal_ (fst (Voice.Audio (patch_with_operator 3 1) samples (live_voice 0)))
  = 220 /\
  Voice.signal_ (fst (Voice.Audio (patch_with_operator 3 1) samples (live_voice 126)))
  <> Z.lxor 178 108.
Proof. evaluate. Qed.

Lemma SetParameter_dispatch_witness :
  71 + 1 < Z.of_nat (length (SynthesisEngine.patch_ engine)) /\
  Spec.distinct_bytes Spec.arpeggiator_parameters = true /\
  exists e' calls,
    SynthesisEngine.SetParameter beats 71 3 engine = Some (e', calls) /\
    peek (SynthesisEngine.patch_ e') (71 + 1) = 3 /\
    List.filter Spec.is_controller_call calls = [ControllerSetOctaves 3].
Proof.
  split; [evaluate|]. split; [vm_compute; reflexivity|].
  assert (H1 : 71 + 1 < Z.of_nat (length (SynthesisEngine.patch_ engine)))
    by evaluate.
  assert (H2 : Spec.distinct_bytes Spec.arpeggiator_parameters = true)
    by (vm_compute; reflexivity).
  destruct (SetParameter_dispatch beats 71 3 engine ltac:(lia) ltac:(lia) H1 H2)
    as (e' & calls & E & P & _ & _ & _ & F & _).
  exists e', calls. split; [exact E|]. split; [exact P|].
  apply F. reflexivity.
Defined.

Lemma data_entry_guard_witness :
  Spec.distinct_bytes Spec.midi_controllers = true /\ sizeof_Patch <= 256 /\
  SynthesisEngine.nrpn_parameter_number_ engine = 255 /\
  SynthesisEngine.ControlChange beats 0 kDataEntryMsb 42 engine = Some (engine, []).
Proof.
  split; [vm_compute; reflexivity|]. split; [evaluate|]. split; [reflexivity|].
  assert (H1 : Spec.distinct_bytes Spec.midi_controllers = true)
    by (vm_compute; reflexivity).
  assert (H2 : sizeof_Patch <= 256) by evaluate.
  destruct (data_entry_guard beats engine H1 H2) as [_ Hquiet].
  destruct (Hquiet eq_refl) as [Hq _]. apply Hq.
Defined.

End Concrete.

(** ** The further properties on the concrete configuration *)

Section ConcreteFurther.
Import Example.
#[local] Existing Instance headers.
#[local] Existing Instance resources.

Ltac evaluate :=
  vm_compute; repeat split; try reflexivity; try discriminate;
  intros; discriminate.

Lemma wrap_pitch_lands_in_range_witness :
  -32768 <= -20000 <= 32767 /\
  exists wrapped octaves,
    Voice.wrap_pitch loop_fuel (-20000) = Some wrapped /\
    kLowestNote <= wrapped < kHighestNote /\
    wrapped = -20000 + octaves * kOctave.
Proof.
  split; [lia|]. apply (wrap_pitch_lands_in_range (-20000)); evaluate.
Defined.

Lemma pitch_below_lowest_note_aliases_witness :
  -100 < kLowestNote /\
  Voice.resolve_increment loop_fuel (-100) =
  Voice.resolve_increment loop_fuel (-100 + kOctave).
Proof.
  split; [evaluate|]. apply (pitch_below_lowest_note_aliases (-100)); evaluate.
Defined.

Lemma octave_down_halves_increment_witness :
  kLowestNote <= 6000 /\ 6000 + kOctave < kHighestNote /\
  6000 < kPitchTableStart /\
  exists increment,
    Voice.resolve_increment loop_fuel (6000 + kOctave) = Some increment /\
    Voice.resolve_increment loop_fuel 6000 = Some (Z.shiftr increment 1).
Proof.
  split; [evaluate|]. split; [evaluate|]. split; [evaluate|].
  apply (octave_down_halves_increment 6000); evaluate.
Defined.

Lemma resolution_reads_first_octave_witness :
  kHighestNote <= kPitchTableStart + kOctave /\
  -32768 <= 6000 <= 32767 /\
  exists wrapped ref shifts,
    Voice.wrap_pitch loop_fuel 6000 = Some wrapped /\
    Voice.table_reference loop_fuel wrapped = Some (ref, shifts) /\
    0 <= ref < kOctave /\ 0 <= Z.shiftr ref 1 <= kOctave / 2 /\
    0 <= shifts <= 255 /\
    ref = wrapped + shifts * kOctave - kPitchTableStart /\
    Voice.resolve_increment loop_fuel 6000 =
      Some (Z.shiftr (u16 (lut_res_oscillator_increments (u16 (Z.shiftr ref 1))))
                     shifts).
Proof.
  split; [evaluate|]. split; [lia|].
  apply (resolution_reads_first_octave 6000); evaluate.
Defined.

Lemma note_on_retriggers_lfos_witness :
  let e := fst (SynthesisEngine.UpdateModulationIncrements 6000
                  (engine_with_lfo_rates 3 7)) in
  let e1 := fst (SynthesisEngine.NoteOn false 0 60 100 e) in
  let e2 := fst (SynthesisEngine.control_engine (tick true) e1) in
  SynthesisEngine.num_lfo_reset_steps_ e = 32 /\
  SynthesisEngine.lfo_reset_counter_ e = 0 /\
  SynthesisEngine.lfo_reset_counter_ e2 = 0 /\
  forall (i : nat) l,
    lfo_rate (patch_with_lfo_rates 3 7) (Z.of_nat i) < 16 ->
    SynthesisEngine.lfo_ e2 !! i = Some l -> Lfo.phase_ l = 0.
Proof.
  cbv zeta. split; [vm_compute; reflexivity|]. split; [vm_compute; reflexivity|].
  pose proof (note_on_retriggers_lfos 0 60 100 (tick true)
                (fst (SynthesisEngine.UpdateModulationIncrements 6000
                        (engine_with_lfo_rates 3 7)))
                ltac:(reflexivity) ltac:(reflexivity) ltac:(evaluate)
                ltac:(evaluate) ltac:(evaluate)) as Hs.
  cbv zeta in Hs. destruct Hs as (_ & Hc & Hp). split; [exact Hc|exact Hp].
Defined.

Lemma free_running_lfo_is_never_reset_witness :
  lfo_rate (SynthesisEngine.patch_ engine) 0 = 96 /\
  SynthesisEngine.lfo_ engine !! 0%nat = Some (Lfo.mk 0 0 0) /\
  exists l',
    SynthesisEngine.lfo_ (fst (SynthesisEngine.control_engine (tick true) engine))
      !! 0%nat = Some l' /\
    Lfo.phase_ l' = u16 (0 + 0).
Proof.
  split; [reflexivity|]. split; [reflexivity|].
  apply (free_running_lfo_is_never_reset (tick true) engine 0 (Lfo.mk 0 0 0));
    first [reflexivity | evaluate].
Defined.

Lemma UpdateModulationIncrements_is_idempotent_witness :
  let e' := fst (SynthesisEngine.UpdateModulationIncrements 6000
                   (engine_with_lfo_rates 3 7)) in
  SynthesisEngine.num_lfo_reset_steps_ e' = 32 /\
  fst (SynthesisEngine.UpdateModulationIncrements 6000 e') = e'.
Proof.
  cbv zeta. split; [vm_compute; reflexivity|].
  apply (UpdateModulationIncrements_is_idempotent 6000 (engine_with_lfo_rates 3 7));
    first [reflexivity | evaluate].
Defined.

Lemma noise_is_updated_every_fourth_sample_witness :
  SynthesisEngine.oscillator_decimation_ engine = 0 /\
  length (List.filter Runs.is_random_update
            (snd (Runs.run_audio (replicate 8 (fun _ => samples)) engine))) = 2%nat.
Proof.
  split; [reflexivity|].
  apply (noise_is_updated_every_fourth_sample 2
           (replicate 8 (fun _ => samples)) engine);
    first [reflexivity | evaluate].
Defined.

Lemma omni_mode_selects_the_channels_witness :
  u8 3 <> 255 /\
  SynthesisEngine.CheckChannel 3 (SynthesisEngine.OmniModeOff 3 engine) = true /\
  SynthesisEngine.CheckChannel 4 (SynthesisEngine.OmniModeOff 3 engine) <> true /\
  SynthesisEngine.CheckChannel 4 (SynthesisEngine.OmniModeOn 3 engine) = true.
Proof.
  split; [evaluate|].
  assert (H1 : 0 <= offsetof_kbd_midi_channel <
               Z.of_nat (length (SynthesisEngine.patch_ engine))) by evaluate.
  assert (H2 : u8 3 <> 255) by evaluate.
  split; [apply (omni_mode_selects_the_channels 3 3 engine H1 H2); reflexivity|].
  split.
  - intros E. apply (omni_mode_selects_the_channels 3 4 engine H1 H2) in E.
    vm_compute in E. discriminate.
  - apply (omni_mode_selects_the_channels 3 4 engine H1 H2).
Defined.

Lemma nrpn_selects_the_data_entry_target_witness :
  12 < sizeof_Patch - 1 /\
  exists e' calls,
    SynthesisEngine.run_control_changes beats
      [(0, kNrpnMsb, 12); (0, kDataEntryMsb, 64)] engine = Some (e', calls) /\
    SynthesisEngine.patch_ e' = poke (SynthesisEngine.patch_ engine) (12 + 1) 64 /\
    SynthesisEngine.nrpn_parameter_number_ e' = 12.
Proof.
  split; [evaluate|].
  apply (nrpn_selects_the_data_entry_target beats 0 0 12 64 engine);
    first [reflexivity | evaluate].
Defined.

Lemma controller_messages_stay_inside_the_patch_witness :
  sizeof_Patch <= Z.of_nat (length (SynthesisEngine.patch_ engine)) /\
  exists e' calls,
    SynthesisEngine.run_control_changes beats controller_messages engine =
      Some (e', calls) /\
    length (SynthesisEngine.patch_ e') = length (SynthesisEngine.patch_ engine) /\
    0 <= SynthesisEngine.nrpn_parameter_number_ e' <= 255.
Proof.
  split; [evaluate|].
  apply (controller_messages_stay_inside_the_patch beats controller_messages engine);
    evaluate.
Defined.

Lemma dead_voice_is_silent_witness :
  exists v' calls,
    Voice.Control empty_patch (sources_with_wheel 0) dead_envelopes voice =
      Some (v', calls) /\
    Voice.Audio empty_patch samples v' = (Voice.set_signal 128 v', []).
Proof.
  destruct (Voice.Control empty_patch (sources_with_wheel 0) dead_envelopes voice)
    as [[v' calls]|] eqn:E; [|vm_compute in E; discriminate].
  exists v', calls. split; [reflexivity|].
  apply (proj1 (dead_voice_is_silent empty_patch (sources_with_wheel 0)
                  dead_envelopes samples voice v' calls E));
    reflexivity.
Defined.

Lemma resolved_cutoff_is_in_range_witness :
  exists dst' destinations',
    Voice.resolve_destinations empty_patch (sources_with_wheel 0)
      (voice_sources 255) (replicate 11 0) (replicate 11 0) =
      Some (dst', destinations') /\
    0 <= peek dst' MOD_DST_FILTER_CUTOFF <= 16383.
Proof.
  destruct (Voice.resolve_destinations empty_patch (sources_with_wheel 0)
              (voice_sources 255) (replicate 11 0) (replicate 11 0))
    as [[dst' destinations']|] eqn:E; [|vm_compute in E; discriminate].
  exists dst', destinations'. split; [reflexivity|].
  apply (resolved_cutoff_is_in_range empty_patch (sources_with_wheel 0)
           (voice_sources 255) (replicate 11 0) (replicate 11 0)
           dst' destinations' E).
  evaluate.
Defined.

Lemma retrigger_arrives_in_one_step_witness :
  Voice.pitch_value_ (voice_at 7680) = Voice.trigger_target empty_patch 60 /\
  Voice.pitch_increment_
    (fst (Voice.Trigger empty_patch 60 100 0 (voice_at 7680))) = 1 /\
  Voice.arrived (Voice.trigger_target empty_patch 60)
    (Voice.pitch_step (fst (Voice.Trigger empty_patch 60 100 0 (voice_at 7680)))).
Proof.
  split; [vm_compute; reflexivity|].
  apply (retrigger_arrives_in_one_step empty_patch 60 100 0 (voice_at 7680));
    [right; vm_compute; reflexivity|evaluate].
Defined.

End ConcreteFurther.

(** ** Patch storage on the concrete configuration *)

Section ConcreteStorage.
Import Example.
#[local] Existing Instance headers.
#[local] Existing Instance storage_headers.

Ltac evaluate :=
  vm_compute; repeat split; try reflexivity; try discriminate;
  intros; discriminate.

(** Bytes of a concrete list. *)
Ltac bytes := repeat (constructor; [lia|]); constructor.

(** A fact about every index of a concrete range, by cases. *)
Ltac by_cases m n :=
  let i := fresh "i" in let Hi := fresh "Hi" in let Hc := fresh "Hc" in
  intros i Hi;
  assert (Hc : In i (seqZ m n))
    by (apply list_elem_of_In, elem_of_seqZ; exact Hi);
  vm_compute in Hc;
  repeat (destruct Hc as [<- | Hc]; [evaluate|]); contradiction.

Lemma example_layout : Storage.layout 96.
Proof. evaluate. Qed.

Lemma example_rows i :
  0 <= i < kSavedModulationMatrixSize ->
  modulation_source empty_patch i <= 15 /\
  modulation_destination empty_patch i <= 15.
Proof. revert i. by_cases 0 10. Qed.

Lemma example_parameters i :
  6 <= i < 26 -> peek empty_patch (offsetof_osc_algorithm + i) <= 128.
Proof. revert i. by_cases 6 20. Qed.

Lemma example_name i :
  0 <= i < 8 -> peek empty_patch (offsetof_name + i) <= 128.
Proof. revert i. by_cases 0 8. Qed.

Lemma example_bytes : Forall (fun x => 0 <= x <= 255) empty_patch.
Proof. unfold empty_patch. bytes. Qed.

Lemma restore_brings_back_the_saved_bytes_witness :
  edited_patch <> empty_patch /\
  Storage.patch
    (Storage.Restore (Storage.set_patch edited_patch (Storage.Backup storage)))
  = empty_patch.
Proof.
  split; [evaluate|].
  assert (Hb : kSerializedPatchSize
               <= Z.of_nat (length (Storage.undo_buffer_ storage))) by evaluate.
  apply (restore_brings_back_the_saved_bytes storage edited_patch
           example_layout Hb eq_refl example_bytes example_rows).
  intros j Hj Hs. unfold edited_patch.
  destruct (Z.eq_dec j 30) as [->|H30]; [vm_compute in Hs; discriminate|].
  destruct (Z.eq_dec j 13) as [->|H13]; [vm_compute in Hs; discriminate|].
  rewrite !peek_poke_ne by lia. reflexivity.
Defined.

Lemma packing_keeps_one_nibble_per_field_witness :
  modulation_source wide_source_patch 0 = 20 /\
  modulation_destination wide_source_patch 0 = 4 /\
  modulation_source
    (Storage.Unpack (Storage.Pack wide_source_patch (replicate 64 0)) empty_patch) 0
  = 4 /\
  modulation_destination
    (Storage.Unpack (Storage.Pack wide_source_patch (replicate 64 0)) empty_patch) 0
  = 5.
Proof.
  split; [reflexivity|]. split; [reflexivity|].
  assert (Hb : kSerializedPatchSize <= Z.of_nat (length (replicate 64 0)))
    by evaluate.
  assert (Hi : 0 <= 0 < kSavedModulationMatrixSize) by evaluate.
  destruct (packing_keeps_one_nibble_per_field wide_source_patch (replicate 64 0)
              empty_patch 0 example_layout Hb Hi) as (Es & Ed & _).
  rewrite Es, Ed. split; reflexivity.
Defined.

Lemma sysex_reception_is_memory_safe_witness :
  Storage.receiving other_storage /\
  exists s', Storage.receive [3; 255; 240; 0; 32; 5; 247; 240] other_storage = Some s' /\
             Storage.receiving s'.
Proof.
  assert (Hr : Storage.receiving other_storage)
    by (split; [reflexivity|]; split; [discriminate|intros _; evaluate]).
  split; [exact Hr|].
  assert (Hk : 0 <= kSerializedPatchSize <= 126) by evaluate.
  destruct (sysex_reception_is_memory_safe [3; 255; 240; 0; 32; 5; 247; 240]
              other_storage Hk Hr) as (s' & E & R & _).
  exists s'. split; [exact E|exact R].
Defined.

Lemma sysex_message_is_well_formed_witness :
  0 <= kSerializedPatchSize /\
  exists payload,
    snd (Storage.SysExSend storage) = 240 :: payload ++ [247] /\
    Forall (fun x => 0 <= x <= 127) payload /\
    Z.of_nat (length (snd (Storage.SysExSend storage))) = 139.
Proof.
  assert (Hk : 0 <= kSerializedPatchSize) by evaluate.
  split; [exact Hk|].
  destruct (sysex_message_is_well_formed storage Hk) as (payload & E & F & L).
  exists payload. split; [exact E|]. split; [exact F|]. rewrite L. reflexivity.
Defined.

Lemma sysex_round_trip_witness :
  Storage.patch other_storage <> Storage.patch storage /\
  exists r,
    Storage.receive (snd (Storage.SysExSend storage)) other_storage = Some r /\
    Storage.sysex_reception_state_ r = Storage.RECEPTION_OK /\
    forall j, 0 <= j ->
      peek (Storage.patch r) j =
      if Storage.saved j then peek empty_patch j else peek silent_matrix_patch j.
Proof.
  split; [evaluate|].
  apply (sysex_round_trip storage other_storage example_layout eq_refl eq_refl).
  - apply Forall_replicate. lia.
  - exact example_bytes.
  - exact example_rows.
  - exact example_parameters.
  - exact example_name.
Defined.

Lemma corrupted_message_is_rejected_witness :
  Storage.sum_bytes (replicate 64 0) = 0 /\
  exists r,
    Storage.receive
      (Storage.sysex_header ++ Storage.nibbles (replicate 64 0 ++ [1]) ++ [247])
      storage = Some r /\
    Storage.sysex_reception_state_ r = Storage.RECEPTION_ERROR /\
    Storage.patch r = empty_patch.
Proof.
  split; [reflexivity|].
  assert (Hk : kSerializedPatchSize <= 126) by evaluate.
  assert (Hd : Forall (fun x => 0 <= x <= 255) (replicate 64 0))
    by (apply Forall_replicate; lia).
  assert (Hc : 0 <= 1 <= 255) by lia.
  assert (Hbad : 1 <> Storage.sum_bytes (replicate 64 0) \/
                 Storage.CheckBuffer (replicate 64 0 ++ [1]) = 0)
    by (left; evaluate).
  assert (Hl : Z.of_nat (length (Storage.load_save_buffer_ storage))
               = kSerializedPatchSize + 1) by reflexivity.
  assert (Hn : Z.of_nat (length (replicate 64 0)) = kSerializedPatchSize)
    by reflexivity.
  destruct (corrupted_message_is_rejected storage (replicate 64 0) 1
              Hl Hk Hn Hd Hc Hbad) as (r & E & S & P & _).
  exists r. split; [exact E|]. split; [exact S|exact P].
Defined.


Lemma eeprom_load_rejects_a_bad_slot_witness :
  128 < u8 (blank_eeprom 6) /\
  Storage.patch (Storage.EepromLoad 0 blank_eeprom storage) =
  poke empty_patch offsetof_name 63.
Proof.
  split; [evaluate|].
  apply (eeprom_load_rejects_a_bad_slot 0 blank_eeprom storage 6);
    first [evaluate | left; lia].
Defined.

End ConcreteStorage.

(** ** The editor on the concrete configuration *)

Section ConcreteEditor.
Import Example Editor.
#[local] Existing Instance headers.
#[local] Existing Instance storage_headers.
#[local] Existing Instance editor_headers.

(** The groups remember their own pages, by cases on the group. *)
Ltac remembered :=
  split;
  [ intros g; destruct g; reflexivity
  | let E := fresh "E" in
    intros g E; vm_compute in E; injection E as <-; reflexivity ].

Lemma editor_visited : visited_in_group editor.
Proof. remembered. Qed.

Lemma matrix_editor_visited : visited_in_group matrix_editor.
Proof. remembered. Qed.

Lemma ToggleGroup_lands_in_the_group_witness :
  visited_in_group editor /\
  exists ed' calls,
    ToggleGroup GROUP_MOD editor = Some (ed', calls) /\
    page_group (current_page_ ed') = Some GROUP_MOD /\
    visited_in_group ed'.
Proof.
  split; [exact editor_visited|].
  destruct (ToggleGroup GROUP_MOD editor) as [[ed' calls]|] eqn:E;
    [|vm_compute in E; discriminate E].
  exists ed', calls. split; [reflexivity|].
  assert (Hn : kNumPages = 13) by reflexivity.
  exact (ToggleGroup_lands_in_the_group GROUP_MOD editor ed' calls
           Hn editor_visited E).
Defined.

Lemma ToggleGroup_reads_past_the_table_witness :
  0 <= current_page_ performance_editor < 13 /\
  ToggleGroup GROUP_PERFORMANCE performance_editor = None.
Proof.
  assert (Hn : kNumPages = 13) by reflexivity.
  assert (Hp : 0 <= current_page_ performance_editor < 13)
    by (change (0 <= 12 < 13); lia).
  split; [exact Hp|].
  apply (ToggleGroup_reads_past_the_table GROUP_PERFORMANCE performance_editor
           Hn Hp).
  split; reflexivity.
Defined.

Lemma modulation_row_is_remembered_witness :
  exists ed1 calls1 ed2 calls2,
    ToggleGroup GROUP_OSC (SetParameterWithHacks PRM_MOD_ROW 5 matrix_editor).1
      = Some (ed1, calls1) /\
    ToggleGroup GROUP_MOD ed1 = Some (ed2, calls2) /\
    current_page_ ed2 = PAGE_MOD_MATRIX /\
    subpage_ ed2 = 5.
Proof.
  destruct (ToggleGroup GROUP_OSC
              (SetParameterWithHacks PRM_MOD_ROW 5 matrix_editor).1)
    as [[ed1 calls1]|] eqn:E; [|vm_compute in E; discriminate E].
  assert (Hn : kNumPages = 13) by reflexivity.
  assert (Hrow : PRM_MOD_ROW <> PRM_ARP_TEMPO) by (vm_compute; discriminate).
  assert (Hpage : current_page_ matrix_editor = PAGE_MOD_MATRIX) by reflexivity.
  assert (Hg : GROUP_OSC <> GROUP_MOD) by discriminate.
  destruct (modulation_row_is_remembered GROUP_OSC 5 matrix_editor ed1 calls1
              Hn Hrow matrix_editor_visited Hpage Hg E)
    as (_ & ed2 & calls2 & E2 & Hp2 & Hs2).
  exists ed1, calls1, ed2, calls2. repeat split; assumption || reflexivity.
Defined.

Lemma knob_stays_between_the_bounds_witness :
  exists x, -12 <= x <= 12 /\ knob_value range_parameter 1023 = u8 x.
Proof.
  assert (Hunit : unit range_parameter <> UNIT_RAW_UINT8)
    by (vm_compute; discriminate).
  assert (Hle : -12 <= 12) by lia.
  assert (Hwide : 12 - -12 <= 254) by lia.
  assert (Hmin : min_value range_parameter = u8 (-12)) by reflexivity.
  assert (Hmax : max_value range_parameter = u8 12) by reflexivity.
  assert (Hvalue : 0 <= 1023 < 1024) by lia.
  exact (knob_stays_between_the_bounds range_parameter 1023 (-12) 12
           Hunit Hle Hwide Hmin Hmax Hvalue).
Defined.

Lemma parameter_reads_back_witness :
  (SetParameterWithHacks PRM_ARP_TEMPO 30 editor).2
    = [EngineSetParameter 70 0] /\
  GetParameterWithHacks (fun _ => 0) PRM_ARP_TEMPO
    (SetParameterWithHacks PRM_ARP_TEMPO 30 editor).1 = 39.
Proof.
  split; [reflexivity|].
  assert (Hvalue : 0 <= 30 <= 255) by lia.
  assert (Hget : forall index v,
            In (EngineSetParameter index v)
               (SetParameterWithHacks PRM_ARP_TEMPO 30 editor).2 ->
            (fun _ : Z => 0) index = v).
  { intros index v Hin. vm_compute in Hin. destruct Hin as [E|[]].
    injection E as _ <-. reflexivity. }
  exact (parameter_reads_back (fun _ => 0) PRM_ARP_TEMPO 30 editor Hvalue Hget).
Defined.

Lemma increment_stays_between_the_bounds_witness :
  incremented_value range_parameter 244 1 = Some 245 /\
  i8 245 = i8 244 + i8 1 /\
  i8 (min_value range_parameter) <= i8 245 <= i8 (max_value range_parameter).
Proof.
  assert (E : incremented_value range_parameter 244 1 = Some 245)
    by reflexivity.
  split; [exact E|].
  assert (Hc : 0 <= 244 <= 255) by lia.
  assert (Hmin : 0 <= min_value range_parameter <= 255)
    by (vm_compute; split; discriminate).
  assert (Hmax : 0 <= max_value range_parameter <= 255)
    by (vm_compute; split; discriminate).
  exact (increment_stays_between_the_bounds range_parameter 244 1 245
           Hc Hmin Hmax E).
Defined.

Lemma edited_name_stays_acceptable_witness :
  Storage.CheckBuffer (Storage.Pack named_patch (replicate 64 0)) = 1 /\
  HandleLoadSaveIncrement 1 saving_editor named_patch
    = Some (poke named_patch 89 68) /\
  Storage.CheckBuffer (Storage.Pack (poke named_patch 89 68) (replicate 64 0))
    = 1.
Proof.
  assert (Hok : Storage.CheckBuffer
                  (Storage.Pack named_patch (replicate 64 0)) = 1)
    by (vm_compute; reflexivity).
  assert (E : HandleLoadSaveIncrement 1 saving_editor named_patch
              = Some (poke named_patch 89 68)) by (vm_compute; reflexivity).
  split; [exact Hok|]. split; [exact E|].
  assert (Hp : Z.of_nat (length named_patch) = 96) by reflexivity.
  assert (Hb : kSerializedPatchSize <= Z.of_nat (length (replicate 64 0)))
    by (vm_compute; discriminate).
  assert (Hc : 0 <= cursor_ saving_editor) by (vm_compute; discriminate).
  destruct (edited_name_stays_acceptable 96 saving_editor named_patch
              (replicate 64 0) example_layout Hp Hb Hc Hok) as [Hinc _].
  exact (Hinc 1 _ E).
Defined.

End ConcreteEditor.
